(** * data_cube_utilities: a shallow embedding of the array helpers

    The Python sources embedded here are

    - [dc_utilities.py]: [create_cfmask_clean_mask], [split_task],
      [generate_time_ranges], [chunks], [perform_timeseries_analysis],
      [perform_timeseries_analysis_iterative], [fill_nodata], [max_value],
      [min_value], [addition];
    - [data_cube_utilities/dc_ndvi_anomaly.py]: [EVI], [EVI2], [NDVI],
      [compute_ndvi_anomaly];
    - [data_access_api.py]: [DataAccessApi.get_dataset_by_extent],
      [get_scene_metadata], [list_acquisition_dates] and
      [get_datacube_metadata].

    Conventions of the embedding.

    - A Python call either returns or raises: [result A] is [Ok a] or
      [Raise e] with the exception class [e].
    - A float64 is an [fval]: NaN, the two infinities, or a finite value
      carried as an exact canonical rational ([Qc]).  Arithmetic on finite
      values is exact, so rounding (and the sign of zero) is not modelled;
      the special values follow IEEE 754 as numpy applies it.
    - A numpy buffer is the list of its elements in C order; where the code
      reshapes, the shape is carried along ([ndarray]).
    - Objects that the code copies and then writes in place live in an
      explicit [heap].
    - A generator is run for a given number of resumptions and reports the
      values it yielded and whether it is exhausted, failed or suspended. *)

From Stdlib Require Import ZArith QArith Qcanon Qround Qpower Qabs Lia Lqa.
From stdpp Require Import base option list strings numbers sorting.

Local Open Scope Z_scope.

(** ** Exceptions and results *)

Inductive exn : Set :=
| AssertionError
| AttributeError
| IndexError
| KeyError
| OverflowError
| TypeError
| ValueError
| ZeroDivisionError
| Dangling.  (* not a Python exception: a reference outside the heap *)

Inductive result (A : Type) : Type :=
| Ok (a : A)
| Raise (e : exn).

Arguments Ok {A} a.
Arguments Raise {A} e.

Definition rbind {A B} (r : result A) (k : A → result B) : result B :=
  match r with
  | Ok a => k a
  | Raise e => Raise e
  end.

Notation "'try' x ← r ; k" := (rbind r (λ x, k))
  (at level 10, x name, r at level 100, k at level 200,
   format "'[v' 'try'  x  ←  r ; '/' k ']'").
Notation "'try' ' p ← r ; k" := (rbind r (λ x, match x with p => k end))
  (at level 10, p pattern, r at level 100, k at level 200,
   format "'[v' 'try'  ' p  ←  r ; '/' k ']'").


(** ** Python integer helpers *)

(** [math.ceil(a / b)] on integers, for [b ≠ 0] ([Z.div] floors, as [//]). *)
Definition ceil_div (a b : Z) : Z := - ((- a) `div` b).

(** [range(start, stop, step)] as the list of its elements. *)
Definition py_range (start stop step : Z) : result (list Z) :=
  if decide (step = 0) then Raise ValueError
  else
    Ok ((λ j : nat, start + Z.of_nat j * step) <$>
          seq 0 (Z.to_nat (ceil_div (stop - start) step))).

(** A slice bound, clipped as Python clips it. *)
Definition slice_bound (len k : Z) : Z :=
  if decide (k < 0) then Z.max 0 (len + k) else Z.min k len.

(** [l[i:j]]. *)
Definition py_slice {A} (l : list A) (i j : Z) : list A :=
  let len := Z.of_nat (length l) in
  let lo := slice_bound len i in
  let hi := slice_bound len j in
  take (Z.to_nat (hi - lo)) (drop (Z.to_nat lo) l).

(** ** numpy arrays with a shape *)

Record ndarray (A : Type) : Type := NdArray {
  shape : list nat;
  flat : list A
}.

Arguments NdArray {A} shape flat.
Arguments shape {A} _.
Arguments flat {A} _.

Definition np_size (shp : list nat) : nat := foldr Nat.mul 1%nat shp.

Definition ndarray_wf {A} (a : ndarray A) : Prop :=
  length (flat a) = np_size (shape a).

(** [a.reshape(-1)] *)
Definition reshape_1d {A} (a : ndarray A) : ndarray A :=
  NdArray [length (flat a)] (flat a).

(** [np.reshape(a, shp)] *)
Definition np_reshape {A} (a : ndarray A) (shp : list nat) : result (ndarray A) :=
  if decide (length (flat a) = np_size shp) then Ok (NdArray shp (flat a))
  else Raise ValueError.

(** [np.in1d(ar1, ar2, invert=invert)] for a one-dimensional [ar1]. *)
Definition np_in1d (ar1 : ndarray Z) (ar2 : list Z) (invert : bool) : ndarray bool :=
  NdArray (shape ar1) ((λ x, xorb invert (bool_decide (x ∈ ar2))) <$> flat ar1).

(** ** [create_cfmask_clean_mask] *)

Definition create_cfmask_clean_mask (cfmask : ndarray Z) (no_data : Z)
  : result (ndarray bool) :=
  np_reshape (np_in1d (reshape_1d cfmask) [2; 3; 4; 255; no_data] true)
             (shape cfmask).

(** ** [chunks] and [split_task] *)

(** The generator [chunks(l, n)], drained into a list. *)
Definition chunks {A} (l : list A) (n : Z) : result (list (list A)) :=
  try starts ← py_range 0 (Z.of_nat (length l)) n;
  Ok ((λ i, py_slice l i (i + n)) <$> starts).

(** [sorted(acquisitions)]: acquisition dates are totally ordered, here
    integer timestamps. *)
Definition sorted (acquisitions : list Z) : list Z := merge_sort Z.le acquisitions.

(** [math.ceil(x)] of a finite float. *)
Definition Qcceil (x : Qc) : Z := - Qfloor (- x)%Qc.

Definition Qcltb (x y : Qc) : bool :=
  match (x ?= y)%Qc with Lt => true | _ => false end.

Definition Qceqb (x y : Qc) : bool :=
  match (x ?= y)%Qc with Eq => true | _ => false end.

(** Float true division: Python raises on a zero divisor. *)
Definition py_div (x y : Qc) : result Qc :=
  if Qceqb y 0 then Raise ZeroDivisionError else Ok (x / y)%Qc.

Abbreviation extent := (Qc * Qc)%type.

(** Lines 82-105 of [split_task]: the geographic ranges.  [latitude] and
    [longitude] are subscripted before they are tested against [None]. *)
Definition split_task_geo (resolution : Qc) (latitude longitude : option extent)
    (geo_chunk_size : option Qc)
  : result (list (option extent) * list (option extent)) :=
  match longitude, latitude with
  | Some lon, Some lat =>
      let square_area := ((lon.2 - lon.1) * (lat.2 - lat.1))%Qc in
      match geo_chunk_size with
      | Some gcs =>
          if Qcltb gcs square_area then
            try q ← py_div square_area gcs;
            let geographic_chunks := Qcceil q in
            try lat_range_size ← py_div (lat.2 - lat.1) (Q2Qc (inject_Z geographic_chunks));
            try n ← py_div (lat.2 - lat.1) lat_range_size;
            try idx ← py_range 0 (Qcceil n) 1;
            Ok ((λ i,
                   let lower_lat := (lat.1 + Q2Qc (inject_Z i) * lat_range_size)%Qc in
                   let upper_lat := (lat.1 + Q2Qc (inject_Z (i + 1)) * lat_range_size)%Qc in
                   Some (lower_lat,
                         if decide (i ≠ geographic_chunks - 1)
                         then (upper_lat - resolution)%Qc else upper_lat)) <$> idx,
                (λ _, Some lon) <$> idx)
          else Ok ([Some lat], [Some lon])
      | None => Ok ([Some lat], [Some lon])
      end
  | _, _ => Raise TypeError
  end.

(** [list(reversed(acquisitions_sorted)) if reverse_time else
    acquisitions_sorted], which lines 108 and 112 both build. *)
Definition ordered_acquisitions (acquisitions : list Z) (reverse_time : bool) : list Z :=
  let acquisitions_sorted := sorted acquisitions in
  if reverse_time then reverse acquisitions_sorted else acquisitions_sorted.

(** Lines 107-112 of [split_task]: the time ranges. *)
Definition split_task_time (acquisitions : list Z) (time_chunks : option Z)
    (reverse_time : bool) : result (list (list Z)) :=
  let acquisitions_sorted := sorted acquisitions in
  match time_chunks with
  | None => Ok [ordered_acquisitions acquisitions reverse_time]
  | Some tc =>
      if decide (tc = 0) then Raise ZeroDivisionError
      else
        let time_chunk_size := ceil_div (Z.of_nat (length acquisitions_sorted)) tc in
        chunks (ordered_acquisitions acquisitions reverse_time) time_chunk_size
  end.

Definition split_task (resolution : Qc) (latitude longitude : option extent)
    (acquisitions : list Z) (geo_chunk_size : option Qc) (time_chunks : option Z)
    (reverse_time : bool)
  : result (list (option extent) * list (option extent) * list (list Z)) :=
  try '(lat_ranges, lon_ranges) ← split_task_geo resolution latitude longitude geo_chunk_size;
  try time_ranges ← split_task_time acquisitions time_chunks reverse_time;
  Ok (lat_ranges, lon_ranges, time_ranges).

(** The chunk size computed on line 110. *)
Definition time_chunk_size (acquisitions : list Z) (tc : Z) : Z :=
  ceil_div (Z.of_nat (length (sorted acquisitions))) tc.

(** ** float64 values *)

Inductive fval : Type :=
| NaN
| PInf
| NInf
| Fin (q : Qc).

Definition fzero : fval := Fin 0%Qc.
Definition fone : fval := Fin 1%Qc.

(** A literal [n / d]. *)
Definition flit (n : Z) (d : positive) : fval := Fin (Q2Qc (n # d)).

Definition isnan (x : fval) : bool :=
  match x with NaN => true | _ => false end.

Definition isfinite (x : fval) : bool :=
  match x with Fin _ => true | _ => false end.

Definition fneg (x : fval) : fval :=
  match x with
  | NaN => NaN
  | PInf => NInf
  | NInf => PInf
  | Fin q => Fin (- q)%Qc
  end.

Definition fadd (x y : fval) : fval :=
  match x, y with
  | NaN, _ | _, NaN => NaN
  | PInf, NInf | NInf, PInf => NaN
  | PInf, _ | _, PInf => PInf
  | NInf, _ | _, NInf => NInf
  | Fin a, Fin b => Fin (a + b)%Qc
  end.

Definition fsub (x y : fval) : fval := fadd x (fneg y).

(** The infinity whose sign is that of [s], or NaN for [s = 0]. *)
Definition inf_of_sign (s : Qc) : fval :=
  match (s ?= 0)%Qc with
  | Lt => NInf
  | Eq => NaN
  | Gt => PInf
  end.

Definition fmul (x y : fval) : fval :=
  match x, y with
  | NaN, _ | _, NaN => NaN
  | PInf, PInf | NInf, NInf => PInf
  | PInf, NInf | NInf, PInf => NInf
  | PInf, Fin b | Fin b, PInf => inf_of_sign b
  | NInf, Fin b | Fin b, NInf => inf_of_sign (- b)%Qc
  | Fin a, Fin b => Fin (a * b)%Qc
  end.

(** numpy division: a zero divisor gives an infinity or NaN, not an
    exception. *)
Definition fdiv (x y : fval) : fval :=
  match x, y with
  | NaN, _ | _, NaN => NaN
  | (PInf | NInf), (PInf | NInf) => NaN
  | Fin _, (PInf | NInf) => fzero
  | PInf, Fin b => if Qcltb b 0 then NInf else PInf
  | NInf, Fin b => if Qcltb b 0 then PInf else NInf
  | Fin a, Fin b => if Qceqb b 0 then inf_of_sign a else Fin (a / b)%Qc
  end.

(** [x < y]; any comparison with NaN is false. *)
Definition fltb (x y : fval) : bool :=
  match x, y with
  | NaN, _ | _, NaN => false
  | _, NInf => false
  | NInf, _ => true
  | PInf, _ => false
  | Fin _, PInf => true
  | Fin a, Fin b => Qcltb a b
  end.

(** [x == y] *)
Definition feqb (x y : fval) : bool :=
  match x, y with
  | PInf, PInf | NInf, NInf => true
  | Fin a, Fin b => Qceqb a b
  | _, _ => false
  end.

(** [x <= y] as a proposition, for stating bounds. *)
Definition fle (x y : fval) : Prop :=
  match x, y with
  | NaN, _ | _, NaN => False
  | NInf, _ | _, PInf => True
  | Fin a, Fin b => (a <= b)%Qc
  | _, _ => False
  end.

Definition flt (x y : fval) : Prop := fltb x y = true.

(** ** Rounding to binary64

    The operations above are exact on finite values.  A float64 has 53
    significant bits, the unit in its last place is [2^e] with
    [-1074 ≤ e ≤ 971], and every operation of the hardware returns the
    representable value nearest to the exact result, the even one at a tie;
    from [2^1024] on the magnitude is infinite. *)

(** For [0 < q], the [l] with [2^l ≤ q < 2^(l+1)]. *)
Definition floor_log2 (q : Q) : Z :=
  let l := Z.log2 (Qnum q) - Z.log2 (Z.pos (Qden q)) in
  if Qle_bool (2 ^ l) q then l else l - 1.

(** Round to the nearest integer, ties to the even one. *)
Definition round_half_even (x : Q) : Z :=
  let f := Qfloor x in
  match (x - inject_Z f ?= 1 # 2)%Q with
  | Lt => f
  | Gt => f + 1
  | Eq => if Z.even f then f else f + 1
  end.

(** The exponent of the unit in the last place of the float64 values near
    [q]; below [2^-1022] the unit stays [2^-1074] (subnormal values). *)
Definition ulp_exponent (q : Q) : Z := Z.max (-1074) (floor_log2 (Qabs q) - 52).

Definition nearest64 (q : Q) : Q :=
  let e := ulp_exponent q in
  (inject_Z (round_half_even (q / 2 ^ e)) * 2 ^ e)%Q.

(** The float64 nearest to [q]. *)
Definition round64 (q : Qc) : fval :=
  let v := nearest64 q in
  if Qle_bool (2 ^ 1024) (Qabs v) then (if Qle_bool 0 v then PInf else NInf)
  else Fin (Q2Qc v).

Definition fround (v : fval) : fval :=
  match v with
  | Fin q => round64 q
  | _ => v
  end.

(** The float64 operations: the exact result, rounded. *)
Definition fadd64 (x y : fval) : fval := fround (fadd x y).
Definition fsub64 (x y : fval) : fval := fround (fsub x y).
Definition fmul64 (x y : fval) : fval := fround (fmul x y).
Definition fdiv64 (x y : fval) : fval := fround (fdiv x y).

(** [float(z)] of a Python integer, and of a numpy integer. *)
Definition float_of_int (z : Z) : fval := round64 (Q2Qc (inject_Z z)).

(** A value that a float64 can hold. *)
Definition is_float64 (v : fval) : Prop := fround v = v.

(** ** Boolean-mask indexing *)

(** [a[mask]] *)
Definition mask_select {A} (mask : list bool) (a : list A) : result (list A) :=
  if decide (length mask = length a)
  then Ok (omap (λ p : bool * A, if p.1 then Some p.2 else None) (zip mask a))
  else Raise IndexError.

Fixpoint mask_scatter {A} (mask : list bool) (a rhs : list A) : list A :=
  match mask, a with
  | m :: mask', x :: a' =>
      if m then
        match rhs with
        | r :: rhs' => r :: mask_scatter mask' a' rhs'
        | [] => x :: mask_scatter mask' a' []
        end
      else x :: mask_scatter mask' a' rhs
  | _, _ => a
  end.

Definition count_true (mask : list bool) : nat := length (filter (λ b, b = true) mask).

(** [a[mask] = rhs] for an array [rhs]; the new contents of [a]. *)
Definition mask_assign {A} (mask : list bool) (a rhs : list A) : result (list A) :=
  if decide (length mask = length a) then
    if decide (length rhs = count_true mask) then Ok (mask_scatter mask a rhs)
    else Raise ValueError
  else Raise IndexError.

(** [a[mask] = c] for a scalar [c]. *)
Definition mask_fill {A} (mask : list bool) (a : list A) (c : A) : result (list A) :=
  if decide (length mask = length a)
  then Ok (zip_with (λ (m : bool) x, if m then c else x) mask a)
  else Raise IndexError.

(** ** Labelled arrays *)

(** Dimension names with their coordinate labels, in order. *)
Abbreviation Coords := (list (string * list Qc)).

Definition coords_shape (c : Coords) : list nat := (λ d, length d.2) <$> c.

Record DataArray : Type := mkDataArray {
  da_coords : Coords;
  da_values : list fval
}.

(** A dataset whose variables all live on the dataset's own grid. *)
Record Dataset : Type := mkDataset {
  ds_coords : Coords;
  data_vars : list (string * list fval)
}.

Fixpoint assoc {A} (key : string) (l : list (string * A)) : option A :=
  match l with
  | [] => None
  | kv :: l' => if decide (kv.1 = key) then Some kv.2 else assoc key l'
  end.

(** [d[key] = v] on an ordered dictionary: an existing key keeps its place. *)
Fixpoint assoc_set {A} (key : string) (v : A) (l : list (string * A)) : list (string * A) :=
  match l with
  | [] => [(key, v)]
  | kv :: l' => if decide (kv.1 = key) then (key, v) :: l' else kv :: assoc_set key v l'
  end.

(** [ds.name] *)
Definition ds_attr (ds : Dataset) (name : string) : result DataArray :=
  match assoc name (data_vars ds) with
  | Some v => Ok (mkDataArray (ds_coords ds) v)
  | None => Raise AttributeError
  end.

Definition dataset_wf (ds : Dataset) : Prop :=
  Forall (λ kv, length kv.2 = np_size (coords_shape (ds_coords ds))) (data_vars ds).

(** Element-wise arithmetic of two arrays on one grid, and with a scalar. *)
Definition da_zip (f : fval → fval → fval) (a b : DataArray) : DataArray :=
  mkDataArray (da_coords a) (zip_with f (da_values a) (da_values b)).

Definition da_map (f : fval → fval) (a : DataArray) : DataArray :=
  mkDataArray (da_coords a) (f <$> da_values a).

(** ** Vegetation indices *)

(** The bands of a product are stored as numpy integers (int16 for
    Landsat) or as float64.  numpy computes [a - b] and [a + b] in the
    common dtype of the two operands, where integers wrap around, and
    [a / b] in float64. *)
Record int_dtype : Set := IntDtype {
  signed : bool;
  bits : Z
}.

Definition int16 : int_dtype := IntDtype true 16.
Definition uint16 : int_dtype := IntDtype false 16.


(** The value of the dtype that an integer result is stored as. *)
Definition wrap (t : int_dtype) (z : Z) : Z :=
  if signed t then (z + 2 ^ (bits t - 1)) `mod` 2 ^ bits t - 2 ^ (bits t - 1)
  else z `mod` 2 ^ bits t.

Inductive band : Type :=
| IntBand (t : int_dtype) (values : list Z)
| FloatBand (values : list fval).

(** [np.result_type] of two integer dtypes; [None] is float64, the common
    dtype of uint64 and a signed dtype. *)
Definition result_type (t1 t2 : int_dtype) : option int_dtype :=
  if bool_decide (signed t1 = signed t2)
  then Some (IntDtype (signed t1) (Z.max (bits t1) (bits t2)))
  else
    let u := if signed t1 then bits t2 else bits t1 in
    let s := if signed t1 then bits t1 else bits t2 in
    if decide (u < s) then Some (IntDtype true s)
    else if decide (u < 64) then Some (IntDtype true (2 * u))
    else None.

(** [a.astype('float64')] *)
Definition to_float64 (a : band) : list fval :=
  match a with
  | IntBand _ values => float_of_int <$> values
  | FloatBand values => values
  end.

(** [a - b] and [a + b]: [op] on integers, [fop] on float64. *)
Definition np_arith (op : Z → Z → Z) (fop : fval → fval → fval) (a b : band) : band :=
  match a, b with
  | IntBand t1 x, IntBand t2 y =>
      match result_type t1 t2 with
      | Some t => IntBand t (zip_with (λ u v, wrap t (op u v)) x y)
      | None => FloatBand (zip_with fop (to_float64 a) (to_float64 b))
      end
  | _, _ => FloatBand (zip_with fop (to_float64 a) (to_float64 b))
  end.

Definition np_subtract : band → band → band := np_arith Z.sub fsub64.
Definition np_add : band → band → band := np_arith Z.add fadd64.

(** [a / b]: true division, in float64 whatever the operands. *)
Definition np_true_divide (a b : band) : list fval :=
  zip_with fdiv64 (to_float64 a) (to_float64 b).

(** A dataset of bands on one grid. *)
Record BandDataset : Type := mkBandDataset {
  bd_coords : Coords;
  bands : list (string * band)
}.

(** [ds.name] *)
Definition bd_attr (ds : BandDataset) (name : string) : result band :=
  match assoc name (bands ds) with
  | Some b => Ok b
  | None => Raise AttributeError
  end.

Definition NDVI (ds : BandDataset) : result DataArray :=
  try nir ← bd_attr ds "nir";
  try red ← bd_attr ds "red";
  try nir' ← bd_attr ds "nir";
  try red' ← bd_attr ds "red";
  Ok (mkDataArray (bd_coords ds)
        (np_true_divide (np_subtract nir red) (np_add nir' red'))).

(** [np.interp(x, (x0, x1), (y0, y1))] *)
Definition np_interp (xp fp : Qc * Qc) (x : fval) : fval :=
  match x with
  | NaN => NaN
  | NInf => Fin fp.1
  | PInf => Fin fp.2
  | Fin q =>
      if Qcltb xp.2 q || Qceqb xp.2 q then Fin fp.2
      else if Qcltb q xp.1 || Qceqb q xp.1 then Fin fp.1
      else Fin ((fp.2 - fp.1) / (xp.2 - xp.1) * (q - xp.1) + fp.1)%Qc
  end.

Definition q2_5 : Qc := Q2Qc (5 # 2).

(** The raw index on line 35 of [dc_ndvi_anomaly.py]. *)
Definition EVI_raw (ds : Dataset) (G C1 C2 L : fval) : result DataArray :=
  try nir ← ds_attr ds "nir";
  try red ← ds_attr ds "red";
  try nir' ← ds_attr ds "nir";
  try red' ← ds_attr ds "red";
  try blue ← ds_attr ds "blue";
  Ok (da_zip fdiv
        (da_map (fmul G) (da_zip fsub nir red))
        (da_map (λ v, fadd v L)
           (da_zip fsub (da_zip fadd nir' (da_map (fmul C1) red'))
                        (da_map (fmul C2) blue)))).

(** Lines 37-38: clamp to [-1, 2.5]. *)
Definition EVI_clamp (values : list fval) : result (list fval) :=
  try v1 ← mask_fill ((λ v, fltb v (flit (-1) 1)) <$> values) values (flit (-1) 1);
  mask_fill ((λ v, fltb (Fin q2_5) v) <$> v1) v1 (Fin q2_5).

(** Lines 41-42: rescale the positive values. *)
Definition EVI_normalize (values : list fval) : result (list fval) :=
  let pos_vals_mask := (λ v, fltb fzero v) <$> values in
  try sel ← mask_select pos_vals_mask values;
  mask_assign pos_vals_mask values (np_interp (0%Qc, q2_5) (0%Qc, 1%Qc) <$> sel).

Definition EVI (ds : Dataset) (G C1 C2 L : fval) (normalize : bool) : result DataArray :=
  try evi ← EVI_raw ds G C1 C2 L;
  try clamped ← EVI_clamp (da_values evi);
  if normalize then
    try scaled ← EVI_normalize clamped;
    Ok (mkDataArray (da_coords evi) scaled)
  else Ok (mkDataArray (da_coords evi) clamped).

(** The raw index on line 77 of [dc_ndvi_anomaly.py]. *)
Definition EVI2_raw (ds : Dataset) (G C L : fval) : result DataArray :=
  try nir ← ds_attr ds "nir";
  try red ← ds_attr ds "red";
  try nir' ← ds_attr ds "nir";
  try red' ← ds_attr ds "red";
  Ok (da_zip fdiv
        (da_map (fmul G) (da_zip fsub nir red))
        (da_map (λ v, fadd v L) (da_zip fadd nir' (da_map (fmul C) red')))).

(** [EVI2] clamps and rescales as [EVI] does (lines 79-84). *)
Definition EVI2 (ds : Dataset) (G C L : fval) (normalize : bool) : result DataArray :=
  try evi ← EVI2_raw ds G C L;
  try clamped ← EVI_clamp (da_values evi);
  if normalize then
    try scaled ← EVI_normalize clamped;
    Ok (mkDataArray (da_coords evi) scaled)
  else Ok (mkDataArray (da_coords evi) clamped).

(** ** Time-series aggregation *)

(** A variable with dimensions (time, latitude, longitude): one flat
    latitude-longitude grid per time step. *)
Abbreviation cube := (list (list fval)).

Record TimeDataset : Type := mkTimeDataset {
  td_time : list Qc;
  td_latitude : list Qc;
  td_longitude : list Qc;
  td_vars : list (string * cube)
}.

Definition td_npix (ds : TimeDataset) : nat :=
  (length (td_latitude ds) * length (td_longitude ds))%nat.

Definition cube_wf (steps npix : nat) (c : cube) : Prop :=
  length c = steps ∧ Forall (λ g, length g = npix) c.

Definition td_wf (ds : TimeDataset) : Prop :=
  Forall (λ kv, cube_wf (length (td_time ds)) (td_npix ds) kv.2) (td_vars ds).

(** [a.values[mask] = c] on a cube, for a mask of the same shape. *)
Definition cube_fill (mask : list (list bool)) (c : fval) (a : cube) : cube :=
  zip_with (zip_with (λ (m : bool) x, if m then c else x)) mask a.

Definition cube_eq (c : fval) (a : cube) : list (list bool) :=
  fmap (M:=list) (fmap (M:=list) (λ v, feqb v c)) a.

Definition cube_ne (c : fval) (a : cube) : list (list bool) :=
  fmap (M:=list) (fmap (M:=list) (λ v, negb (feqb v c))) a.

Definition nan_to_zero (v : fval) : fval := if isnan v then fzero else v.

(** [a.sum('time')]: the reduction of a float array skips NaN (xarray's
    default [skipna]); over no time step at all it is zero everywhere. *)
Definition sum_time (npix : nat) (a : cube) : list fval :=
  foldl (zip_with fadd) (replicate npix fzero) (fmap (M:=list) (fmap (M:=list) nan_to_zero) a).

Definition processed_data_sum (npix : nat) (no_data : fval) (data : cube) : list fval :=
  sum_time npix (cube_fill (cube_eq no_data data) fzero data).

Definition clean_data_sum (npix : nat) (no_data : fval) (data : cube) : list fval :=
  sum_time npix
    (cube_fill (cube_eq no_data data) fzero
       (cube_fill (cube_ne no_data data) fone data)).

Definition ds_getitem (ds : Dataset) (key : string) : result (list fval) :=
  match assoc key (data_vars ds) with
  | Some v => Ok v
  | None => Raise KeyError
  end.

Definition ds_setitem (ds : Dataset) (key : string) (v : list fval) : Dataset :=
  mkDataset (ds_coords ds) (assoc_set key v (data_vars ds)).

Definition latlon_coords (ds : TimeDataset) : Coords :=
  [("latitude"%string, td_latitude ds); ("longitude"%string, td_longitude ds)].

Definition perform_timeseries_analysis (dataset_in : TimeDataset) (no_data : fval)
  : result Dataset :=
  match td_vars dataset_in with
  | [] => Raise IndexError
  | (key, data) :: _ =>
      let npix := td_npix dataset_in in
      let processed_data_sum := processed_data_sum npix no_data data in
      let clean_data_sum := clean_data_sum npix no_data data in
      let processed_data_normalized := zip_with fdiv processed_data_sum clean_data_sum in
      Ok (mkDataset (latlon_coords dataset_in)
            [("normalized_data"%string, processed_data_normalized);
             ("total_data"%string, processed_data_sum);
             ("total_clean"%string, clean_data_sum)])
  end.

(** [a += b] on two labelled arrays.  xarray does not align the operands of
    an in-place operation: unless [b] is on the grid of [a] it raises
    MergeError, a ValueError (or the ValueError of a changed shape). *)
Definition da_iadd (add : fval → fval → fval) (coords_a : Coords) (a : list fval)
    (coords_b : Coords) (b : list fval) : result (list fval) :=
  if decide (coords_a = coords_b) then Ok (zip_with add a b) else Raise ValueError.

Definition perform_timeseries_analysis_iterative (dataset_in : TimeDataset)
    (intermediate_product : option Dataset) (no_data : fval) : result Dataset :=
  match td_vars dataset_in with
  | [] => Raise IndexError
  | (key, data) :: _ =>
      let npix := td_npix dataset_in in
      let processed_data_sum := processed_data_sum npix no_data data in
      let clean_data_sum := clean_data_sum npix no_data data in
      match intermediate_product with
      | None =>
          let processed_data_normalized := zip_with fdiv processed_data_sum clean_data_sum in
          try normalized ← mask_fill (isnan <$> processed_data_normalized)
                                     processed_data_normalized fzero;
          Ok (mkDataset (latlon_coords dataset_in)
                [("normalized_data"%string, normalized);
                 ("total_data"%string, processed_data_sum);
                 ("total_clean"%string, clean_data_sum)])
      | Some intermediate =>
          let dataset_out := intermediate in
          try total_data ← ds_getitem dataset_out "total_data";
          try total_data ← da_iadd fadd (ds_coords dataset_out) total_data
                                   (latlon_coords dataset_in) processed_data_sum;
          let dataset_out := ds_setitem dataset_out "total_data" total_data in
          try total_clean ← ds_getitem dataset_out "total_clean";
          try total_clean ← da_iadd fadd (ds_coords dataset_out) total_clean
                                    (latlon_coords dataset_in) clean_data_sum;
          let dataset_out := ds_setitem dataset_out "total_clean" total_clean in
          try total_data ← ds_getitem dataset_out "total_data";
          try total_clean ← ds_getitem dataset_out "total_clean";
          let processed_data_normalized := zip_with fdiv total_data total_clean in
          try normalized ← mask_fill (isnan <$> processed_data_normalized)
                                     processed_data_normalized fzero;
          Ok (ds_setitem dataset_out "normalized_data" normalized)
      end
  end.




(** The driver loop: each chunk's result is the next chunk's
    [intermediate_product]. *)
Definition iterate_chunks (parts : list TimeDataset) (no_data : fval)
  : result (option Dataset) :=
  foldl (λ acc part,
           try product ← acc;
           try out ← perform_timeseries_analysis_iterative part product no_data;
           Ok (Some out))
        (Ok None) parts.

(** ** A heap of datasets and array buffers

    [fill_nodata], [max_value], [min_value] and [addition] deep-copy one
    argument and then write into the copy's buffers in place.  A dataset
    object maps each variable name to the location of its buffer. *)

Record dsobj : Type := mkObj {
  o_coords : Coords;
  o_vars : list (string * nat)
}.

Record heap : Type := mkHeap {
  arrays : list (list fval);
  datasets : list dsobj
}.

(** Stateful code: a computation reads and writes a state of type [S] and
    returns or raises; the state at the point of a raise is kept. *)
Definition St (S A : Type) : Type := S → result A * S.

Definition mret {S A} (a : A) : St S A := λ h, (Ok a, h).

Definition mraise {S A} (e : exn) : St S A := λ h, (Raise e, h).

Definition mbind {S A B} (c : St S A) (k : A → St S B) : St S B :=
  λ h, match c h with
       | (Ok a, h') => k a h'
       | (Raise e, h') => (Raise e, h')
       end.

Notation "'do' x ← c ; k" := (mbind c (λ x, k))
  (at level 10, x name, c at level 100, k at level 200,
   format "'[v' 'do'  x  ←  c ; '/' k ']'").

Definition lift {S A} (r : result A) : St S A := λ h, (r, h).

Abbreviation M := (St heap).

Definition get_dataset (r : nat) : M dsobj :=
  λ h, match datasets h !! r with
       | Some o => (Ok o, h)
       | None => (Raise Dangling, h)
       end.

Definition alloc_dataset (o : dsobj) : M nat :=
  λ h, (Ok (length (datasets h)), mkHeap (arrays h) (datasets h ++ [o])).

Definition read_array (l : nat) : M (list fval) :=
  λ h, match arrays h !! l with
       | Some v => (Ok v, h)
       | None => (Raise Dangling, h)
       end.

Definition write_array (l : nat) (v : list fval) : M () :=
  λ h, match arrays h !! l with
       | Some _ => (Ok (), mkHeap (<[l := v]> (arrays h)) (datasets h))
       | None => (Raise Dangling, h)
       end.

Definition alloc_array (v : list fval) : M nat :=
  λ h, (Ok (length (arrays h)), mkHeap (arrays h ++ [v]) (datasets h)).

(** [dataset[key].values] and [dataset.name.values] *)
Definition ds_values (r : nat) (key : string) : M (list fval) :=
  do o ← get_dataset r;
  match assoc key (o_vars o) with
  | Some l => read_array l
  | None => mraise KeyError
  end.

Definition ds_attr_values (r : nat) (name : string) : M (list fval) :=
  do o ← get_dataset r;
  match assoc name (o_vars o) with
  | Some l => read_array l
  | None => mraise AttributeError
  end.

(** An in-place write into the buffer of [dataset[key]]. *)
Definition ds_write (r : nat) (key : string) (v : list fval) : M () :=
  do o ← get_dataset r;
  match assoc key (o_vars o) with
  | Some l => write_array l v
  | None => mraise KeyError
  end.

(** [dataset[key].values = v]: the replacement must have the old shape. *)
Definition ds_set_values (r : nat) (key : string) (v : list fval) : M () :=
  do old ← ds_values r key;
  if decide (length v = length old) then ds_write r key v
  else mraise ValueError.

Fixpoint copy_vars (vars : list (string * nat)) : M (list (string * nat)) :=
  match vars with
  | [] => mret []
  | kl :: vars' =>
      do v ← read_array kl.2;
      do l' ← alloc_array v;
      do rest ← copy_vars vars';
      mret ((kl.1, l') :: rest)
  end.

(** [dataset.copy(deep=True)] *)
Definition copy_deep (r : nat) : M nat :=
  do o ← get_dataset r;
  do vars ← copy_vars (o_vars o);
  alloc_dataset (mkObj (o_coords o) vars).

Fixpoint for_each {A} (l : list A) (body : A → M ()) : M () :=
  match l with
  | [] => mret ()
  | x :: l' => do _ ← body x; for_each l' body
  end.

(** [list(dataset.data_vars)] *)
Definition ds_keys (r : nat) : M (list string) :=
  do o ← get_dataset r;
  mret (fst <$> o_vars o).

(** An element-wise numpy operation on two buffers of one shape. *)
Definition np_zip {A B C} (f : A → B → C) (a : list A) (b : list B) : result (list C) :=
  if decide (length a = length b) then Ok (zip_with f a b) else Raise ValueError.

Definition nodata : fval := flit (-9999) 1.

(** The body of the loop of [fill_nodata]: the right-hand side
    [dataset[key].values[dataset_out[key].values == -9999]] is evaluated
    first, then the masked assignment into [dataset_out[key].values]. *)
Definition fill_nodata_key (dataset dataset_out : nat) (key : string) : M () :=
  do src ← ds_values dataset key;
  do cur ← ds_values dataset_out key;
  do rhs ← lift (mask_select ((λ v, feqb v nodata) <$> cur) src);
  do target ← ds_values dataset_out key;
  do new ← lift (mask_assign ((λ v, feqb v nodata) <$> target) target rhs);
  ds_write dataset_out key new.

Definition fill_nodata (dataset : nat) (dataset_intermediate : option nat) : M nat :=
  match dataset_intermediate with
  | None => copy_deep dataset
  | Some intermediate =>
      do dataset_out ← copy_deep intermediate;
      do keys ← ds_keys dataset_out;
      do _ ← for_each keys (fill_nodata_key dataset dataset_out);
      mret dataset_out
  end.

(** The mask [dataset.ndvi.values ⋈ dataset_out.ndvi.values]. *)
Definition ndvi_mask (cmp : fval → fval → bool) (dataset dataset_out : nat) : M (list bool) :=
  do a ← ds_attr_values dataset "ndvi";
  do b ← ds_attr_values dataset_out "ndvi";
  lift (np_zip cmp a b).

(** The loop shared by [max_value] and [min_value], which differ in the
    comparison only. *)
Definition extreme_value (cmp : fval → fval → bool) (dataset : nat)
    (dataset_intermediate : option nat) : M nat :=
  match dataset_intermediate with
  | None => copy_deep dataset
  | Some intermediate =>
      do dataset_out ← copy_deep intermediate;
      do keys ← ds_keys dataset_out;
      do _ ← for_each keys (λ key,
        do src ← ds_values dataset key;
        do m ← ndvi_mask cmp dataset dataset_out;
        do rhs ← lift (mask_select m src);
        do target ← ds_values dataset_out key;
        do m' ← ndvi_mask cmp dataset dataset_out;
        do new ← lift (mask_assign m' target rhs);
        ds_write dataset_out key new);
      mret dataset_out
  end.

Definition max_value : nat → option nat → M nat := extreme_value (λ a b, fltb b a).

Definition min_value : nat → option nat → M nat := extreme_value (λ a b, fltb a b).

Definition addition (dataset : nat) (dataset_intermediate : option nat) : M nat :=
  match dataset_intermediate with
  | None => copy_deep dataset
  | Some intermediate =>
      do dataset_out ← copy_deep intermediate;
      do _ ← for_each ["total_data"; "total_clean"]%string (λ key,
        do cur ← ds_values dataset_out key;
        do src ← ds_values dataset key;
        do new ← lift (np_zip fadd cur src);
        ds_write dataset_out key new);
      do total_data ← ds_values dataset_out "total_data";
      do total_clean ← ds_values dataset_out "total_clean";
      do normalized ← lift (np_zip fdiv total_data total_clean);
      do _ ← ds_set_values dataset_out "normalized_data" normalized;
      do target ← ds_values dataset_out "normalized_data";
      do new ← lift (mask_fill (isnan <$> target) target fzero);
      do _ ← ds_write dataset_out "normalized_data" new;
      mret dataset_out
  end.

(** The value a dataset reference denotes: its grid and, per variable, the
    contents of the buffer. *)
Definition ds_value (h : heap) (r : nat) : option Dataset :=
  o ← datasets h !! r;
  vars ← mapM (λ kl : string * nat, v ← arrays h !! kl.2; Some (kl.1, v)) (o_vars o);
  Some (mkDataset (o_coords o) vars).

(** A reference whose object and buffers exist, with distinct variable names. *)
Definition valid_ref (h : heap) (r : nat) : Prop :=
  ∃ o, datasets h !! r = Some o
       ∧ NoDup (fst <$> o_vars o)
       ∧ Forall (λ kl, is_Some (arrays h !! kl.2)) (o_vars o).

Definition valid_opt (h : heap) (r : option nat) : Prop :=
  match r with
  | Some r => valid_ref h r
  | None => True
  end.

(** Every object and buffer of [h] is still there in [h'], unchanged. *)
Definition preserved (h h' : heap) : Prop :=
  (∀ l v, arrays h !! l = Some v → arrays h' !! l = Some v)
  ∧ (∀ r o, datasets h !! r = Some o → datasets h' !! r = Some o).

(** [r] was allocated after [h]: the object and all its buffers are new. *)
Definition fresh_in (h h' : heap) (r : nat) : Prop :=
  (length (datasets h) ≤ r)%nat
  ∧ ∃ o, datasets h' !! r = Some o
         ∧ Forall (λ kl, (length (arrays h) ≤ kl.2)%nat) (o_vars o).

(** ** [compute_ndvi_anomaly]

    The two input datasets are held in the state together with the log of
    the accesses made to them, so that what a call has touched when it
    raises can be stated. *)

Inductive access : Set :=
| ReadBaseline
| ReadScene.

Record inputs : Type := mkInputs {
  baseline_data : TimeDataset;
  scene_data : Dataset;
  accesses : list access
}.

Definition read_baseline : St inputs TimeDataset :=
  λ st, (Ok (baseline_data st),
         mkInputs (baseline_data st) (scene_data st) (accesses st ++ [ReadBaseline])).

Definition read_scene : St inputs Dataset :=
  λ st, (Ok (scene_data st),
         mkInputs (baseline_data st) (scene_data st) (accesses st ++ [ReadScene])).

(** An element-wise operation on two cubes of one shape. *)
Definition cube_zip {A B C} (f : A → B → C) (a : list (list A)) (b : list (list B))
  : result (list (list C)) :=
  if decide (Forall2 (λ x y, length x = length y) a b)
  then Ok (zip_with (zip_with f) a b)
  else Raise ValueError.

(** [where(cond)]: keep the value where [cond] holds, NaN elsewhere. *)
Definition where_ (cond : bool) (v : fval) : fval := if cond then v else NaN.

Definition td_attr (ds : TimeDataset) (name : string) : result cube :=
  match assoc name (td_vars ds) with
  | Some c => Ok c
  | None => Raise AttributeError
  end.

Definition td_getitem (ds : TimeDataset) (key : string) : result cube :=
  match assoc key (td_vars ds) with
  | Some c => Ok c
  | None => Raise KeyError
  end.

Definition coord_attr (ds : Dataset) (name : string) : result (list Qc) :=
  match assoc name (ds_coords ds) with
  | Some c => Ok c
  | None => Raise AttributeError
  end.

Fixpoint result_map {A B} (f : A → result B) (l : list A) : result (list B) :=
  match l with
  | [] => Ok []
  | x :: l' => try y ← f x; try ys ← result_map f l'; Ok (y :: ys)
  end.

(** [a.values[~np.isfinite(a.values)] = no_data] *)
Definition nonfinite_to (no_data : fval) (a : list fval) : result (list fval) :=
  mask_fill ((λ v, negb (isfinite v)) <$> a) a no_data.

Section NdviAnomaly.

(** [DataArray.median('time')] of the array library, and [wofs_classify]
    of [dc_water_classifier] (followed by [.wofs]), which are not part of
    these sources. *)
Variable median_time : cube → list fval.
Variable wofs_classify : Dataset → list bool → result (list fval).

Definition compute_ndvi_anomaly
    (baseline_clear_mask : option (list (list bool)))
    (selected_scene_clear_mask : option (list bool))
    (no_data : fval) : St inputs Dataset :=
  (* assert selected_scene_clear_mask is not None and baseline_clear_mask is not None *)
  match selected_scene_clear_mask, baseline_clear_mask with
  | Some scene_mask, Some baseline_mask =>
      (* baseline_data.where((baseline_data != no_data) & baseline_clear_mask) *)
      do baseline ← read_baseline;
      do baseline_cmp ← read_baseline;
      do baseline_vars ← lift (result_map (λ kv : string * cube,
           try compared ← td_getitem baseline_cmp kv.1;
           try cond ← cube_zip (λ v (m : bool), negb (feqb v no_data) && m)
                               compared baseline_mask;
           try c ← cube_zip where_ cond kv.2;
           Ok (kv.1, c)) (td_vars baseline));
      let baseline := mkTimeDataset (td_time baseline) (td_latitude baseline)
                                    (td_longitude baseline) baseline_vars in
      (* baseline_ndvi, median_ndvi *)
      do nir ← lift (td_attr baseline "nir");
      do red ← lift (td_attr baseline "red");
      do nir2 ← lift (td_attr baseline "nir");
      do red2 ← lift (td_attr baseline "red");
      do num ← lift (cube_zip fsub nir red);
      do den ← lift (cube_zip fadd nir2 red2);
      do baseline_ndvi ← lift (cube_zip fdiv num den);
      let median_ndvi := median_time baseline_ndvi in
      (* water_class = wofs_classify(scene_data, clean_mask=..., mosaic=True).wofs *)
      do scene ← read_scene;
      do water_class ← lift (wofs_classify scene scene_mask);
      (* scene_data.copy(deep=True).where((scene_data != no_data) & (water_class == 0)) *)
      do scene_copy ← read_scene;
      do scene_cmp ← read_scene;
      do cleaned_vars ← lift (result_map (λ kv : string * list fval,
           try compared ← ds_getitem scene_cmp kv.1;
           try cond ← np_zip (λ v w, negb (feqb v no_data) && feqb w fzero)
                             compared water_class;
           try c ← np_zip where_ cond kv.2;
           Ok (kv.1, c)) (data_vars scene_copy));
      let scene_cleaned := mkDataset (ds_coords scene_copy) cleaned_vars in
      (* scene_ndvi, ndvi_difference, ndvi_percentage_change *)
      do snir ← lift (ds_attr scene_cleaned "nir");
      do sred ← lift (ds_attr scene_cleaned "red");
      do snir2 ← lift (ds_attr scene_cleaned "nir");
      do sred2 ← lift (ds_attr scene_cleaned "red");
      let scene_ndvi :=
        da_values (da_zip fdiv (da_zip fsub snir sred) (da_zip fadd snir2 sred2)) in
      do ndvi_difference ← lift (np_zip fsub scene_ndvi median_ndvi);
      do change ← lift (np_zip fsub scene_ndvi median_ndvi);
      do ndvi_percentage_change ← lift (np_zip fdiv change median_ndvi);
      (* convert to conventional nodata vals. *)
      do scene_ndvi ← lift (nonfinite_to no_data scene_ndvi);
      do ndvi_difference ← lift (nonfinite_to no_data ndvi_difference);
      do ndvi_percentage_change ← lift (nonfinite_to no_data ndvi_percentage_change);
      (* coords={'latitude': scene_data.latitude, 'longitude': scene_data.longitude} *)
      do scene_lat ← read_scene;
      do latitude ← lift (coord_attr scene_lat "latitude");
      do scene_lon ← read_scene;
      do longitude ← lift (coord_attr scene_lon "longitude");
      mret (mkDataset [("latitude"%string, latitude); ("longitude"%string, longitude)]
              [("scene_ndvi"%string, scene_ndvi);
               ("baseline_ndvi"%string, median_ndvi);
               ("ndvi_difference"%string, ndvi_difference);
               ("ndvi_percentage_change"%string, ndvi_percentage_change)])
  | _, _ => mraise AssertionError
  end.

End NdviAnomaly.

(** ** [DataAccessApi.get_scene_metadata] *)

(** What the code reads of the dataset that [Datacube.load] returns. *)
Record LoadedDataset : Type := mkLoaded {
  ld_data_vars : list string;
  ld_envelope : Qc * Qc * Qc * Qc;   (* lon_min, lat_min, lon_max, lat_max *)
  ld_shape : nat * nat;
  ld_time : list Z                   (* milliseconds *)
}.

Inductive qval : Type :=
| QStr (s : string)
| QExtent (e : extent)
| QTime (t : Z * Z).

(** Python values of the metadata dictionary. *)
#[local] Unset Elimination Schemes.
Inductive pyval : Type :=
| PyInt (n : Z)
| PyFloat (q : Qc)
| PyTime (ms : Z)
| PyTuple (a b : pyval)
| PyDict (items : list (string * pyval)).
#[local] Set Elimination Schemes.

Definition opt_item {A} (key : string) (f : A → qval) (o : option A)
  : list (string * qval) :=
  match o with
  | Some a => [(key, f a)]
  | None => []
  end.

Section DataAccessApi.

(** [self.dc.load(product=..., measurements=..., output_crs=...,
    resolution=..., dask_chunks=..., **query)] *)
Variable dc_load :
  string → option (list string) → option string → option extent →
  option (list (string * nat)) → list (string * qval) → result LoadedDataset.

Definition get_dataset_by_extent (product : string) (product_type platform : option string)
    (time : option (Z * Z)) (longitude latitude : option extent)
    (measurements : option (list string)) (output_crs : option string)
    (resolution : option extent) (crs : option string)
    (dask_chunks : option (list (string * nat))) : result LoadedDataset :=
  let query :=
    opt_item "product_type" QStr product_type
    ++ opt_item "platform" QStr platform
    ++ opt_item "time" QTime time
    ++ match longitude, latitude with
       | Some lon, Some lat =>
           [("longitude"%string, QExtent lon); ("latitude"%string, QExtent lat)]
       | _, _ => []
       end
    ++ opt_item "crs" QStr crs in
  dc_load product measurements output_crs resolution dask_chunks query.

Definition get_scene_metadata (platform product : string)
    (longitude latitude : option extent) (crs : option string) (time : option (Z * Z))
  : result (list (string * pyval)) :=
  try dataset ← get_dataset_by_extent product None (Some platform) time longitude latitude
                                      None None None crs (Some []);
  match ld_data_vars dataset with
  | [] =>
      Ok [("lat_extents"%string, PyTuple (PyInt 0) (PyInt 0));
          ("lon_extents"%string, PyTuple (PyInt 0) (PyInt 0));
          ("time_extents"%string, PyTuple (PyInt 0) (PyInt 0));
          ("scene_count"%string, PyInt 0);
          ("pixel_count"%string, PyInt 0);
          ("tile_count"%string, PyInt 0);
          ("storage_units"%string, PyDict [])]
  | _ :: _ =>
      let '(lon_min, lat_min, lon_max, lat_max) := ld_envelope dataset in
      match head (ld_time dataset), last (ld_time dataset) with
      | Some first, Some final =>
          Ok [("lat_extents"%string, PyTuple (PyFloat lat_min) (PyFloat lat_max));
              ("lon_extents"%string, PyTuple (PyFloat lon_min) (PyFloat lon_max));
              ("time_extents"%string, PyTuple (PyTime first) (PyTime final));
              ("scene_count"%string, PyInt (Z.of_nat (length (ld_time dataset))));
              ("pixel_count"%string,
               PyInt (Z.of_nat ((ld_shape dataset).1 * (ld_shape dataset).2)))]
      | _, _ => Raise IndexError
      end
  end.

(** [dataset.time.values.astype('M8[ms]').tolist()], or [[]] for a dataset
    without data variables. *)
Definition list_acquisition_dates (platform product : string)
    (longitude latitude : option extent) (crs : option string) (time : option (Z * Z))
  : result (list Z) :=
  try dataset ← get_dataset_by_extent product None (Some platform) time longitude latitude
                                      None None None crs (Some []);
  match ld_data_vars dataset with
  | [] => Ok []
  | _ :: _ => Ok (ld_time dataset)
  end.

Definition get_datacube_metadata (platform product : string)
  : result (list (string * pyval)) :=
  get_scene_metadata platform product None None None None.

End DataAccessApi.

(** ** [generate_time_ranges] *)

(** [l[i]] for an integer [i]: a negative index counts from the end, an
    index outside the list raises IndexError. *)
Definition py_getitem {A} (l : list A) (i : Z) : result A :=
  let len := Z.of_nat (length l) in
  let j := if decide (i < 0) then len + i else i in
  if decide (0 ≤ j < len) then
    match l !! Z.to_nat j with
    | Some a => Ok a
    | None => Raise IndexError
    end
  else Raise IndexError.

(** [datetime.timedelta(seconds=1)]: timestamps count microseconds, the
    resolution of [datetime]. *)
Definition one_second : Z := 1000000.

(** [tuple(sorted((start, end)))]. *)
Definition sorted_pair (start end_ : Z) : Z * Z :=
  match sorted [start; end_] with
  | [a; b] => (a, b)
  | _ => (start, end_)
  end.

(** How far a generator has come: exhausted, stopped by an exception, or
    still able to yield when the consumer stopped asking. *)
Inductive gen_state : Type :=
  | Exhausted
  | Failed (e : exn)
  | Suspended.

(** The body of the [while] loop up to the [yield]. *)
Definition time_range_at (acquisition_list : list Z) (reverse_time : bool)
    (slices_per_iteration : option Z) (time_index : Z) : result (Z * Z) :=
  let len := Z.of_nat (length acquisition_list) in
  try first ← py_getitem acquisition_list time_index;
  let start := if reverse_time then first + one_second else first in
  try end_ ←
    match slices_per_iteration with
    | Some s =>
        if decide (time_index + s - 1 < len)
        then py_getitem acquisition_list (time_index + s - 1)
        else
          try last ← py_getitem acquisition_list (-1);
          Ok (if reverse_time then last else last + one_second)
    | None =>
        try last ← py_getitem acquisition_list (-1);
        Ok (if reverse_time then last else last + one_second)
    end;
  Ok (sorted_pair start end_).

(** The generator resumed [demand] times from the loop state
    [time_index]: the ranges it yields, in order, and how it stands
    afterwards. *)
Fixpoint generate_time_ranges_from (demand : nat) (acquisition_list : list Z)
    (reverse_time : bool) (slices_per_iteration : option Z) (time_index : Z)
  : list (Z * Z) * gen_state :=
  match demand with
  | O => ([], Suspended)
  | S demand' =>
      if decide (time_index < Z.of_nat (length acquisition_list)) then
        match time_range_at acquisition_list reverse_time slices_per_iteration
                            time_index with
        | Raise e => ([], Failed e)
        | Ok time_range =>
            let step := match slices_per_iteration with
                        | Some s => s
                        | None => Z.of_nat (length acquisition_list)
                        end in
            let '(rest, state) :=
              generate_time_ranges_from demand' acquisition_list reverse_time
                slices_per_iteration (time_index + step) in
            (time_range :: rest, state)
        end
      else ([], Exhausted)
  end.

Definition generate_time_ranges (demand : nat) (acquisition_list : list Z)
    (reverse_time : bool) (slices_per_iteration : option Z)
  : list (Z * Z) * gen_state :=
  generate_time_ranges_from demand acquisition_list reverse_time slices_per_iteration 0.

(** ** [split_task] and the aggregation in float64 arithmetic

    Where the result of a function hangs on the rounding of its float
    operations, the function is embedded a second time, with every float
    operation rounded to the nearest float64.  The arguments are float64
    values; a Python integer that meets a float is converted first. *)

Module Float64.

(** [a / b] on Python integers: the float64 nearest to the quotient. *)
Definition int_truediv (a b : Z) : result fval :=
  if decide (b = 0) then Raise ZeroDivisionError
  else
    match round64 (Q2Qc (inject_Z a) / Q2Qc (inject_Z b))%Qc with
    | Fin q => Ok (Fin q)
    | _ => Raise OverflowError
    end.

(** [x / y] on Python floats. *)
Definition float_truediv (x y : fval) : result fval :=
  if feqb y fzero then Raise ZeroDivisionError else Ok (fdiv64 x y).

(** [float(z)], as Python converts an integer operand of a float operation. *)
Definition int_to_float (z : Z) : result fval :=
  match float_of_int z with
  | Fin q => Ok (Fin q)
  | _ => Raise OverflowError
  end.

(** [math.ceil(x)] *)
Definition math_ceil (x : fval) : result Z :=
  match x with
  | Fin q => Ok (Qcceil q)
  | NaN => Raise ValueError
  | PInf | NInf => Raise OverflowError
  end.

Abbreviation extent := (fval * fval)%type.

(** Lines 82-105 of [split_task]: the geographic ranges. *)
Definition split_task_geo (resolution : fval) (latitude longitude : option extent)
    (geo_chunk_size : option fval)
  : result (list (option extent) * list (option extent)) :=
  match longitude, latitude with
  | Some lon, Some lat =>
      let square_area := fmul64 (fsub64 lon.2 lon.1) (fsub64 lat.2 lat.1) in
      match geo_chunk_size with
      | Some gcs =>
          if fltb gcs square_area then
            try q ← float_truediv square_area gcs;
            try geographic_chunks ← math_ceil q;
            try divisor ← int_to_float geographic_chunks;
            try lat_range_size ← float_truediv (fsub64 lat.2 lat.1) divisor;
            try n ← float_truediv (fsub64 lat.2 lat.1) lat_range_size;
            try stop ← math_ceil n;
            try idx ← py_range 0 stop 1;
            try lat_ranges ← result_map (λ i,
                 try fi ← int_to_float i;
                 let lower_lat := fadd64 lat.1 (fmul64 fi lat_range_size) in
                 try fi' ← int_to_float (i + 1);
                 let upper_lat := fadd64 lat.1 (fmul64 fi' lat_range_size) in
                 Ok (Some (lower_lat,
                           if decide (i ≠ geographic_chunks - 1)
                           then fsub64 upper_lat resolution else upper_lat))) idx;
            Ok (lat_ranges, (λ _, Some lon) <$> idx)
          else Ok ([Some lat], [Some lon])
      | None => Ok ([Some lat], [Some lon])
      end
  | _, _ => Raise TypeError
  end.

(** The chunk size computed on line 110: [math.ceil(len(...) / time_chunks)]. *)
Definition time_chunk_size (acquisitions : list Z) (tc : Z) : result Z :=
  try q ← int_truediv (Z.of_nat (length (sorted acquisitions))) tc;
  math_ceil q.

(** Lines 107-112 of [split_task]: the time ranges. *)
Definition split_task_time (acquisitions : list Z) (time_chunks : option Z)
    (reverse_time : bool) : result (list (list Z)) :=
  match time_chunks with
  | None => Ok [ordered_acquisitions acquisitions reverse_time]
  | Some tc =>
      try time_chunk_size ← time_chunk_size acquisitions tc;
      chunks (ordered_acquisitions acquisitions reverse_time) time_chunk_size
  end.

Definition split_task (resolution : fval) (latitude longitude : option extent)
    (acquisitions : list Z) (geo_chunk_size : option fval) (time_chunks : option Z)
    (reverse_time : bool)
  : result (list (option extent) * list (option extent) * list (list Z)) :=
  try '(lat_ranges, lon_ranges) ← split_task_geo resolution latitude longitude geo_chunk_size;
  try time_ranges ← split_task_time acquisitions time_chunks reverse_time;
  Ok (lat_ranges, lon_ranges, time_ranges).

(** [a.sum('time')], one time step after the other. *)
Definition sum_time (npix : nat) (a : cube) : list fval :=
  foldl (zip_with fadd64) (replicate npix fzero)
        (fmap (M:=list) (fmap (M:=list) nan_to_zero) a).

Definition processed_data_sum (npix : nat) (no_data : fval) (data : cube) : list fval :=
  sum_time npix (cube_fill (cube_eq no_data data) fzero data).

Definition clean_data_sum (npix : nat) (no_data : fval) (data : cube) : list fval :=
  sum_time npix
    (cube_fill (cube_eq no_data data) fzero
       (cube_fill (cube_ne no_data data) fone data)).

Definition perform_timeseries_analysis (dataset_in : TimeDataset) (no_data : fval)
  : result Dataset :=
  match td_vars dataset_in with
  | [] => Raise IndexError
  | (key, data) :: _ =>
      let npix := td_npix dataset_in in
      let processed_data_sum := processed_data_sum npix no_data data in
      let clean_data_sum := clean_data_sum npix no_data data in
      let processed_data_normalized := zip_with fdiv64 processed_data_sum clean_data_sum in
      Ok (mkDataset (latlon_coords dataset_in)
            [("normalized_data"%string, processed_data_normalized);
             ("total_data"%string, processed_data_sum);
             ("total_clean"%string, clean_data_sum)])
  end.

Definition perform_timeseries_analysis_iterative (dataset_in : TimeDataset)
    (intermediate_product : option Dataset) (no_data : fval) : result Dataset :=
  match td_vars dataset_in with
  | [] => Raise IndexError
  | (key, data) :: _ =>
      let npix := td_npix dataset_in in
      let processed_data_sum := processed_data_sum npix no_data data in
      let clean_data_sum := clean_data_sum npix no_data data in
      match intermediate_product with
      | None =>
          let processed_data_normalized := zip_with fdiv64 processed_data_sum clean_data_sum in
          try normalized ← mask_fill (isnan <$> processed_data_normalized)
                                     processed_data_normalized fzero;
          Ok (mkDataset (latlon_coords dataset_in)
                [("normalized_data"%string, normalized);
                 ("total_data"%string, processed_data_sum);
                 ("total_clean"%string, clean_data_sum)])
      | Some intermediate =>
          let dataset_out := intermediate in
          try total_data ← ds_getitem dataset_out "total_data";
          try total_data ← da_iadd fadd64 (ds_coords dataset_out) total_data
                                   (latlon_coords dataset_in) processed_data_sum;
          let dataset_out := ds_setitem dataset_out "total_data" total_data in
          try total_clean ← ds_getitem dataset_out "total_clean";
          try total_clean ← da_iadd fadd64 (ds_coords dataset_out) total_clean
                                    (latlon_coords dataset_in) clean_data_sum;
          let dataset_out := ds_setitem dataset_out "total_clean" total_clean in
          try total_data ← ds_getitem dataset_out "total_data";
          try total_clean ← ds_getitem dataset_out "total_clean";
          let processed_data_normalized := zip_with fdiv64 total_data total_clean in
          try normalized ← mask_fill (isnan <$> processed_data_normalized)
                                     processed_data_normalized fzero;
          Ok (ds_setitem dataset_out "normalized_data" normalized)
      end
  end.

(** The driver loop: each chunk's result is the next chunk's
    [intermediate_product]. *)
Definition iterate_chunks (parts : list TimeDataset) (no_data : fval)
  : result (option Dataset) :=
  foldl (λ acc part,
           try product ← acc;
           try out ← perform_timeseries_analysis_iterative part product no_data;
           Ok (Some out))
        (Ok None) parts.

End Float64.

(** ** Vocabulary of the statements

    Nothing below is part of the Python code: these are the element-wise
    readings, predicates and example inputs that the properties are stated
    with. *)

(** *** [EVI], one value at a time *)

Definition EVI_clamp_value (x : fval) : fval :=
  let x1 := if fltb x (flit (-1) 1) then flit (-1) 1 else x in
  if fltb (Fin q2_5) x1 then Fin q2_5 else x1.

Definition EVI_normalize_value (c : fval) : fval :=
  if fltb fzero c then np_interp (0%Qc, q2_5) (0%Qc, 1%Qc) c else c.

(** *** Which exception a computation can raise, and what it touches *)

Definition never_asserts {A} (r : result A) : Prop := r ≠ Raise AssertionError.

Definition st_never_asserts {S A} (c : St S A) : Prop :=
  ∀ st, never_asserts (c st).1.

(** The computation leaves both input datasets as they were. *)
Definition keeps_inputs {A} (c : St inputs A) : Prop :=
  ∀ st, baseline_data (c st).2 = baseline_data st
        ∧ scene_data (c st).2 = scene_data st.

(** *** The aggregation product *)

(** The product dataset that holds the running totals [total_data] and
    [total_clean], with the NaN-free quotient. *)
Definition product_of (coords : Coords) (total_data total_clean : list fval) : Dataset :=
  mkDataset coords
    [("normalized_data"%string, nan_to_zero <$> zip_with fdiv total_data total_clean);
     ("total_data"%string, total_data);
     ("total_clean"%string, total_clean)].

(** *** The frame of the reducers *)

(** The contents of variable [key] of the dataset at [r]. *)
Definition ds_var (h : heap) (r : nat) (key : string) : option (list fval) :=
  o ← datasets h !! r;
  l ← assoc key (o_vars o);
  arrays h !! l.

(** The state inside a reducer once the copy exists: [out] is an object
    whose buffers were all allocated at or after [n0]. *)
Definition copy_above (n0 out : nat) (h : heap) : Prop :=
  ∃ o, datasets h !! out = Some o ∧ Forall (λ kl, (n0 ≤ kl.2)%nat) (o_vars o).

(** A step that allocates nothing and writes at most into buffers
    at or after [n0]. *)
Definition writes_above (n0 out : nat) {A} (c : M A) : Prop :=
  ∀ h, copy_above n0 out h →
       datasets (c h).2 = datasets h
       ∧ ∀ l, (l < n0)%nat → arrays (c h).2 !! l = arrays h !! l.

(** A computation that can only return [out]. *)
Definition returns_only {A} (out : A) (c : M A) : Prop :=
  ∀ h res h', c h = (res, h') → ∀ o, res = Ok o → o = out.

(** What the four reducers promise about the heap: everything that was
    there before the call is unchanged, whether the call returns or raises,
    and a returned dataset is a new object on new buffers; so the arguments
    denote the values they denoted before and differ from the result. *)
Definition leaves_arguments_alone (reducer : nat → option nat → M nat) : Prop :=
  ∀ (h : heap) (dataset : nat) (dataset_intermediate : option nat),
    let res := (reducer dataset dataset_intermediate h).1 in
    let h' := (reducer dataset dataset_intermediate h).2 in
    preserved h h'
    ∧ (∀ out, res = Ok out → fresh_in h h' out)
    ∧ (valid_ref h dataset → valid_opt h dataset_intermediate →
         ds_value h' dataset = ds_value h dataset
         ∧ is_Some (ds_value h dataset)
         ∧ (∀ r, dataset_intermediate = Some r →
              ds_value h' r = ds_value h r ∧ is_Some (ds_value h r))
         ∧ ∀ out, res = Ok out → out ≠ dataset ∧ dataset_intermediate ≠ Some out).

(** *** The result of [fill_nodata] *)

(** One pixel: the intermediate value unless it is the nodata sentinel. *)
Definition fill_value (intermediate current : fval) : fval :=
  if feqb intermediate nodata then current else intermediate.

(** One variable. *)
Definition fill_array (intermediate current : list fval) : list fval :=
  zip_with fill_value intermediate current.

(** [dataset] has every variable of [intermediate], with the same shape. *)
Definition aligned (h : heap) (dataset intermediate : nat) : Prop :=
  valid_ref h intermediate
  ∧ ∀ key cur, ds_var h intermediate key = Some cur →
      ∃ src, ds_var h dataset key = Some src ∧ length src = length cur.

(** The variable table of a deep copy: the old names on the buffers
    [n0, n0 + 1, ...]. *)
Definition copied_vars (n0 : nat) (vars : list (string * nat)) : list (string * nat) :=
  zip vars.*1 (seq n0 (length vars)).

(** *** Example inputs *)

(** A datacube in which every query loads [ds]. *)
Definition load_const (ds : LoadedDataset) :
    string → option (list string) → option string → option extent →
    option (list (string * nat)) → list (string * qval) → result LoadedDataset :=
  λ _ _ _ _ _ _, Ok ds.

Definition example_scene : LoadedDataset :=
  mkLoaded ["red"%string] (0%Qc, 0%Qc, 1%Qc, 1%Qc) (2%nat, 3%nat) [10; 20; 30].

Definition example_baseline : TimeDataset :=
  mkTimeDataset [0%Qc] [0%Qc] [0%Qc]
    [("nir"%string, [[flit 3 1]]); ("red"%string, [[flit 1 1]])].

Definition example_scene_data : Dataset :=
  mkDataset [("latitude"%string, [0%Qc]); ("longitude"%string, [0%Qc])]
    [("nir"%string, [flit 4 1]); ("red"%string, [flit 1 1])].

(** Three time steps on a grid of two pixels. *)
Definition example_series : TimeDataset :=
  mkTimeDataset [0%Qc; 1%Qc; Q2Qc 2] [0%Qc] [0%Qc; 1%Qc]
    [("x"%string, [[flit 3 1; nodata]; [flit 4 1; nodata]; [nodata; flit 5 1]])].

(** One pixel that sees both infinities. *)
Definition example_inf_series : TimeDataset :=
  mkTimeDataset [0%Qc; 1%Qc] [0%Qc] [0%Qc] [("x"%string, [[PInf]; [NInf]])].

(** Two mosaics on one grid, with a nodata hole in the second. *)
Definition example_heap : heap :=
  mkHeap [[flit 1 1; flit 2 1]; [nodata; flit 7 1]]
         [mkObj [("x"%string, [0%Qc; 1%Qc])] [("red"%string, 0%nat)];
          mkObj [("x"%string, [0%Qc; 1%Qc])] [("red"%string, 1%nat)]].

(** *** Pixels of the aggregation product *)

(** The value of variable [name] at the flat pixel index [p]. *)
Definition pixel (ds : Dataset) (name : string) (p : nat) : option fval :=
  v ← assoc name (data_vars ds); v !! p.

(** How many time steps of [data] hold something else than [no_data] at
    pixel [p]. *)
Definition clean_observations (no_data : fval) (data : cube) (p : nat) : nat :=
  count_true ((λ g : list fval,
                 match g !! p with
                 | Some v => negb (feqb v no_data)
                 | None => false
                 end) <$> data).

(** A count as the float it is stored as. *)
Definition fcount (n : nat) : fval := Fin (Q2Qc (inject_Z (Z.of_nat n))).

(** What each time step contributes to 'total_data' at pixel [p]: nothing
    for [no_data] and for NaN, the value otherwise. *)
Definition observed_values (no_data : fval) (data : cube) (p : nat) : list fval :=
  (λ g : list fval,
     match g !! p with
     | Some v => if feqb v no_data then fzero else nan_to_zero v
     | None => fzero
     end) <$> data.

(** *** The conventional nodata of [compute_ndvi_anomaly] *)


(** *** The heap inside a reducer *)

(** The heap once the object [o] of [h] has been deep-copied: the copy is
    the newest object and its buffers, above those of [h], hold [bufs]. *)
Definition copy_heap (h : heap) (o : dsobj) (bufs : list (list fval)) : heap :=
  mkHeap (arrays h ++ bufs)
         (datasets h ++ [mkObj (o_coords o) (copied_vars (length (arrays h)) (o_vars o))]).

(** One pixel of [a[mask] = b[mask]] for the mask [x ⋈ y]. *)
Definition pick_value (cmp : fval → fval → bool) (x y new old : fval) : fval :=
  if cmp x y then new else old.

(** One variable of [old[x ⋈ y] = new[x ⋈ y]], as the masked selection and
    assignment compute it. *)
Definition pick_array (cmp : fval → fval → bool) (x y new old : list fval) : list fval :=
  zip_with (λ (k : bool * fval) v, if k.1 then k.2 else v) (zip (zip_with cmp x y) new) old.

(** The product of [example_series] aggregated on its own, and a product
    of running totals on the same grid. *)
Definition example_chunk_totals : list fval * list fval :=
  (processed_data_sum 2 nodata [[flit 3 1; nodata]; [flit 4 1; nodata]; [nodata; flit 5 1]],
   clean_data_sum 2 nodata [[flit 3 1; nodata]; [flit 4 1; nodata]; [nodata; flit 5 1]]).

Definition example_running_totals : list fval * list fval :=
  ([flit 10 1; fzero], [flit 2 1; fzero]).

Definition example_totals_heap : heap :=
  mkHeap [nan_to_zero <$> zip_with fdiv example_chunk_totals.1 example_chunk_totals.2;
          example_chunk_totals.1;
          example_chunk_totals.2;
          nan_to_zero <$> zip_with fdiv example_running_totals.1 example_running_totals.2;
          example_running_totals.1;
          example_running_totals.2]
         [mkObj (latlon_coords example_series)
                [("normalized_data"%string, 0%nat); ("total_data"%string, 1%nat);
                 ("total_clean"%string, 2%nat)];
          mkObj (latlon_coords example_series)
                [("normalized_data"%string, 3%nat); ("total_data"%string, 4%nat);
                 ("total_clean"%string, 5%nat)]].

(** Two mosaics with an 'ndvi' variable between two bands: the first
    dataset has the higher 'ndvi' at pixel 0 only. *)
Definition example_ndvi_heap : heap :=
  mkHeap [[flit 1 1; flit 2 1]; [flit 3 4; flit 1 4]; [flit 5 1; flit 6 1];
          [flit 7 1; flit 8 1]; [flit 1 2; flit 1 2]; [flit 9 1; flit 10 1]]
         [mkObj [("x"%string, [0%Qc; 1%Qc])]
                [("red"%string, 0%nat); ("ndvi"%string, 1%nat); ("nir"%string, 2%nat)];
          mkObj [("x"%string, [0%Qc; 1%Qc])]
                [("red"%string, 3%nat); ("ndvi"%string, 4%nat); ("nir"%string, 5%nat)]].

(** *** Bands on the grid of their dataset *)



(** Two Landsat pixels whose sum does not fit int16, and a uint16 pixel
    with more red than near infrared. *)
Definition example_int16_bands : BandDataset :=
  mkBandDataset [("x"%string, [0%Qc])]
    [("nir"%string, IntBand int16 [30000]); ("red"%string, IntBand int16 [10000])].

Definition example_uint16_bands : BandDataset :=
  mkBandDataset [("x"%string, [0%Qc])]
    [("nir"%string, IntBand uint16 [1]); ("red"%string, IntBand uint16 [2])].

(** *** Totals in float64 *)

(** A float that holds an integer of magnitude at most [B], as every value
    of an integer band does after [astype('float')]. *)
Definition whole (B : Z) (v : fval) : Prop := ∃ z : Z, Z.abs z ≤ B ∧ v = flit z 1.

(** Such a value, or NaN. *)
Definition whole_or_nan (B : Z) (v : fval) : Prop := v = NaN ∨ whole B v.

(** The product dataset of running totals, with the quotient taken in
    float64. *)
Definition float64_product_of (coords : Coords) (total_data total_clean : list fval)
  : Dataset :=
  mkDataset coords
    [("normalized_data"%string, nan_to_zero <$> zip_with fdiv64 total_data total_clean);
     ("total_data"%string, total_data);
     ("total_clean"%string, total_clean)].

(** One pixel whose first value is so large that adding 1 to it is lost. *)
Definition example_rounding_series : TimeDataset :=
  mkTimeDataset [0%Qc; 1%Qc; Q2Qc 2] [0%Qc] [0%Qc]
    [("x"%string, [[flit (2 ^ 53) 1]; [fone]; [fone]])].

(** * Properties *)

(** ** The clean mask *)

Lemma np_reshape_wf {A} (a : ndarray A) (shp : list nat) :
  length (flat a) = np_size shp → np_reshape a shp = Ok (NdArray shp (flat a)).
Proof. intros Hlen. unfold np_reshape. by rewrite decide_True. Qed.

Lemma in1d_invert_spec (v no_data : Z) :
  xorb true (bool_decide (v ∈ [2; 3; 4; 255; no_data])) = true
  ↔ v ≠ 2 ∧ v ≠ 3 ∧ v ≠ 4 ∧ v ≠ 255 ∧ v ≠ no_data.
Proof.
  rewrite xorb_true_l, negb_true_iff, bool_decide_eq_false.
  rewrite !not_elem_of_cons. split.
  - intros (? & ? & ? & ? & ? & _). done.
  - intros (? & ? & ? & ? & ?). repeat split; try done. apply not_elem_of_nil.
Qed.

Example clean_mask_of_all_codes :
  create_cfmask_clean_mask (NdArray [2; 4]%nat [0; 1; 2; 3; 4; 255; -9999; 7]) (-9999)
  = Ok (NdArray [2; 4]%nat [true; true; false; false; false; false; false; true]).
Proof. reflexivity. Qed.

(** C8.  For a cfmask array (whose buffer has the size its shape announces)
    and any no_data value, [create_cfmask_clean_mask] returns a boolean array
    of the same shape that is True at exactly the pixels whose value is none
    of 2, 3, 4, 255 and no_data; over the documented cfmask codes (and
    no_data) this leaves only clear (0) and water (1) pixels. *)
Theorem create_cfmask_clean_mask_correct (cfmask : ndarray Z) (no_data : Z) :
  ndarray_wf cfmask →
  ∃ clean_mask,
    create_cfmask_clean_mask cfmask no_data = Ok clean_mask
    ∧ shape clean_mask = shape cfmask
    ∧ length (flat clean_mask) = length (flat cfmask)
    ∧ ∀ (i : nat) (v : Z), flat cfmask !! i = Some v →
        ∃ b : bool,
          flat clean_mask !! i = Some b
          ∧ (b = true ↔ v ≠ 2 ∧ v ≠ 3 ∧ v ≠ 4 ∧ v ≠ 255 ∧ v ≠ no_data)
          ∧ (v ∈ [0; 1; 2; 3; 4; 255; no_data] → b = true → v = 0 ∨ v = 1).
Proof.
  intros Hwf. unfold create_cfmask_clean_mask.
  rewrite np_reshape_wf by (simpl; by rewrite length_fmap).
  eexists. split; [done|]. simpl. split; [done|].
  split; [by rewrite length_fmap|].
  intros i v Hv. eexists. split.
  - rewrite list_lookup_fmap, Hv. done.
  - split; [apply in1d_invert_spec|].
    intros Hdom Hb. apply in1d_invert_spec in Hb as (? & ? & ? & ? & ?).
    rewrite !elem_of_cons in Hdom.
    destruct Hdom as [?|[?|[?|[?|[?|[?|[?|Hnil]]]]]]]; try done; auto.
    by apply elem_of_nil in Hnil.
Qed.

Lemma create_cfmask_clean_mask_correct_witness :
  ∃ clean_mask,
    create_cfmask_clean_mask (NdArray [2; 3]%nat [0; 1; 2; 3; -9999; 255]) (-9999)
      = Ok clean_mask
    ∧ shape clean_mask = [2; 3]%nat
    ∧ flat clean_mask = [true; true; false; false; false; false].
Proof.
  destruct (create_cfmask_clean_mask_correct
              (NdArray [2; 3]%nat [0; 1; 2; 3; -9999; 255]) (-9999) eq_refl)
    as (m & Hm & Hshape & _).
  exists m. split; [exact Hm|]. split; [exact Hshape|].
  vm_compute in Hm. by injection Hm as <-.
Defined.

(** ** Chunking *)

Lemma ceil_div_bounds (a b : Z) : 0 < b → a ≤ b * ceil_div a b < a + b.
Proof.
  intros Hb. unfold ceil_div.
  pose proof (Z.div_mod (- a) b ltac:(lia)) as Hdm.
  pose proof (Z.mod_pos_bound (- a) b Hb) as Hmod.
  lia.
Qed.


Lemma ceil_div_zero (b : Z) : b ≠ 0 → ceil_div 0 b = 0.
Proof. intros Hb. unfold ceil_div. simpl. by rewrite Z.div_0_l. Qed.

Lemma py_slice_chunk {A} (l : list A) (j n : nat) :
  (0 < n)%nat → (j * n < length l)%nat →
  py_slice l (0 + Z.of_nat j * Z.of_nat n) (0 + Z.of_nat j * Z.of_nat n + Z.of_nat n)
  = take n (drop (j * n) l).
Proof.
  intros Hn Hj. rewrite <- Nat2Z.inj_mul. generalize dependent (j * n)%nat.
  intros i Hi. unfold py_slice, slice_bound.
  rewrite !decide_False by lia.
  replace (Z.to_nat ((0 + Z.of_nat i) `min` Z.of_nat (length l))) with i by lia.
  destruct (decide (i + n ≤ length l)%nat) as [Hle|Hgt].
  - f_equal. lia.
  - rewrite !take_ge; [done | rewrite length_drop; lia | rewrite length_drop; lia].
Qed.

Lemma concat_take_drop_seq {A} (l : list A) (n c : nat) :
  concat ((λ j : nat, take n (drop (j * n) l)) <$> seq 0 c) = take (c * n) l.
Proof.
  induction c as [|c IH].
  - done.
  - rewrite seq_S, fmap_app, concat_app, IH. simpl. rewrite app_nil_r.
    rewrite take_take_drop. f_equal. lia.
Qed.

(** What [chunks] yields for a positive chunk size: consecutive runs of [n]
    elements, the last one possibly shorter. *)
Lemma chunks_pos {A} (l : list A) (n : Z) :
  0 < n →
  chunks l n
  = Ok ((λ j : nat, take (Z.to_nat n) (drop (j * Z.to_nat n) l))
          <$> seq 0 (Z.to_nat (ceil_div (Z.of_nat (length l)) n))).
Proof.
  intros Hn. unfold chunks, py_range. rewrite decide_False by lia. simpl.
  f_equal. rewrite <- list_fmap_compose. rewrite Z.sub_0_r.
  pose proof (ceil_div_bounds (Z.of_nat (length l)) n Hn) as Hc.
  apply list_fmap_ext. intros i j Hj.
  apply lookup_seq in Hj as [-> Hlt]. simpl.
  replace n with (Z.of_nat (Z.to_nat n)) at 1 2 3 by lia.
  apply py_slice_chunk; [lia|]. nia.
Qed.

Section ChunksPartition.
Context {A : Type} (l : list A) (n : Z) (Hn : 0 < n).

Let count : nat := Z.to_nat (ceil_div (Z.of_nat (length l)) n).
Let runs : list (list A) :=
  (λ j : nat, take (Z.to_nat n) (drop (j * Z.to_nat n) l)) <$> seq 0 count.

Lemma chunks_count_bounds :
  (length l ≤ count * Z.to_nat n)%nat ∧ (count * Z.to_nat n < length l + Z.to_nat n)%nat.
Proof.
  pose proof (ceil_div_bounds (Z.of_nat (length l)) n Hn) as Hc.
  unfold count. split; nia.
Qed.

Lemma chunks_concat : concat runs = l.
Proof.
  unfold runs. rewrite concat_take_drop_seq. apply take_ge.
  apply chunks_count_bounds.
Qed.

Lemma chunks_run_length (i : nat) (run : list A) :
  runs !! i = Some run →
  (0 < length run ≤ Z.to_nat n)%nat
  ∧ ((S i < length runs)%nat → length run = Z.to_nat n).
Proof.
  unfold runs. rewrite list_lookup_fmap, length_fmap, length_seq.
  intros Hrun. destruct (seq 0 count !! i) as [j|] eqn:Hj; [|done].
  apply lookup_seq in Hj as [-> Hlt]. simpl in Hrun. injection Hrun as <-.
  rewrite length_take, length_drop.
  pose proof chunks_count_bounds as [Hlo Hhi]. split; [split|]; nia.
Qed.

End ChunksPartition.

(** ** Rounding to binary64 *)

Section Rounding.
Local Open Scope Q_scope.

Lemma pow2_pos (e : Z) : 0 < 2 ^ e.
Proof. by apply Qpower_0_lt. Qed.

Lemma pow2_plus (a b : Z) : 2 ^ (a + b) == 2 ^ a * 2 ^ b.
Proof. by apply Qpower_plus. Qed.

Lemma pow2_succ (a : Z) : 2 ^ (a + 1) == 2 * 2 ^ a.
Proof. rewrite pow2_plus. change (2 ^ 1) with 2. ring. Qed.

Lemma pow2_pred (a : Z) : 2 * 2 ^ (a - 1) == 2 ^ a.
Proof. rewrite <- pow2_succ. by replace (a - 1 + 1)%Z with a by lia. Qed.


Lemma pow2_le (a b : Z) : (a ≤ b)%Z → 2 ^ a <= 2 ^ b.
Proof. intros Hab. by apply Qpower_le_compat_l. Qed.


Lemma pow2_lt_inv (a b : Z) : 2 ^ a < 2 ^ b → (a < b)%Z.
Proof. intros Hab. by apply (Qpower_lt_compat_l_inv 2). Qed.

Lemma pow2_inject (n : Z) : (0 ≤ n)%Z → inject_Z (2 ^ n) == 2 ^ n.
Proof. intros Hn. by rewrite Zpower_Qpower. Qed.

Lemma pow2_minus (a b : Z) : 2 ^ (a - b) * 2 ^ b == 2 ^ a.
Proof. rewrite <- pow2_plus. by replace (a - b + b)%Z with a by lia. Qed.

Lemma floor_log2_spec (q : Q) :
  0 < q → 2 ^ floor_log2 q <= q ∧ q < 2 ^ (floor_log2 q + 1).
Proof.
  intros Hq. unfold floor_log2.
  destruct q as [a b]. cbn [Qnum Qden].
  assert (0 < a)%Z as Ha by (unfold Qlt in Hq; simpl in Hq; lia).
  set (la := Z.log2 a). set (lb := Z.log2 (Z.pos b)).
  destruct (Z.log2_spec a Ha) as [Ha1 Ha2]. fold la in Ha1, Ha2.
  destruct (Z.log2_spec (Z.pos b) ltac:(lia)) as [Hb1 Hb2]. fold lb in Hb1, Hb2.
  assert (0 ≤ la)%Z as Hla by apply Z.log2_nonneg.
  assert (0 ≤ lb)%Z as Hlb by apply Z.log2_nonneg.
  assert (a # b == inject_Z a / inject_Z (Z.pos b)) as Hab by apply Qmake_Qdiv.
  assert (2 ^ la <= inject_Z a) as Ha1'
    by (rewrite <- pow2_inject by done; by rewrite <- Zle_Qle).
  assert (2 ^ lb <= inject_Z (Z.pos b)) as Hb1'
    by (rewrite <- pow2_inject by done; by rewrite <- Zle_Qle).
  assert (inject_Z a < 2 * 2 ^ la) as Ha2'
    by (rewrite <- pow2_succ, <- pow2_inject by lia; rewrite <- Zlt_Qlt; lia).
  assert (inject_Z (Z.pos b) < 2 * 2 ^ lb) as Hb2'
    by (rewrite <- pow2_succ, <- pow2_inject by lia; rewrite <- Zlt_Qlt; lia).
  clear Ha1 Ha2 Hb1 Hb2.
  pose proof (pow2_pos la) as Hpa. pose proof (pow2_pos lb) as Hpb.
  pose proof (pow2_minus la lb) as Hl.
  pose proof (pow2_pos (la - lb)) as Hpl.
  set (A := inject_Z a) in *. set (B := inject_Z (Z.pos b)) in *.
  assert (0 < B) as HB by lra.
  assert (a # b == A * / B) as Hab' by exact Hab.
  assert (/ B * B == 1) as Hinv by (field; lra).
  pose proof (Qinv_lt_0_compat B HB) as HiB.
  set (iB := / B) in *. set (q := a # b) in *.
  set (PA := 2 ^ la) in *. set (PB := 2 ^ lb) in *.
  destruct (Qle_bool (2 ^ (la - lb)) q) eqn:Hle.
  - apply Qle_bool_iff in Hle. split; [done|].
    rewrite pow2_succ. set (PL := 2 ^ (la - lb)) in *.
    (* q * B == A < 2 PA = 2 PL PB <= 2 PL B *)
    assert (q * B == A) as HqB by (rewrite Hab'; rewrite <- Qmult_assoc, Hinv; ring).
    apply (Qmult_lt_r _ _ B HB). nra.
  - assert (¬ 2 ^ (la - lb) <= q) as Hnle by (rewrite <- Qle_bool_iff; by rewrite Hle).
    apply Qnot_le_lt in Hnle.
    replace (la - lb - 1 + 1)%Z with (la - lb)%Z by lia. split; [|done].
    pose proof (pow2_pred (la - lb)) as Hpred.
    pose proof (pow2_pos (la - lb - 1)) as Hpl1.
    set (PL := 2 ^ (la - lb)) in *. set (PL1 := 2 ^ (la - lb - 1)) in *.
    assert (q * B == A) as HqB by (rewrite Hab'; rewrite <- Qmult_assoc, Hinv; ring).
    apply (Qmult_le_r _ _ B HB). nra.
Qed.






Lemma round_half_even_comp (x y : Q) : x == y → round_half_even x = round_half_even y.
Proof.
  intros Hxy. unfold round_half_even.
  assert (Qfloor x = Qfloor y) as -> by (by rewrite Hxy).
  by rewrite Hxy.
Qed.






Lemma floor_log2_ge (q : Q) (n : Z) : 2 ^ n <= q → (n ≤ floor_log2 q)%Z.
Proof.
  intros Hge. pose proof (pow2_pos n) as Hp.
  destruct (floor_log2_spec q ltac:(lra)) as [_ Hhi].
  assert (n < floor_log2 q + 1)%Z; [|lia].
  apply pow2_lt_inv. lra.
Qed.


Lemma ulp_exponent_min (q : Q) : (-1074 ≤ ulp_exponent q)%Z.
Proof. unfold ulp_exponent. lia. Qed.














End Rounding.

(** ** [split_task] *)

Lemma sorted_permutation (acquisitions : list Z) : sorted acquisitions ≡ₚ acquisitions.
Proof. apply merge_sort_Permutation. Qed.


Lemma sorted_length (acquisitions : list Z) : length (sorted acquisitions) = length acquisitions.
Proof. apply Permutation_length, sorted_permutation. Qed.






Lemma split_task_geo_whole (resolution : Qc) (latitude longitude : extent) :
  split_task_geo resolution (Some latitude) (Some longitude) None
  = Ok ([Some latitude], [Some longitude]).
Proof. done. Qed.

Example split_task_time_five_in_two :
  split_task_time [5; 3; 1; 4; 2] (Some 2) false = Ok [[1; 2; 3]; [4; 5]].
Proof. reflexivity. Qed.

Example split_task_time_five_in_four_reversed :
  split_task_time [5; 3; 1; 4; 2] (Some 4) true = Ok [[5; 4]; [3; 2]; [1]].
Proof. reflexivity. Qed.

Example split_task_time_unchunked :
  split_task_time [5; 3; 1; 4; 2] None false = Ok [[1; 2; 3; 4; 5]].
Proof. reflexivity. Qed.









(** C2 as stated fails: the acquisitions are not empty and [time_chunks] is
    a positive integer, yet the call returns no time ranges.  The quotient
    3 / 2^1080 is 0.0 in float64, so the chunk size is 0 and [range]
    raises; and the geographic part comes first, which raises without
    [latitude] and for a [geo_chunk_size] of 0. *)
Lemma split_task_time_ranges_may_fail :
  Float64.split_task fzero (Some (fzero, fone)) (Some (fzero, fone)) [1; 2; 3] None
                     (Some (2 ^ 1080)) false
  = Raise ValueError
  ∧ Float64.split_task fzero None (Some (fzero, fone)) [1; 2; 3] None (Some 2) false
    = Raise TypeError
  ∧ Float64.split_task fzero (Some (fzero, fone)) (Some (fzero, fone)) [1; 2; 3]
                       (Some fzero) (Some 2) false
    = Raise ZeroDivisionError.
Proof. split; [by vm_compute|]. split; by vm_compute. Qed.




(** ** Boolean-mask indexing *)

Lemma mask_scatter_select {A} (f : A → A) (m : list bool) (a b : list A) :
  length m = length a → length m = length b →
  let sel := omap (λ p : bool * A, if p.1 then Some p.2 else None) (zip m b) in
  length (f <$> sel) = count_true m
  ∧ mask_scatter m a (f <$> sel)
    = zip_with (λ (k : bool * A) x, if k.1 then f k.2 else x) (zip m b) a.
Proof.
  revert a b. induction m as [|mi m IH]; intros [|x a] [|y b] Ha Hb; try done.
  injection Ha as Ha. injection Hb as Hb.
  destruct (IH a b Ha Hb) as [IHlen IHeq].
  unfold count_true in *. destruct mi.
  - rewrite filter_cons_True by done. simpl in *. split; by f_equal.
  - rewrite filter_cons_False by done. simpl in *. split; by f_equal.
Qed.

Lemma mask_assign_select {A} (f : A → A) (m : list bool) (a b : list A) :
  length m = length a → length m = length b →
  (try sel ← mask_select m b; mask_assign m a (f <$> sel))
  = Ok (zip_with (λ (k : bool * A) x, if k.1 then f k.2 else x) (zip m b) a).
Proof.
  intros Ha Hb. destruct (mask_scatter_select f m a b Ha Hb) as [Hlen Heq].
  unfold mask_select, mask_assign. rewrite decide_True by done. cbn [rbind].
  rewrite !decide_True by done. by rewrite Heq.
Qed.

Lemma mask_assign_select_self {A} (p : A → bool) (f : A → A) (a : list A) :
  (try sel ← mask_select (p <$> a) a; mask_assign (p <$> a) a (f <$> sel))
  = Ok ((λ x, if p x then f x else x) <$> a).
Proof.
  rewrite mask_assign_select by (by rewrite length_fmap).
  f_equal. rewrite (zip_with_fmap_l pair), zip_with_diag.
  rewrite zip_with_fmap_l, zip_with_diag. done.
Qed.

Lemma mask_fill_self {A} (p : A → bool) (c : A) (a : list A) :
  mask_fill (p <$> a) a c = Ok ((λ x, if p x then c else x) <$> a).
Proof.
  unfold mask_fill. rewrite decide_True by (by rewrite length_fmap).
  by rewrite zip_with_fmap_l, zip_with_diag.
Qed.

Lemma assoc_elem_of {A} (key : string) (v : A) (l : list (string * A)) :
  assoc key l = Some v → (key, v) ∈ l.
Proof.
  induction l as [|[k w] l IH]; [done|]. simpl. case_decide as Hk; simpl in Hk.
  - intros [= ->]. subst. by left.
  - intros ?. right. auto.
Qed.

(** ** NDVI *)

Lemma dataset_wf_length (ds : Dataset) (name : string) (v : list fval) :
  dataset_wf ds → assoc name (data_vars ds) = Some v →
  length v = np_size (coords_shape (ds_coords ds)).
Proof.
  intros Hwf Hv. apply assoc_elem_of in Hv.
  unfold dataset_wf in Hwf. rewrite Forall_forall in Hwf. by apply Hwf in Hv.
Qed.












(** C3 as stated fails on integer bands.  On int16 the sum 30000 + 10000
    wraps around to -25536, so that the index is negative where
    (nir - red) / (nir + red) is 1/2; on uint16 the difference 1 - 2 wraps
    around to 65535 and the index is 21845. *)
Lemma NDVI_wraps_around :
  ∃ ndvi ndvi' v v',
    NDVI example_int16_bands = Ok ndvi
    ∧ da_values ndvi !! 0%nat = Some v
    ∧ fltb v fzero = true
    ∧ feqb (fdiv64 (flit (30000 - 10000) 1) (flit (30000 + 10000) 1)) (flit 1 2) = true
    ∧ NDVI example_uint16_bands = Ok ndvi'
    ∧ da_values ndvi' !! 0%nat = Some v'
    ∧ feqb v' (flit 21845 1) = true.
Proof.
  do 4 eexists. split; [reflexivity|]. split; [reflexivity|].
  split; [by vm_compute|]. split; [by vm_compute|].
  split; [reflexivity|]. split; [reflexivity|]. by vm_compute.
Qed.

(** ** EVI *)

Lemma Qcltb_true (a b : Qc) : Qcltb a b = true ↔ (a < b)%Qc.
Proof.
  unfold Qcltb. rewrite Qclt_alt. destruct (a ?= b)%Qc; split; congruence.
Qed.

Lemma Qcltb_false (a b : Qc) : Qcltb a b = false ↔ (b ≤ a)%Qc.
Proof.
  rewrite <- not_true_iff_false, Qcltb_true. split.
  - apply Qcnot_lt_le.
  - apply Qcle_not_lt.
Qed.

Lemma Qceqb_true (a b : Qc) : Qceqb a b = true ↔ a = b.
Proof.
  unfold Qceqb. rewrite Qceq_alt. destruct (a ?= b)%Qc; split; congruence.
Qed.

Ltac qc_to_q :=
  unfold Qclt, Qcle in *;
  change (this q2_5) with (5 # 2)%Q in *;
  change (this (Q2Qc (-1 # 1))) with (-1 # 1)%Q in *;
  change (this 0%Qc) with 0%Q in *;
  change (this 1%Qc) with 1%Q in *.

Lemma EVI_clamp_value_Fin (q : Qc) :
  ((q < Q2Qc (-1 # 1))%Qc ∧ EVI_clamp_value (Fin q) = flit (-1) 1)
  ∨ ((q2_5 < q)%Qc ∧ EVI_clamp_value (Fin q) = Fin q2_5)
  ∨ ((Q2Qc (-1 # 1) ≤ q)%Qc ∧ (q ≤ q2_5)%Qc ∧ EVI_clamp_value (Fin q) = Fin q).
Proof.
  unfold EVI_clamp_value, flit. cbn [fltb].
  destruct (Qcltb q (Q2Qc (-1 # 1))) eqn:Hlo.
  - left. split; [by apply Qcltb_true|]. done.
  - apply Qcltb_false in Hlo. right. cbn [fltb].
    destruct (Qcltb q2_5 q) eqn:Hhi.
    + left. split; [by apply Qcltb_true|]. done.
    + apply Qcltb_false in Hhi. right. done.
Qed.

Lemma interp_scale (q : Qc) :
  ((1 - 0) / (q2_5 - 0) * (q - 0) + 0 = q / q2_5)%Qc.
Proof. field. done. Qed.

Lemma scaled_bounds (q : Qc) :
  (0 < q)%Qc → (q ≤ q2_5)%Qc → (0 < q / q2_5)%Qc ∧ (q / q2_5 ≤ 1)%Qc.
Proof.
  unfold Qclt, Qcle, Qcdiv, Qcmult, Qcinv. cbn [this Q2Qc].
  rewrite !Qred_correct.
  change (this q2_5) with (5 # 2)%Q.
  change (/ (5 # 2))%Q with (2 # 5)%Q.
  intros. split; lra.
Qed.

Lemma EVI_normalize_value_Fin (q : Qc) :
  (q ≤ q2_5)%Qc →
  ((0 < q)%Qc ∧ EVI_normalize_value (Fin q) = Fin (q / q2_5))
  ∨ ((q ≤ 0)%Qc ∧ EVI_normalize_value (Fin q) = Fin q).
Proof.
  intros Hhi. unfold EVI_normalize_value, fzero. cbn [fltb].
  destruct (Qcltb 0 q) eqn:Hpos.
  - apply Qcltb_true in Hpos. left. split; [done|].
    unfold np_interp. cbn [fst snd].
    destruct (Qcltb q2_5 q) eqn:Hgt.
    { apply Qcltb_true in Hgt. by apply Qcle_not_lt in Hhi. }
    destruct (Qceqb q2_5 q) eqn:Heq; cbn [orb].
    { apply Qceqb_true in Heq. subst q. f_equal. by apply Qc_is_canon. }
    destruct (Qcltb q 0) eqn:Hneg.
    { apply Qcltb_true in Hneg. qc_to_q. lra. }
    destruct (Qceqb q 0) eqn:Hz; cbn [orb].
    { apply Qceqb_true in Hz. subst q. qc_to_q. lra. }
    f_equal. apply interp_scale.
  - apply Qcltb_false in Hpos. right. done.
Qed.

Lemma EVI_clamp_eq (values : list fval) :
  EVI_clamp values = Ok (EVI_clamp_value <$> values).
Proof.
  unfold EVI_clamp. rewrite mask_fill_self. cbn [rbind].
  rewrite mask_fill_self. by rewrite <- list_fmap_compose.
Qed.

Lemma EVI_normalize_eq (values : list fval) :
  EVI_normalize values = Ok (EVI_normalize_value <$> values).
Proof. unfold EVI_normalize. apply mask_assign_select_self. Qed.

Lemma EVI_eq (ds : Dataset) (G C1 C2 L : fval) (normalize : bool) (raw : DataArray) :
  EVI_raw ds G C1 C2 L = Ok raw →
  EVI ds G C1 C2 L normalize
  = Ok (mkDataArray (da_coords raw)
          ((λ x, if normalize then EVI_normalize_value (EVI_clamp_value x)
                 else EVI_clamp_value x) <$> da_values raw)).
Proof.
  intros Hraw. unfold EVI. rewrite Hraw. cbn [rbind].
  rewrite EVI_clamp_eq. cbn [rbind]. destruct normalize; [|done].
  rewrite EVI_normalize_eq. cbn [rbind]. by rewrite <- list_fmap_compose.
Qed.

Lemma EVI_raw_ok (ds : Dataset) (G C1 C2 L : fval) (nir red blue : list fval) :
  assoc "nir" (data_vars ds) = Some nir →
  assoc "red" (data_vars ds) = Some red →
  assoc "blue" (data_vars ds) = Some blue →
  ∃ raw, EVI_raw ds G C1 C2 L = Ok raw ∧ da_coords raw = ds_coords ds.
Proof.
  intros Hnir Hred Hblue. unfold EVI_raw, ds_attr.
  rewrite Hnir, Hred, Hblue. cbn [rbind]. eauto.
Qed.

Lemma const_bounds :
  (Q2Qc (-1 # 1) ≤ q2_5)%Qc ∧ (Q2Qc (-1 # 1) ≤ Q2Qc (-1 # 1))%Qc ∧ (q2_5 ≤ q2_5)%Qc
  ∧ (0 < q2_5)%Qc ∧ (Q2Qc (-1 # 1) < 0)%Qc.
Proof. qc_to_q. repeat split; lra. Qed.

(** The clamped value is NaN (for a NaN input only) or lies in [-1, 2.5]. *)
Lemma EVI_clamp_value_range (x : fval) :
  (x = NaN ∧ EVI_clamp_value x = NaN)
  ∨ ∃ q, EVI_clamp_value x = Fin q ∧ (Q2Qc (-1 # 1) ≤ q)%Qc ∧ (q ≤ q2_5)%Qc.
Proof.
  destruct const_bounds as (H1 & H2 & H3 & _).
  destruct x as [| | |q].
  - by left.
  - right. exists q2_5. done.
  - right. exists (Q2Qc (-1 # 1)). done.
  - right. destruct (EVI_clamp_value_Fin q) as [[Hq ->]|[[Hq ->]|(Hlo & Hhi & ->)]].
    + by exists (Q2Qc (-1 # 1)).
    + by exists q2_5.
    + by exists q.
Qed.

(** Which raw values the clamp moves. *)
Lemma EVI_clamp_value_cases (x : fval) :
  (flt x (flit (-1) 1) → EVI_clamp_value x = flit (-1) 1)
  ∧ (flt (Fin q2_5) x → EVI_clamp_value x = Fin q2_5)
  ∧ (¬ flt x (flit (-1) 1) → ¬ flt (Fin q2_5) x → EVI_clamp_value x = x).
Proof.
  unfold flt, flit. destruct x as [| | |q]; cbn [fltb].
  - done.
  - repeat split; try done; intros; exfalso; auto.
  - repeat split; try done; intros; exfalso; auto.
  - destruct (EVI_clamp_value_Fin q) as [[Hq ->]|[[Hq ->]|(Hlo & Hhi & ->)]].
    + repeat split; try done.
      * intros Hgt%Qcltb_true. qc_to_q. lra.
      * intros Hn. by apply Qcltb_true in Hq.
    + repeat split; try done.
      * intros Hlt%Qcltb_true. qc_to_q. lra.
      * intros _ Hn. by apply Qcltb_true in Hq.
    + repeat split; try done.
      * intros Hlt%Qcltb_true. qc_to_q. lra.
      * intros Hgt%Qcltb_true. qc_to_q. lra.
Qed.

(** Rescaling a clamped value: positive values are divided by 2.5 and land
    in (0, 1], the others stay. *)
Lemma EVI_normalize_value_range (q : Qc) :
  (Q2Qc (-1 # 1) ≤ q)%Qc → (q ≤ q2_5)%Qc →
  ∃ qy, EVI_normalize_value (Fin q) = Fin qy
        ∧ (Q2Qc (-1 # 1) ≤ qy)%Qc ∧ (qy ≤ 1)%Qc
        ∧ ((0 < q)%Qc → qy = (q / q2_5)%Qc ∧ (0 < qy)%Qc)
        ∧ (¬ (0 < q)%Qc → qy = q).
Proof.
  intros Hlo Hhi.
  destruct (EVI_normalize_value_Fin q Hhi) as [[Hpos ->]|[Hnp ->]].
  - destruct (scaled_bounds q Hpos Hhi) as [Hy0 Hy1].
    eexists. split; [done|]. split; [qc_to_q; lra|]. split; [done|].
    split; [done|]. intros Hn. by destruct Hn.
  - eexists. split; [done|]. split; [done|]. split; [qc_to_q; lra|].
    split; [|done]. intros Hpos. qc_to_q. lra.
Qed.

(** C4.  For a dataset with 'nir', 'red' and 'blue' bands, [EVI] returns with
    and without normalisation, on the dataset's coordinates.  Pixel by pixel,
    with [x] the raw index, [c] the value returned under normalize=False and
    [y] the one under normalize=True: raw values below -1 become -1 and raw
    values above 2.5 become 2.5, others are kept; a finite [c] lies in
    [-1, 2.5] and a finite [y] in [-1, 1]; a positive [c] is rescaled to
    [c / 2.5], which lies in (0, 1]; a non-positive [c] is returned as it is
    in both modes. *)
Theorem EVI_bounds (ds : Dataset) (G C1 C2 L : fval) (nir red blue : list fval) :
  assoc "nir" (data_vars ds) = Some nir →
  assoc "red" (data_vars ds) = Some red →
  assoc "blue" (data_vars ds) = Some blue →
  ∃ raw plain normalized,
    EVI_raw ds G C1 C2 L = Ok raw
    ∧ EVI ds G C1 C2 L false = Ok plain
    ∧ EVI ds G C1 C2 L true = Ok normalized
    ∧ da_coords plain = ds_coords ds
    ∧ da_coords normalized = ds_coords ds
    ∧ length (da_values plain) = length (da_values raw)
    ∧ length (da_values normalized) = length (da_values raw)
    ∧ ∀ (i : nat) (x : fval), da_values raw !! i = Some x →
        ∃ c y,
          da_values plain !! i = Some c
          ∧ da_values normalized !! i = Some y
          ∧ (flt x (flit (-1) 1) → c = flit (-1) 1)
          ∧ (flt (Fin q2_5) x → c = Fin q2_5)
          ∧ (¬ flt x (flit (-1) 1) → ¬ flt (Fin q2_5) x → c = x)
          ∧ (isfinite c = true → fle (flit (-1) 1) c ∧ fle c (Fin q2_5))
          ∧ (isfinite y = true → fle (flit (-1) 1) y ∧ fle y fone)
          ∧ (flt fzero c →
               ∃ q, c = Fin q ∧ y = Fin (q / q2_5) ∧ flt fzero y ∧ fle y fone)
          ∧ (¬ flt fzero c → y = c).
Proof.
  intros Hnir Hred Hblue.
  destruct (EVI_raw_ok ds G C1 C2 L _ _ _ Hnir Hred Hblue) as (raw & Hraw & Hcoords).
  exists raw. eexists. eexists.
  split; [done|]. split; [by apply EVI_eq|]. split; [by apply EVI_eq|].
  cbn [da_coords da_values]. rewrite !length_fmap.
  do 4 (split; [done|]).
  intros i x Hx. rewrite !list_lookup_fmap, Hx. cbn [fmap option_fmap option_map].
  eexists. eexists. split; [done|]. split; [done|].
  destruct (EVI_clamp_value_cases x) as (Hbelow & Habove & Hkeep).
  do 3 (split; [done|]).
  destruct (EVI_clamp_value_range x) as [[-> Hc]|(q & Hc & Hlo & Hhi)]; rewrite Hc.
  - repeat split; try done.
  - destruct (EVI_normalize_value_range q Hlo Hhi) as (qy & Hy & Hylo & Hyhi & Hpos & Hnonpos).
    rewrite Hy. unfold flt, fle, flit, fone, fzero. cbn [fltb isfinite].
    split; [done|]. split; [done|]. split.
    + intros Hq%Qcltb_true. destruct (Hpos Hq) as [-> Hy0].
      exists q. repeat split; try done. by apply Qcltb_true.
    + intros Hq. f_equal. apply Hnonpos. intros Hq'. by apply Hq, Qcltb_true.
Qed.

Lemma EVI_bounds_witness :
  ∃ plain normalized,
    EVI (mkDataset [("x"%string, [0%Qc; 1%Qc])]
           [("nir"%string, [flit 3 1; flit 1 1]);
            ("red"%string, [flit 1 1; flit 3 1]);
            ("blue"%string, [flit 0 1; flit 1 1])])
        (flit 5 2) (flit 6 1) (flit 15 2) (flit 1 1) false = Ok plain
    ∧ EVI (mkDataset [("x"%string, [0%Qc; 1%Qc])]
             [("nir"%string, [flit 3 1; flit 1 1]);
              ("red"%string, [flit 1 1; flit 3 1]);
              ("blue"%string, [flit 0 1; flit 1 1])])
          (flit 5 2) (flit 6 1) (flit 15 2) (flit 1 1) true = Ok normalized
    ∧ length (da_values plain) = length (da_values normalized).
Proof.
  destruct (EVI_bounds
              (mkDataset [("x"%string, [0%Qc; 1%Qc])]
                 [("nir"%string, [flit 3 1; flit 1 1]);
                  ("red"%string, [flit 1 1; flit 3 1]);
                  ("blue"%string, [flit 0 1; flit 1 1])])
              (flit 5 2) (flit 6 1) (flit 15 2) (flit 1 1)
              [flit 3 1; flit 1 1] [flit 1 1; flit 3 1] [flit 0 1; flit 1 1]
              eq_refl eq_refl eq_refl)
    as (raw & plain & normalized & _ & Hp & Hn & _ & _ & Hlp & Hln & _).
  exists plain, normalized. split; [exact Hp|]. split; [exact Hn|].
  by rewrite Hlp, Hln.
Defined.

(** ** Scene metadata *)

(** C9.  When the query returns a dataset without data variables,
    [get_scene_metadata] returns the all-zero dictionary with 'tile_count'
    and an empty 'storage_units'; when the dataset has data variables (and
    so at least one time step), the dictionary has exactly the keys
    'lat_extents', 'lon_extents', 'time_extents', 'scene_count' and
    'pixel_count'. *)
Theorem get_scene_metadata_keys
    (dc_load : string → option (list string) → option string → option extent →
               option (list (string * nat)) → list (string * qval) → result LoadedDataset)
    (platform product : string) (longitude latitude : option extent)
    (crs : option string) (time : option (Z * Z)) (dataset : LoadedDataset) :
  get_dataset_by_extent dc_load product None (Some platform) time longitude latitude
                        None None None crs (Some []) = Ok dataset →
  (ld_data_vars dataset = [] →
     get_scene_metadata dc_load platform product longitude latitude crs time
     = Ok [("lat_extents"%string, PyTuple (PyInt 0) (PyInt 0));
           ("lon_extents"%string, PyTuple (PyInt 0) (PyInt 0));
           ("time_extents"%string, PyTuple (PyInt 0) (PyInt 0));
           ("scene_count"%string, PyInt 0);
           ("pixel_count"%string, PyInt 0);
           ("tile_count"%string, PyInt 0);
           ("storage_units"%string, PyDict [])])
  ∧ (ld_data_vars dataset ≠ [] → ld_time dataset ≠ [] →
       ∃ metadata,
         get_scene_metadata dc_load platform product longitude latitude crs time
         = Ok metadata
         ∧ metadata.*1 = ["lat_extents"; "lon_extents"; "time_extents";
                          "scene_count"; "pixel_count"]%string
         ∧ assoc "tile_count" metadata = None
         ∧ assoc "storage_units" metadata = None).
Proof.
  intros Hload. unfold get_scene_metadata. rewrite Hload. cbn [rbind]. split.
  - by intros ->.
  - intros Hvars Htime. destruct (ld_data_vars dataset) as [|v vars]; [done|].
    destruct (ld_envelope dataset) as [[[lon_min lat_min] lon_max] lat_max].
    destruct (ld_time dataset) as [|t ts] eqn:Ht; [done|].
    cbn [head]. destruct (last (t :: ts)) as [final|] eqn:Hlast.
    + eexists. split; [done|]. done.
    + by apply last_None in Hlast.
Qed.

Lemma get_scene_metadata_keys_witness :
  ∃ metadata,
    get_scene_metadata (load_const example_scene) "LANDSAT_7" "ls7_ledaps"
                       None None None None
    = Ok metadata
    ∧ metadata.*1 = ["lat_extents"; "lon_extents"; "time_extents";
                     "scene_count"; "pixel_count"]%string.
Proof.
  destruct (get_scene_metadata_keys (load_const example_scene) "LANDSAT_7" "ls7_ledaps"
              None None None None example_scene eq_refl)
    as [_ Hfull].
  destruct (Hfull ltac:(discriminate) ltac:(discriminate)) as (metadata & Hcall & Hkeys & _).
  exists metadata. split; [exact Hcall | exact Hkeys].
Defined.

(** ** The assertion of [compute_ndvi_anomaly] *)

Create HintDb no_assert discriminated.

Lemma never_asserts_ok {A} (a : A) : never_asserts (Ok a).
Proof. by unfold never_asserts. Qed.

Lemma never_asserts_rbind {A B} (r : result A) (k : A → result B) :
  never_asserts r → (∀ a, never_asserts (k a)) → never_asserts (rbind r k).
Proof.
  intros Hr Hk. destruct r; [apply Hk|].
  unfold never_asserts in *. simpl. intros [= ->]. by apply Hr.
Qed.

Lemma never_asserts_np_zip {A B C} (f : A → B → C) (a : list A) (b : list B) :
  never_asserts (np_zip f a b).
Proof. unfold np_zip. unfold never_asserts. by case_decide. Qed.

Lemma never_asserts_cube_zip {A B C} (f : A → B → C) (a : list (list A)) (b : list (list B)) :
  never_asserts (cube_zip f a b).
Proof. unfold cube_zip. unfold never_asserts. by case_decide. Qed.

Lemma never_asserts_mask_fill {A} (m : list bool) (a : list A) (c : A) :
  never_asserts (mask_fill m a c).
Proof. unfold mask_fill. unfold never_asserts. by case_decide. Qed.

Lemma never_asserts_nonfinite_to (no_data : fval) (a : list fval) :
  never_asserts (nonfinite_to no_data a).
Proof. apply never_asserts_mask_fill. Qed.

Lemma never_asserts_td_attr (ds : TimeDataset) (name : string) :
  never_asserts (td_attr ds name).
Proof. unfold td_attr. unfold never_asserts. by destruct (assoc _ _). Qed.

Lemma never_asserts_td_getitem (ds : TimeDataset) (key : string) :
  never_asserts (td_getitem ds key).
Proof. unfold td_getitem. unfold never_asserts. by destruct (assoc _ _). Qed.

Lemma never_asserts_ds_attr (ds : Dataset) (name : string) :
  never_asserts (ds_attr ds name).
Proof. unfold ds_attr. unfold never_asserts. by destruct (assoc _ _). Qed.

Lemma never_asserts_ds_getitem (ds : Dataset) (key : string) :
  never_asserts (ds_getitem ds key).
Proof. unfold ds_getitem. unfold never_asserts. by destruct (assoc _ _). Qed.

Lemma never_asserts_coord_attr (ds : Dataset) (name : string) :
  never_asserts (coord_attr ds name).
Proof. unfold coord_attr. unfold never_asserts. by destruct (assoc _ _). Qed.

Lemma never_asserts_result_map {A B} (f : A → result B) (l : list A) :
  (∀ x, never_asserts (f x)) → never_asserts (result_map f l).
Proof.
  intros Hf. induction l as [|x l IH]; [by unfold never_asserts|]. simpl.
  apply never_asserts_rbind; [apply Hf|]. intros y.
  apply never_asserts_rbind; [apply IH|]. intros ys. by unfold never_asserts.
Qed.

#[local] Hint Resolve never_asserts_ok never_asserts_np_zip never_asserts_cube_zip
  never_asserts_mask_fill never_asserts_nonfinite_to never_asserts_td_attr
  never_asserts_td_getitem
  never_asserts_ds_attr never_asserts_ds_getitem never_asserts_coord_attr : no_assert.

Lemma st_never_asserts_mret {S A} (a : A) : st_never_asserts (S:=S) (mret a).
Proof. intros st. by unfold never_asserts. Qed.

Lemma st_never_asserts_lift {S A} (r : result A) :
  never_asserts r → st_never_asserts (S:=S) (lift r).
Proof. intros Hr st. done. Qed.

Lemma st_never_asserts_mbind {S A B} (c : St S A) (k : A → St S B) :
  st_never_asserts c → (∀ a, st_never_asserts (k a)) → st_never_asserts (mbind c k).
Proof.
  intros Hc Hk st. unfold mbind. specialize (Hc st).
  destruct (c st) as [[a|e] st']; [apply Hk|].
  unfold never_asserts in *. simpl in *. intros [= ->]. by apply Hc.
Qed.

Lemma st_never_asserts_read_baseline : st_never_asserts read_baseline.
Proof. intros st. by unfold never_asserts. Qed.

Lemma st_never_asserts_read_scene : st_never_asserts read_scene.
Proof. intros st. by unfold never_asserts. Qed.

(** One step through the body of a stateful function. *)
Ltac no_assert_step :=
  first
    [ apply st_never_asserts_mbind; [|intros ?]
    | apply st_never_asserts_mret
    | apply st_never_asserts_read_baseline
    | apply st_never_asserts_read_scene
    | apply st_never_asserts_lift
    | apply never_asserts_result_map; intros ?
    | apply never_asserts_rbind; [|intros ?]
    | solve [auto with no_assert] ].

Lemma compute_ndvi_anomaly_body_never_asserts
    (median_time : cube → list fval)
    (wofs_classify : Dataset → list bool → result (list fval))
    (baseline_mask : list (list bool)) (scene_mask : list bool) (no_data : fval) :
  (∀ ds m, never_asserts (wofs_classify ds m)) →
  st_never_asserts
    (compute_ndvi_anomaly median_time wofs_classify (Some baseline_mask) (Some scene_mask)
                          no_data).
Proof.
  intros Hwofs. unfold compute_ndvi_anomaly.
  repeat no_assert_step.
Qed.

Lemma keeps_inputs_mret {A} (a : A) : keeps_inputs (mret a).
Proof. by intros st. Qed.

Lemma keeps_inputs_lift {A} (r : result A) : keeps_inputs (lift r).
Proof. by intros st. Qed.

Lemma keeps_inputs_read_baseline : keeps_inputs read_baseline.
Proof. by intros st. Qed.

Lemma keeps_inputs_read_scene : keeps_inputs read_scene.
Proof. by intros st. Qed.

Lemma keeps_inputs_mbind {A B} (c : St inputs A) (k : A → St inputs B) :
  keeps_inputs c → (∀ a, keeps_inputs (k a)) → keeps_inputs (mbind c k).
Proof.
  intros Hc Hk st. unfold mbind. destruct (Hc st) as [Hb Hs].
  destruct (c st) as [[a|e] st']; simpl in *.
  - destruct (Hk a st') as [Hb' Hs']. by rewrite Hb', Hs'.
  - done.
Qed.

Ltac keeps_inputs_step :=
  first
    [ apply keeps_inputs_mbind; [|intros ?]
    | apply keeps_inputs_mret
    | apply keeps_inputs_read_baseline
    | apply keeps_inputs_read_scene
    | apply keeps_inputs_lift ].

Lemma compute_ndvi_anomaly_keeps_inputs
    (median_time : cube → list fval)
    (wofs_classify : Dataset → list bool → result (list fval))
    (baseline_clear_mask : option (list (list bool)))
    (selected_scene_clear_mask : option (list bool)) (no_data : fval) :
  keeps_inputs
    (compute_ndvi_anomaly median_time wofs_classify baseline_clear_mask
                          selected_scene_clear_mask no_data).
Proof.
  unfold compute_ndvi_anomaly.
  destruct selected_scene_clear_mask, baseline_clear_mask; try (by intros st).
  repeat keeps_inputs_step.
Qed.

(** C7.  Provided [wofs_classify] raises no AssertionError of its own,
    [compute_ndvi_anomaly] raises AssertionError exactly when one of the two
    clear masks is None; it then stops before anything else: the inputs are
    unchanged and no access to them has been made.  (No call modifies the
    inputs at all.) *)
Theorem compute_ndvi_anomaly_assertion
    (median_time : cube → list fval)
    (wofs_classify : Dataset → list bool → result (list fval))
    (baseline_clear_mask : option (list (list bool)))
    (selected_scene_clear_mask : option (list bool))
    (no_data : fval) (st : inputs) :
  (∀ ds m, wofs_classify ds m ≠ Raise AssertionError) →
  let run := compute_ndvi_anomaly median_time wofs_classify baseline_clear_mask
                                  selected_scene_clear_mask no_data st in
  (run.1 = Raise AssertionError
   ↔ baseline_clear_mask = None ∨ selected_scene_clear_mask = None)
  ∧ (run.1 = Raise AssertionError → run.2 = st)
  ∧ baseline_data run.2 = baseline_data st
  ∧ scene_data run.2 = scene_data st.
Proof.
  intros Hwofs run. subst run.
  destruct baseline_clear_mask as [bm|], selected_scene_clear_mask as [sm|];
    try (split; [split; [intros _; auto|done] | done]).
  pose proof (compute_ndvi_anomaly_body_never_asserts median_time wofs_classify
                bm sm no_data Hwofs st) as Hbody.
  split; [|split].
  - split; [done|]. by intros [?|?].
  - done.
  - apply compute_ndvi_anomaly_keeps_inputs.
Qed.

Lemma compute_ndvi_anomaly_assertion_witness :
  (compute_ndvi_anomaly (λ c, [flit 1 2]) (λ _ _, Ok [fzero]) None (Some [true]) nodata
     (mkInputs example_baseline example_scene_data [])).1
  = Raise AssertionError
  ∧ (compute_ndvi_anomaly (λ c, [flit 1 2]) (λ _ _, Ok [fzero]) None (Some [true]) nodata
       (mkInputs example_baseline example_scene_data [])).2
    = mkInputs example_baseline example_scene_data [].
Proof.
  destruct (compute_ndvi_anomaly_assertion (λ c, [flit 1 2]) (λ _ _, Ok [fzero])
              None (Some [true]) nodata
              (mkInputs example_baseline example_scene_data [])
              ltac:(discriminate))
    as (Hiff & Hstop & _).
  pose proof (proj2 Hiff (or_introl eq_refl)) as Hraise.
  split; [exact Hraise | exact (Hstop Hraise)].
Defined.

(** ** Sums over time *)

Lemma fadd_comm (x y : fval) : fadd x y = fadd y x.
Proof. destruct x, y; simpl; try done. f_equal. ring. Qed.



Section GridSums.
Context (npix : nat).

Let add : list fval → list fval → list fval := zip_with fadd.

Lemma grid_add_comm (a b : list fval) : add a b = add b a.
Proof.
  unfold add. revert b. induction a as [|x a IH]; intros [|y b]; simpl; try done.
  by rewrite fadd_comm, IH.
Qed.



Lemma grid_add_length (a b : list fval) : (length (add a b) ≤ length a)%nat.
Proof. unfold add. rewrite length_zip_with. lia. Qed.


Lemma grid_foldl_length (b : list (list fval)) (acc : list fval) :
  (length (foldl add acc b) ≤ length acc)%nat.
Proof.
  revert acc. induction b as [|x b IH]; intros acc; simpl; [lia|].
  pose proof (IH (add acc x)). pose proof (grid_add_length acc x). lia.
Qed.

Lemma sum_time_length (a : cube) : (length (sum_time npix a) ≤ npix)%nat.
Proof.
  unfold sum_time. etrans; [apply grid_foldl_length|].
  by rewrite length_replicate.
Qed.




End GridSums.

(** ** Incremental aggregation *)

Lemma nan_fill_eq (a : list fval) :
  mask_fill (isnan <$> a) a fzero = Ok (nan_to_zero <$> a).
Proof. by rewrite mask_fill_self. Qed.

Lemma iterative_first (part : TimeDataset) (no_data : fval) (key : string) (data : cube)
    (rest : list (string * cube)) :
  td_vars part = (key, data) :: rest →
  perform_timeseries_analysis_iterative part None no_data
  = Ok (product_of (latlon_coords part)
          (processed_data_sum (td_npix part) no_data data)
          (clean_data_sum (td_npix part) no_data data)).
Proof.
  intros Hvars. unfold perform_timeseries_analysis_iterative. rewrite Hvars.
  by rewrite nan_fill_eq.
Qed.

Section Totals.
Context (coords : Coords) (normalized total_data total_clean v : list fval).

Let product : Dataset :=
  mkDataset coords [("normalized_data"%string, normalized);
                    ("total_data"%string, total_data);
                    ("total_clean"%string, total_clean)].

Lemma totals_getitem_data : ds_getitem product "total_data" = Ok total_data.
Proof. reflexivity. Qed.

Lemma totals_getitem_clean : ds_getitem product "total_clean" = Ok total_clean.
Proof. reflexivity. Qed.

Lemma totals_setitem_data :
  ds_setitem product "total_data" v
  = mkDataset coords [("normalized_data"%string, normalized);
                      ("total_data"%string, v);
                      ("total_clean"%string, total_clean)].
Proof. reflexivity. Qed.

Lemma totals_setitem_clean :
  ds_setitem product "total_clean" v
  = mkDataset coords [("normalized_data"%string, normalized);
                      ("total_data"%string, total_data);
                      ("total_clean"%string, v)].
Proof. reflexivity. Qed.

Lemma totals_setitem_normalized :
  ds_setitem product "normalized_data" v
  = mkDataset coords [("normalized_data"%string, v);
                      ("total_data"%string, total_data);
                      ("total_clean"%string, total_clean)].
Proof. reflexivity. Qed.

End Totals.

Lemma da_iadd_same (add : fval → fval → fval) (coords : Coords) (a b : list fval) :
  da_iadd add coords a coords b = Ok (zip_with add a b).
Proof. unfold da_iadd. by rewrite decide_True. Qed.

Lemma iterative_next (part : TimeDataset) (no_data : fval) (key : string) (data : cube)
    (rest : list (string * cube)) (total_data total_clean : list fval) :
  td_vars part = (key, data) :: rest →
  perform_timeseries_analysis_iterative
    part (Some (product_of (latlon_coords part) total_data total_clean)) no_data
  = Ok (product_of (latlon_coords part)
          (zip_with fadd total_data (processed_data_sum (td_npix part) no_data data))
          (zip_with fadd total_clean (clean_data_sum (td_npix part) no_data data))).
Proof.
  intros Hvars. unfold perform_timeseries_analysis_iterative. rewrite Hvars.
  unfold product_of.
  rewrite totals_getitem_data. cbn [rbind ds_coords]. rewrite da_iadd_same. cbn [rbind].
  rewrite totals_setitem_data.
  rewrite totals_getitem_clean. cbn [rbind ds_coords]. rewrite da_iadd_same. cbn [rbind].
  rewrite totals_setitem_clean.
  rewrite totals_getitem_data, totals_getitem_clean. cbn [rbind].
  rewrite nan_fill_eq. cbn [rbind]. by rewrite totals_setitem_normalized.
Qed.

Lemma single_shot (ds : TimeDataset) (no_data : fval) (key : string) (data : cube)
    (rest : list (string * cube)) :
  td_vars ds = (key, data) :: rest →
  perform_timeseries_analysis ds no_data
  = Ok (mkDataset (latlon_coords ds)
          [("normalized_data"%string,
            zip_with fdiv (processed_data_sum (td_npix ds) no_data data)
                          (clean_data_sum (td_npix ds) no_data data));
           ("total_data"%string, processed_data_sum (td_npix ds) no_data data);
           ("total_clean"%string, clean_data_sum (td_npix ds) no_data data)]).
Proof. intros Hvars. unfold perform_timeseries_analysis. by rewrite Hvars. Qed.









(** ** The frame of the reducers *)

Lemma preserved_refl (h : heap) : preserved h h.
Proof. by split. Qed.

Lemma preserved_trans (h1 h2 h3 : heap) :
  preserved h1 h2 → preserved h2 h3 → preserved h1 h3.
Proof. intros [Ha Hd] [Ha' Hd']. split; eauto. Qed.

Lemma preserved_alloc_array (h : heap) (v : list fval) :
  preserved h (mkHeap (arrays h ++ [v]) (datasets h)).
Proof.
  split; simpl; [|done]. intros l w Hl. rewrite lookup_app_l; [done|].
  by eapply lookup_lt_Some.
Qed.

Lemma preserved_alloc_dataset (h : heap) (o : dsobj) :
  preserved h (mkHeap (arrays h) (datasets h ++ [o])).
Proof.
  split; simpl; [done|]. intros r o' Hr. rewrite lookup_app_l; [done|].
  by eapply lookup_lt_Some.
Qed.

Lemma mbind_inv {S A B} (c : St S A) (k : A → St S B) (h h' : S) (res : result B) :
  mbind c k h = (res, h') →
  (∃ a h1, c h = (Ok a, h1) ∧ k a h1 = (res, h'))
  ∨ (∃ e, c h = (Raise e, h') ∧ res = Raise e).
Proof.
  unfold mbind. destruct (c h) as [[a|e] h1]; [eauto|].
  intros [= <- <-]. eauto.
Qed.

(** Copying the variables allocates one buffer per variable after the
    existing ones, whatever happens on the way. *)
Lemma copy_vars_frame (vars : list (string * nat)) (h h' : heap)
    (res : result (list (string * nat))) :
  copy_vars vars h = (res, h') →
  preserved h h'
  ∧ datasets h' = datasets h
  ∧ (length (arrays h) ≤ length (arrays h'))%nat
  ∧ ∀ vars', res = Ok vars' →
      Forall (λ kl, (length (arrays h) ≤ kl.2 < length (arrays h'))%nat) vars'.
Proof.
  revert h h' res. induction vars as [|kl vars IH]; intros h h' res; simpl.
  - intros [= <- <-]. split; [apply preserved_refl|]. split; [done|]. split; [done|].
    intros vars' [= <-]. constructor.
  - intros [(v & h1 & Hread & Hrest)|(e & Hread & ->)]%mbind_inv.
    2:{ unfold read_array in Hread. destruct (arrays h !! kl.2); [done|].
        injection Hread as _ <-.
        split; [apply preserved_refl|]. split; [done|]. split; [done|]. done. }
    unfold read_array in Hread. destruct (arrays h !! kl.2); [|done].
    injection Hread as -> <-.
    apply mbind_inv in Hrest as [(l' & h2 & Halloc & Hrest)|(e & Halloc & ->)];
      [|done].
    injection Halloc as <- <-.
    apply mbind_inv in Hrest as [(rest & h3 & Hcopy & Hret)|(e & Hcopy & ->)].
    + injection Hret as <- <-.
      destruct (IH _ _ _ Hcopy) as (Hpres & Hds & Hlen & Hfresh).
      simpl in *. rewrite length_app in *. simpl in *.
      split; [eapply preserved_trans; [apply preserved_alloc_array | exact Hpres]|].
      split; [done|]. split; [lia|].
      intros vars' [= <-]. constructor; simpl; [lia|].
      eapply Forall_impl; [by apply Hfresh|]. simpl. intros ? ?. lia.
    + destruct (IH _ _ _ Hcopy) as (Hpres & Hds & Hlen & Hfresh).
      simpl in *. rewrite length_app in *. simpl in *.
      split; [eapply preserved_trans; [apply preserved_alloc_array | exact Hpres]|].
      split; [done|]. split; [lia|]. done.
Qed.

(** [copy_deep] returns the next free dataset slot, with buffers above the
    old ones, and disturbs nothing. *)
Lemma copy_deep_frame (r : nat) (h h' : heap) (res : result nat) :
  copy_deep r h = (res, h') →
  preserved h h'
  ∧ ∀ out, res = Ok out →
      out = length (datasets h)
      ∧ (length (datasets h) < length (datasets h'))%nat
      ∧ copy_above (length (arrays h)) out h'.
Proof.
  unfold copy_deep.
  intros [(o & h1 & Hget & Hrest)|(e & Hget & ->)]%mbind_inv.
  2:{ unfold get_dataset in Hget. destruct (datasets h !! r); [done|].
      injection Hget as _ <-. split; [apply preserved_refl | done]. }
  unfold get_dataset in Hget. destruct (datasets h !! r); [|done].
  injection Hget as -> <-.
  apply mbind_inv in Hrest as [(vars & h2 & Hcopy & Halloc)|(e & Hcopy & ->)].
  - destruct (copy_vars_frame _ _ _ _ Hcopy) as (Hpres & Hds & Hlen & Hfresh).
    injection Halloc as <- <-.
    split; [eapply preserved_trans; [exact Hpres | apply preserved_alloc_dataset]|].
    intros out [= <-]. split; [by rewrite Hds|]. simpl.
    rewrite length_app. simpl. split; [rewrite Hds; lia|].
    eexists. split.
    + simpl. rewrite Hds. rewrite lookup_app_r by done. by rewrite Nat.sub_diag.
    + simpl. eapply Forall_impl; [by apply Hfresh|]. simpl. intros ? ?. lia.
  - destruct (copy_vars_frame _ _ _ _ Hcopy) as (Hpres & _). split; [exact Hpres | done].
Qed.

(** *** Steps that write only into the copy *)

Lemma writes_above_mret {A} (n0 out : nat) (a : A) : writes_above n0 out (mret a).
Proof. by intros h _. Qed.

Lemma writes_above_mraise {A} (n0 out : nat) (e : exn) :
  writes_above n0 out (mraise (A:=A) e).
Proof. by intros h _. Qed.

Lemma writes_above_lift {A} (n0 out : nat) (r : result A) : writes_above n0 out (lift r).
Proof. by intros h _. Qed.

Lemma writes_above_mbind {A B} (n0 out : nat) (c : M A) (k : A → M B) :
  writes_above n0 out c → (∀ a, writes_above n0 out (k a)) →
  writes_above n0 out (mbind c k).
Proof.
  intros Hc Hk h Hh. unfold mbind. destruct (Hc h Hh) as [Hds Harr].
  destruct (c h) as [[a|e] h1]; simpl in *; [|done].
  assert (Hh1 : copy_above n0 out h1) by (unfold copy_above in *; by rewrite Hds).
  destruct (Hk a h1 Hh1) as [Hds' Harr']. split; [congruence|].
  intros l Hl. rewrite Harr', Harr; done.
Qed.

Lemma writes_above_get_dataset (n0 out r : nat) : writes_above n0 out (get_dataset r).
Proof. intros h _. unfold get_dataset. by destruct (datasets h !! r). Qed.

Lemma writes_above_read_array (n0 out l : nat) : writes_above n0 out (read_array l).
Proof. intros h _. unfold read_array. by destruct (arrays h !! l). Qed.

Lemma writes_above_ds_values (n0 out r : nat) (key : string) :
  writes_above n0 out (ds_values r key).
Proof.
  apply writes_above_mbind; [apply writes_above_get_dataset|]. intros o.
  destruct (assoc key (o_vars o)); [apply writes_above_read_array | apply writes_above_mraise].
Qed.

Lemma writes_above_ds_attr_values (n0 out r : nat) (name : string) :
  writes_above n0 out (ds_attr_values r name).
Proof.
  apply writes_above_mbind; [apply writes_above_get_dataset|]. intros o.
  destruct (assoc name (o_vars o)); [apply writes_above_read_array | apply writes_above_mraise].
Qed.

Lemma writes_above_ds_keys (n0 out r : nat) : writes_above n0 out (ds_keys r).
Proof.
  apply writes_above_mbind; [apply writes_above_get_dataset|]. intros o.
  apply writes_above_mret.
Qed.

(** The one write of the reducers: into a buffer of the copy. *)
Lemma writes_above_ds_write (n0 out : nat) (key : string) (v : list fval) :
  writes_above n0 out (ds_write out key v).
Proof.
  intros h (o & Ho & Hvars). unfold ds_write, mbind, get_dataset. rewrite Ho.
  destruct (assoc key (o_vars o)) as [l|] eqn:Hl; [|done].
  apply assoc_elem_of in Hl. rewrite Forall_forall in Hvars. apply Hvars in Hl.
  unfold write_array. destruct (arrays h !! l); [|done]. simpl. split; [done|].
  intros l' Hl'. apply list_lookup_insert_ne. simpl in Hl. lia.
Qed.

Lemma writes_above_for_each {A} (n0 out : nat) (l : list A) (body : A → M ()) :
  (∀ x, writes_above n0 out (body x)) → writes_above n0 out (for_each l body).
Proof.
  intros Hbody. induction l as [|x l IH]; simpl.
  - apply writes_above_mret.
  - apply writes_above_mbind; [apply Hbody | by intros _].
Qed.

Ltac writes_above_step :=
  first
    [ apply writes_above_ds_values
    | apply writes_above_ds_attr_values
    | apply writes_above_ds_keys
    | apply writes_above_ds_write
    | apply writes_above_for_each; intros ?
    | apply writes_above_mret
    | apply writes_above_lift
    | apply writes_above_mraise
    | apply writes_above_mbind; [|intros ?] ].

(** *** From the steps to the reducers *)

Lemma returns_only_mret {A} (out : A) : returns_only out (mret out).
Proof. intros h res h' [= <- <-] o [= <-]. done. Qed.

Lemma returns_only_mbind {A B} (out : B) (c : M A) (k : A → M B) :
  (∀ a, returns_only out (k a)) → returns_only out (mbind c k).
Proof.
  intros Hk h res h' [(a & h1 & _ & Hrest)|(e & _ & ->)]%mbind_inv; [|done].
  by eapply Hk.
Qed.

(** A reducer past its [None] test: deep-copy [r], work on the copy, return
    the copy. *)
Lemma copy_then_frame (r : nat) (k : nat → M nat) (h h' : heap) (res : result nat) :
  (∀ out, writes_above (length (arrays h)) out (k out)) →
  (∀ out, returns_only out (k out)) →
  mbind (copy_deep r) k h = (res, h') →
  preserved h h' ∧ ∀ out, res = Ok out → fresh_in h h' out.
Proof.
  intros Hwrites Hret [(out & h1 & Hcopy & Hrest)|(e & Hcopy & ->)]%mbind_inv.
  2:{ apply copy_deep_frame in Hcopy as [Hpres _]. done. }
  apply copy_deep_frame in Hcopy as [[Harr Hds] Hout].
  destruct (Hout out eq_refl) as (-> & Hlen & Habove).
  pose proof (Hwrites _ h1 Habove) as Hsafe. rewrite Hrest in Hsafe. simpl in Hsafe.
  destruct Hsafe as [Hds' Harr'].
  split.
  - split.
    + intros l v Hl. rewrite Harr' by (by eapply lookup_lt_Some). by apply Harr.
    + intros r' o Hr'. rewrite Hds'. by apply Hds.
  - intros out' Hres. rewrite (Hret _ _ _ _ Hrest _ Hres).
    split; [done|]. destruct Habove as (o & Ho & Hvars).
    exists o. by rewrite Hds'.
Qed.

Lemma copy_only_frame (r : nat) (h h' : heap) (res : result nat) :
  copy_deep r h = (res, h') →
  preserved h h' ∧ ∀ out, res = Ok out → fresh_in h h' out.
Proof.
  intros Hcopy. apply copy_deep_frame in Hcopy as [Hpres Hout].
  split; [done|]. intros out Hres. destruct (Hout out Hres) as (-> & Hlen & o & Ho & Hvars).
  split; [done|]. by exists o.
Qed.

Lemma valid_ref_lt (h : heap) (r : nat) : valid_ref h r → (r < length (datasets h))%nat.
Proof. intros (o & Ho & _). by eapply lookup_lt_Some. Qed.

(** A valid reference denotes a value, and the same one in any heap that
    preserves the old objects and buffers. *)
Lemma ds_value_preserved (h h' : heap) (r : nat) :
  preserved h h' → valid_ref h r →
  ds_value h' r = ds_value h r ∧ is_Some (ds_value h r).
Proof.
  intros [Harr Hds] (o & Ho & _ & Hvars). unfold ds_value.
  rewrite Ho, (Hds _ _ Ho). simpl.
  assert (Hsome : is_Some (mapM (λ kl : string * nat, v ← arrays h !! kl.2; Some (kl.1, v))
                                (o_vars o))).
  { apply mapM_is_Some_2. eapply Forall_impl; [exact Hvars|].
    intros kl [v Hv]. simpl. rewrite Hv. by eexists. }
  split.
  - f_equal. apply Forall_mapM_ext. eapply Forall_impl; [exact Hvars|].
    intros kl [v Hv]. by rewrite Hv, (Harr _ _ Hv).
  - destruct Hsome as [vars ->]. by eexists.
Qed.

(** The frame property follows for every reducer of the shape "copy, then
    work on the copy". *)
Lemma leaves_arguments_alone_intro (reducer : nat → option nat → M nat) :
  (∀ h d di res h', reducer d di h = (res, h') →
     preserved h h' ∧ ∀ out, res = Ok out → fresh_in h h' out) →
  leaves_arguments_alone reducer.
Proof.
  intros Hframe h d di res h'. subst res h'.
  destruct (reducer d di h) as [res h'] eqn:Hrun. simpl.
  destruct (Hframe _ _ _ _ _ Hrun) as [Hpres Hfresh].
  split; [done|]. split; [done|].
  intros Hd Hdi.
  destruct (ds_value_preserved _ _ _ Hpres Hd) as [Hsame Hsome].
  split; [done|]. split; [done|]. split.
  - intros r ->. by apply ds_value_preserved.
  - intros out Hres. destruct (Hfresh out Hres) as [Hout _].
    apply valid_ref_lt in Hd. split; [lia|].
    intros ->. simpl in Hdi. apply valid_ref_lt in Hdi. lia.
Qed.

Lemma fill_nodata_frame : leaves_arguments_alone fill_nodata.
Proof.
  apply leaves_arguments_alone_intro. intros h d [i|] res h' Hrun.
  - unfold fill_nodata in Hrun. eapply copy_then_frame; [| |exact Hrun].
    + intros out. unfold fill_nodata_key. repeat writes_above_step.
    + intros out. repeat (apply returns_only_mbind; intros ?). apply returns_only_mret.
  - by apply copy_only_frame in Hrun.
Qed.

Lemma extreme_value_frame (cmp : fval → fval → bool) :
  leaves_arguments_alone (extreme_value cmp).
Proof.
  apply leaves_arguments_alone_intro. intros h d [i|] res h' Hrun.
  - unfold extreme_value in Hrun. eapply copy_then_frame; [| |exact Hrun].
    + intros out. unfold ndvi_mask. repeat writes_above_step.
    + intros out. repeat (apply returns_only_mbind; intros ?). apply returns_only_mret.
  - by apply copy_only_frame in Hrun.
Qed.

Lemma addition_frame : leaves_arguments_alone addition.
Proof.
  apply leaves_arguments_alone_intro. intros h d [i|] res h' Hrun.
  - unfold addition in Hrun. eapply copy_then_frame; [| |exact Hrun].
    + intros out. unfold ds_set_values. repeat writes_above_step.
      case_decide; repeat writes_above_step.
    + intros out. repeat (apply returns_only_mbind; intros ?). apply returns_only_mret.
  - by apply copy_only_frame in Hrun.
Qed.

(** C6.  [fill_nodata], [max_value], [min_value] and [addition] leave every
    object and buffer that existed before the call unchanged (whether they
    return or raise), so both arguments hold the same values afterwards; the
    dataset they return is a new object on new buffers, distinct from both
    arguments. *)
Theorem reducers_leave_arguments_alone :
  leaves_arguments_alone fill_nodata
  ∧ leaves_arguments_alone max_value
  ∧ leaves_arguments_alone min_value
  ∧ leaves_arguments_alone addition.
Proof.
  split; [apply fill_nodata_frame|].
  split; [apply extreme_value_frame|].
  split; [apply extreme_value_frame | apply addition_frame].
Qed.

Lemma reducers_leave_arguments_alone_witness :
  (fill_nodata 0%nat (Some 1%nat) example_heap).1 = Ok 2%nat
  ∧ ds_value (fill_nodata 0%nat (Some 1%nat) example_heap).2 1%nat
    = ds_value example_heap 1%nat
  ∧ ds_value (fill_nodata 0%nat (Some 1%nat) example_heap).2 0%nat
    = ds_value example_heap 0%nat.
Proof.
  destruct reducers_leave_arguments_alone as [Hfill _].
  destruct (Hfill example_heap 0%nat (Some 1%nat)) as (_ & _ & Hargs).
  destruct Hargs as (Hd & _ & Hi & _).
  - exists (mkObj [("x"%string, [0%Qc; 1%Qc])] [("red"%string, 0%nat)]).
    split; [reflexivity|]. split; [apply NoDup_singleton|].
    repeat constructor. by eexists.
  - exists (mkObj [("x"%string, [0%Qc; 1%Qc])] [("red"%string, 1%nat)]).
    split; [reflexivity|]. split; [apply NoDup_singleton|].
    repeat constructor. by eexists.
  - split; [reflexivity|]. split; [exact (proj1 (Hi 1%nat eq_refl)) | exact Hd].
Defined.

(** ** What [fill_nodata] computes *)

Lemma mbind_run {S A B} (c : St S A) (k : A → St S B) (h h1 : S) (a : A) :
  c h = (Ok a, h1) → mbind c k h = k a h1.
Proof. intros Hc. unfold mbind. by rewrite Hc. Qed.

Lemma ds_values_run (h : heap) (r l : nat) (key : string) (o : dsobj) (v : list fval) :
  datasets h !! r = Some o → assoc key (o_vars o) = Some l → arrays h !! l = Some v →
  ds_values r key h = (Ok v, h).
Proof.
  intros Ho Hl Hv. unfold ds_values, mbind, get_dataset, read_array.
  by rewrite Ho, Hl, Hv.
Qed.

Lemma ds_write_run (h : heap) (r l : nat) (key : string) (o : dsobj) (old v : list fval) :
  datasets h !! r = Some o → assoc key (o_vars o) = Some l → arrays h !! l = Some old →
  ds_write r key v h = (Ok (), mkHeap (<[l := v]> (arrays h)) (datasets h)).
Proof.
  intros Ho Hl Hv. unfold ds_write, mbind, get_dataset, write_array.
  by rewrite Ho, Hl, Hv.
Qed.

Lemma ds_var_inv (h : heap) (r : nat) (key : string) (v : list fval) :
  ds_var h r key = Some v →
  ∃ o l, datasets h !! r = Some o ∧ assoc key (o_vars o) = Some l ∧ arrays h !! l = Some v.
Proof.
  unfold ds_var. destruct (datasets h !! r) as [o|]; [|done]. simpl.
  destruct (assoc key (o_vars o)) as [l|] eqn:Hl; [|done]. simpl.
  intros Hv. by exists o, l.
Qed.

Lemma copy_vars_spec (vars : list (string * nat)) (contents : list (list fval)) (h : heap) :
  Forall2 (λ kl v, arrays h !! kl.2 = Some v) vars contents →
  copy_vars vars h
  = (Ok (copied_vars (length (arrays h)) vars), mkHeap (arrays h ++ contents) (datasets h)).
Proof.
  intros Hall. revert h Hall. revert contents.
  induction vars as [|kl vars IH]; intros contents h Hall.
  - inversion Hall; subst. simpl. rewrite app_nil_r. by destruct h.
  - inversion Hall as [|? v ? contents' Hv Hrest]; subst.
    cbn [copy_vars]. rewrite (mbind_run _ _ h h v) by (unfold read_array; by rewrite Hv).
    rewrite (mbind_run _ _ h (mkHeap (arrays h ++ [v]) (datasets h)) (length (arrays h)))
      by done.
    assert (Hrest1 : Forall2 (λ kl' w, arrays (mkHeap (arrays h ++ [v]) (datasets h)) !! kl'.2
                                       = Some w) vars contents').
    { eapply Forall2_impl; [exact Hrest|]. simpl. intros ? ? ?. by apply lookup_app_l_Some. }
    rewrite (mbind_run _ _ _ _ _ (IH contents' _ Hrest1)).
    simpl. rewrite length_app. simpl. unfold copied_vars, mret. simpl.
    rewrite Nat.add_1_r. by rewrite <- app_assoc.
Qed.

Lemma copy_deep_spec (r : nat) (o : dsobj) (contents : list (list fval)) (h : heap) :
  datasets h !! r = Some o →
  Forall2 (λ kl v, arrays h !! kl.2 = Some v) (o_vars o) contents →
  copy_deep r h
  = (Ok (length (datasets h)),
     mkHeap (arrays h ++ contents)
            (datasets h ++ [mkObj (o_coords o) (copied_vars (length (arrays h)) (o_vars o))])).
Proof.
  intros Ho Hall. unfold copy_deep.
  rewrite (mbind_run _ _ h h o) by (unfold get_dataset; by rewrite Ho).
  by rewrite (mbind_run _ _ _ _ _ (copy_vars_spec _ _ _ Hall)).
Qed.

Lemma valid_ref_contents (h : heap) (r : nat) :
  valid_ref h r →
  ∃ o contents,
    datasets h !! r = Some o
    ∧ NoDup (o_vars o).*1
    ∧ Forall2 (λ kl v, arrays h !! kl.2 = Some v) (o_vars o) contents.
Proof.
  intros (o & Ho & Hnd & Hvars). exists o.
  assert (∃ contents, Forall2 (λ kl v, arrays h !! kl.2 = Some v) (o_vars o) contents)
    as [contents Hc].
  { clear Hnd. induction Hvars as [|kl vars [v Hv] _ [contents IH]].
    - exists []. constructor.
    - exists (v :: contents). by constructor. }
  eauto.
Qed.

Lemma copied_vars_cons (n0 : nat) (kl : string * nat) (vars : list (string * nat)) :
  copied_vars n0 (kl :: vars) = (kl.1, n0) :: copied_vars (S n0) vars.
Proof. done. Qed.

Lemma assoc_copied_vars (n0 j : nat) (vars : list (string * nat)) (key : string) :
  NoDup vars.*1 → vars.*1 !! j = Some key →
  assoc key (copied_vars n0 vars) = Some (n0 + j)%nat.
Proof.
  revert n0 j.
  induction vars as [|kl vars IH]; intros n0 j Hnd Hj; [done|].
  rewrite fmap_cons in Hnd, Hj. apply NoDup_cons in Hnd as [Hnotin Hnd].
  rewrite copied_vars_cons. cbn [assoc fst snd]. destruct j as [|j]; simpl in Hj.
  - injection Hj as <-. rewrite decide_True by done. f_equal. lia.
  - rewrite decide_False.
    + rewrite (IH (S n0) j Hnd Hj). f_equal. lia.
    + intros Heq. apply Hnotin. rewrite Heq. by eapply list_elem_of_lookup_2.
Qed.

Lemma mask_select_ok {A} (m : list bool) (b : list A) :
  length m = length b →
  mask_select m b = Ok (omap (λ p : bool * A, if p.1 then Some p.2 else None) (zip m b)).
Proof. intros Hb. unfold mask_select. by rewrite decide_True. Qed.

Lemma mask_assign_selected {A} (m : list bool) (a b : list A) :
  length m = length a → length m = length b →
  mask_assign m a (omap (λ p : bool * A, if p.1 then Some p.2 else None) (zip m b))
  = Ok (zip_with (λ (k : bool * A) x, if k.1 then k.2 else x) (zip m b) a).
Proof.
  intros Ha Hb. destruct (mask_scatter_select id m a b Ha Hb) as [Hlen Heq].
  rewrite list_fmap_id in Hlen, Heq.
  unfold mask_assign. by rewrite !decide_True, Heq.
Qed.

Lemma fill_array_masked (cur src : list fval) :
  zip_with (λ (k : bool * fval) x, if k.1 then k.2 else x)
           (zip ((λ v, feqb v nodata) <$> cur) src) cur
  = fill_array cur src.
Proof.
  unfold fill_array, fill_value. revert src.
  induction cur as [|c cur IH]; intros [|s src]; simpl; try done.
  by rewrite IH.
Qed.

(** One turn of the loop, on a heap whose copy holds [done ++ cur :: todo]
    above the old buffers. *)
Lemma fill_nodata_key_run (h : heap) (dataset : nat) (oi : dsobj) (key : string)
    (cur src : list fval) (done todo : list (list fval)) (j : nat) :
  (dataset < length (datasets h))%nat →
  ds_var h dataset key = Some src →
  length src = length cur →
  assoc key (copied_vars (length (arrays h)) (o_vars oi)) = Some (length (arrays h) + j)%nat →
  length done = j →
  let obj := mkObj (o_coords oi) (copied_vars (length (arrays h)) (o_vars oi)) in
  fill_nodata_key dataset (length (datasets h)) key
    (mkHeap (arrays h ++ done ++ cur :: todo) (datasets h ++ [obj]))
  = (Ok (),
     mkHeap (arrays h ++ done ++ fill_array cur src :: todo) (datasets h ++ [obj])).
Proof.
  intros Hd Hsrc Hlen Hloc Hj obj.
  apply ds_var_inv in Hsrc as (od & ld & Hod & Hld & Hsrc).
  set (hh := mkHeap (arrays h ++ done ++ cur :: todo) (datasets h ++ [obj])).
  assert (Hout : datasets hh !! length (datasets h) = Some obj).
  { simpl. rewrite lookup_app_r by done. by rewrite Nat.sub_diag. }
  assert (Hcur : arrays hh !! (length (arrays h) + j)%nat = Some cur).
  { simpl. rewrite lookup_app_r by lia.
    replace (length (arrays h) + j - length (arrays h))%nat with j by lia.
    rewrite lookup_app_r by lia. by replace (j - length done)%nat with 0%nat by lia. }
  unfold fill_nodata_key.
  rewrite (mbind_run _ _ hh hh src).
  2:{ eapply ds_values_run; [|exact Hld|].
      - simpl. by apply lookup_app_l_Some.
      - simpl. by apply lookup_app_l_Some. }
  rewrite (mbind_run _ _ hh hh cur) by (by eapply ds_values_run).
  erewrite mbind_run;
    [|unfold lift; rewrite mask_select_ok by (rewrite length_fmap; lia); reflexivity].
  rewrite (mbind_run _ _ hh hh cur) by (by eapply ds_values_run).
  erewrite mbind_run;
    [|unfold lift; rewrite mask_assign_selected by (rewrite length_fmap; lia); reflexivity].
  rewrite (ds_write_run hh _ _ _ _ cur _ Hout Hloc Hcur).
  f_equal. unfold hh. simpl. f_equal. rewrite fill_array_masked.
  rewrite insert_app_r_alt by lia.
  replace (length (arrays h) + j - length (arrays h))%nat with j by lia.
  rewrite insert_app_r_alt by lia.
  by replace (j - length done)%nat with 0%nat by lia.
Qed.

Lemma assoc_lookup {A} (key : string) (v : A) (l : list (string * A)) :
  assoc key l = Some v → ∃ j, l !! j = Some (key, v).
Proof.
  induction l as [|[k w] l IH]; [done|]. simpl. case_decide as Hk; simpl in Hk.
  - intros [= ->]. subst. by exists 0%nat.
  - intros Hv. destruct (IH Hv) as [j Hj]. by exists (S j).
Qed.

Lemma assoc_NoDup_lookup {A} (key : string) (v : A) (l : list (string * A)) (j : nat) :
  NoDup l.*1 → l !! j = Some (key, v) → assoc key l = Some v.
Proof.
  revert j. induction l as [|[k w] l IH]; intros j Hnd Hj; [done|].
  rewrite fmap_cons in Hnd. apply NoDup_cons in Hnd as [Hnotin Hnd].
  simpl. destruct j as [|j]; simpl in Hj.
  - injection Hj as -> ->. by rewrite decide_True.
  - rewrite decide_False; [by eapply IH|].
    simpl. intros ->. apply Hnotin.
    apply list_elem_of_fmap. exists (key, v). split; [done|].
    by eapply list_elem_of_lookup_2.
Qed.

(** The whole loop: every buffer of the copy is filled from the variable of
    the same name in [dataset]. *)
Lemma fill_nodata_loop (h : heap) (dataset : nat) (oi : dsobj)
    (items : list (string * (list fval * list fval)))
    (done : list (list fval)) (kdone : list string) :
  (dataset < length (datasets h))%nat →
  NoDup (o_vars oi).*1 →
  (o_vars oi).*1 = kdone ++ items.*1 →
  length kdone = length done →
  Forall (λ it, ds_var h dataset it.1 = Some it.2.2 ∧ length it.2.2 = length it.2.1) items →
  let obj := mkObj (o_coords oi) (copied_vars (length (arrays h)) (o_vars oi)) in
  for_each items.*1 (fill_nodata_key dataset (length (datasets h)))
    (mkHeap (arrays h ++ done ++ ((λ it, it.2.1) <$> items)) (datasets h ++ [obj]))
  = (Ok (),
     mkHeap (arrays h ++ done ++ ((λ it, fill_array it.2.1 it.2.2) <$> items))
            (datasets h ++ [obj])).
Proof.
  intros Hd Hnd Hkeys Hlen Hitems obj. revert done kdone Hkeys Hlen.
  induction Hitems as [|it items [Hsrc Hsame] Hitems IH]; intros done kdone Hkeys Hlen.
  - done.
  - rewrite !fmap_cons. cbn [for_each].
    erewrite mbind_run.
    2:{ apply (fill_nodata_key_run h dataset oi it.1 it.2.1 it.2.2 done
                 ((λ it, it.2.1) <$> items) (length done)); try done.
        apply assoc_copied_vars; [done|].
        rewrite Hkeys, fmap_cons, <- Hlen. apply list_lookup_middle. done. }
    rewrite !(cons_middle _ done), !app_assoc.
    rewrite <- !(app_assoc (arrays h)).
    apply (IH (done ++ [fill_array it.2.1 it.2.2]) (kdone ++ [it.1])).
    + rewrite Hkeys, fmap_cons. by rewrite <- app_assoc.
    + rewrite !length_app. simpl. lia.
Qed.

(** The variables of a valid dataset, each with its contents and the
    contents of the variable of the same name in an aligned dataset. *)
Lemma aligned_items (h : heap) (dataset intermediate : nat) (oi : dsobj)
    (contents : list (list fval)) :
  datasets h !! intermediate = Some oi →
  NoDup (o_vars oi).*1 →
  Forall2 (λ kl v, arrays h !! kl.2 = Some v) (o_vars oi) contents →
  (∀ key cur, ds_var h intermediate key = Some cur →
     ∃ src, ds_var h dataset key = Some src ∧ length src = length cur) →
  ∃ items : list (string * (list fval * list fval)),
    items.*1 = (o_vars oi).*1
    ∧ (λ it, it.2.1) <$> items = contents
    ∧ Forall (λ it, ds_var h dataset it.1 = Some it.2.2 ∧ length it.2.2 = length it.2.1) items.
Proof.
  intros Hoi Hnd Hall Haligned.
  assert (Hvars : Forall2 (λ kl cur, ∃ src, ds_var h dataset kl.1 = Some src
                                            ∧ length src = length cur)
                          (o_vars oi) contents).
  { apply Forall2_same_length_lookup. split; [by eapply Forall2_length|].
    intros j [k l] cur Hj Hc. simpl. apply Haligned.
    unfold ds_var. rewrite Hoi. simpl.
    rewrite (assoc_NoDup_lookup k l _ j Hnd Hj). simpl.
    by eapply (Forall2_lookup_lr _ _ _ _ _ _ Hall Hj Hc). }
  clear Hall Hnd Hoi Haligned.
  induction Hvars as [|kl cur vars contents (src & Hsrc & Hlen) _ (items & Hk & Hc & Hi)].
  - by exists [].
  - exists ((kl.1, (cur, src)) :: items). rewrite !fmap_cons. simpl.
    split; [by rewrite Hk|]. split; [by rewrite Hc|]. by constructor.
Qed.

Lemma copied_vars_lookup (n0 j : nat) (vars : list (string * nat)) (kl : string * nat) :
  vars !! j = Some kl → copied_vars n0 vars !! j = Some (kl.1, (n0 + j)%nat).
Proof.
  intros Hj. unfold copied_vars. apply lookup_zip_with_Some.
  exists kl.1, (n0 + j)%nat. split; [done|]. split.
  - by rewrite list_lookup_fmap, Hj.
  - apply lookup_seq. split; [done|]. by eapply lookup_lt_Some.
Qed.

Lemma copied_vars_keys (n0 : nat) (vars : list (string * nat)) :
  (copied_vars n0 vars).*1 = vars.*1.
Proof.
  unfold copied_vars. apply fst_zip. rewrite length_fmap, length_seq. done.
Qed.

(** The value of a dataset, and of its deep copy. *)
Lemma ds_value_contents (h : heap) (r : nat) (o : dsobj) (contents : list (list fval)) :
  datasets h !! r = Some o →
  Forall2 (λ kl v, arrays h !! kl.2 = Some v) (o_vars o) contents →
  ds_value h r = Some (mkDataset (o_coords o) (zip (o_vars o).*1 contents)).
Proof.
  intros Ho Hall. unfold ds_value. rewrite Ho. simpl.
  erewrite mapM_Some_2; [done|].
  induction Hall as [|kl v vars contents Hv _ IH]; [constructor|].
  rewrite fmap_cons. constructor; [by rewrite Hv | exact IH].
Qed.

Lemma ds_value_copy (h : heap) (o : dsobj) (contents : list (list fval)) :
  Forall2 (λ kl v, arrays h !! kl.2 = Some v) (o_vars o) contents →
  ds_value (mkHeap (arrays h ++ contents)
              (datasets h ++ [mkObj (o_coords o) (copied_vars (length (arrays h)) (o_vars o))]))
           (length (datasets h))
  = Some (mkDataset (o_coords o) (zip (o_vars o).*1 contents)).
Proof.
  intros Hall.
  erewrite ds_value_contents;
    [ | simpl; rewrite lookup_app_r by done; by rewrite Nat.sub_diag | ].
  - simpl. by rewrite copied_vars_keys.
  - simpl. apply Forall2_same_length_lookup. split.
    + unfold copied_vars. rewrite length_zip_with, length_fmap, length_seq.
      apply Forall2_length in Hall. lia.
    + intros j kl v Hj Hv. rewrite lookup_app_r.
      * destruct (lookup_lt_is_Some_2 (o_vars o) j) as [kl' Hkl'].
        { apply Forall2_length in Hall. rewrite Hall. by eapply lookup_lt_Some. }
        rewrite (copied_vars_lookup _ _ _ _ Hkl') in Hj. injection Hj as <-. simpl.
        by replace (length (arrays h) + j - length (arrays h))%nat with j by lia.
      * unfold copied_vars in Hj. apply lookup_zip_with_Some in Hj
          as (k & l & -> & _ & Hl). apply lookup_seq in Hl as [-> _]. simpl. lia.
Qed.

Lemma ds_keys_run (h : heap) (r : nat) (o : dsobj) :
  datasets h !! r = Some o → ds_keys r h = (Ok (o_vars o).*1, h).
Proof. intros Ho. unfold ds_keys, mbind, get_dataset. by rewrite Ho. Qed.

Lemma fill_array_spec (cur src : list fval) :
  length src = length cur →
  length (fill_array cur src) = length cur
  ∧ ∀ (p : nat) (c s : fval), cur !! p = Some c → src !! p = Some s →
      fill_array cur src !! p = Some (fill_value c s).
Proof.
  intros Hlen. unfold fill_array. split.
  - rewrite length_zip_with. lia.
  - intros p c s Hc Hs. by rewrite lookup_zip_with, Hc, Hs.
Qed.

(** C5.  With [dataset_intermediate] None, [fill_nodata] returns a deep copy
    of [dataset]: a new object on new buffers with the same value.
    Otherwise, for datasets aligned variable by variable, it returns a new
    dataset with the variables (and grid) of [dataset_intermediate] in
    which every pixel of every variable holds [dataset_intermediate]'s
    value when that is not -9999 and [dataset]'s value when it is. *)
Theorem fill_nodata_correct (h : heap) (dataset : nat) :
  valid_ref h dataset →
  (∃ out h',
     fill_nodata dataset None h = (Ok out, h')
     ∧ fresh_in h h' out
     ∧ ds_value h' out = ds_value h dataset
     ∧ is_Some (ds_value h dataset))
  ∧ ∀ intermediate, aligned h dataset intermediate →
      ∃ out h' o_out o_int,
        fill_nodata dataset (Some intermediate) h = (Ok out, h')
        ∧ datasets h !! intermediate = Some o_int
        ∧ datasets h' !! out = Some o_out
        ∧ o_coords o_out = o_coords o_int
        ∧ (o_vars o_out).*1 = (o_vars o_int).*1
        ∧ ∀ key cur src,
            ds_var h intermediate key = Some cur →
            ds_var h dataset key = Some src →
            ∃ res,
              ds_var h' out key = Some res
              ∧ length res = length cur
              ∧ ∀ (p : nat) (c s : fval), cur !! p = Some c → src !! p = Some s →
                  res !! p = Some (fill_value c s).
Proof.
  intros Hvalid. split.
  - destruct (valid_ref_contents _ _ Hvalid) as (o & contents & Ho & Hnd & Hall).
    pose proof (copy_deep_spec _ _ _ _ Ho Hall) as Hcopy.
    do 2 eexists. split; [exact Hcopy|].
    split; [by apply (copy_only_frame _ _ _ _ Hcopy)|].
    rewrite (ds_value_copy _ _ _ Hall), (ds_value_contents _ _ _ _ Ho Hall).
    split; [done | by eexists].
  - intros i [Hi Haligned].
    destruct (valid_ref_contents _ _ Hi) as (oi & contents & Hoi & Hnd & Hall).
    destruct (aligned_items _ _ _ _ _ Hoi Hnd Hall Haligned) as (items & Hkeys & Hcur & Hitems).
    pose proof (valid_ref_lt _ _ Hvalid) as Hlt.
    pose proof (fill_nodata_loop h dataset oi items [] [] Hlt Hnd
                  ltac:(by rewrite Hkeys) eq_refl Hitems) as Hloop.
    cbn zeta in Hloop. rewrite Hcur, !app_nil_l in Hloop.
    set (obj := mkObj (o_coords oi) (copied_vars (length (arrays h)) (o_vars oi))) in *.
    set (filled := (λ it : string * (list fval * list fval), fill_array it.2.1 it.2.2)
                     <$> items) in *.
    exists (length (datasets h)), (mkHeap (arrays h ++ filled) (datasets h ++ [obj])), obj, oi.
    assert (Hobj : (datasets h ++ [obj]) !! length (datasets h) = Some obj)
      by (rewrite lookup_app_r by done; by rewrite Nat.sub_diag).
    split; [|split; [done|]; split; [done|]; split; [done|]; split;
             [apply copied_vars_keys|]].
    + unfold fill_nodata.
      rewrite (mbind_run _ _ _ _ _ (copy_deep_spec _ _ _ _ Hoi Hall)).
      rewrite (mbind_run _ _ _ _ _
                 (ds_keys_run (mkHeap (arrays h ++ contents) (datasets h ++ [obj])) _ _ Hobj)).
      simpl o_vars. rewrite copied_vars_keys, <- Hkeys.
      by rewrite (mbind_run _ _ _ _ _ Hloop).
    + intros key cur src Hkcur Hksrc.
      apply ds_var_inv in Hkcur as (oi' & l & Hoi' & Hl & Hlcur).
      rewrite Hoi in Hoi'. injection Hoi' as <-.
      destruct (assoc_lookup _ _ _ Hl) as [j Hj].
      assert (Hcj : contents !! j = Some cur).
      { destruct (Forall2_lookup_l _ _ _ _ _ Hall Hj) as (v & Hv & Harr).
        simpl in Harr. congruence. }
      assert (Hit : ∃ it, items !! j = Some it ∧ it.1 = key ∧ it.2.1 = cur).
      { rewrite <- Hcur, list_lookup_fmap in Hcj.
        destruct (items !! j) as [it|] eqn:Hitj; [|done]. exists it.
        split; [done|]. split; [|by injection Hcj].
        assert (Hk : items.*1 !! j = Some it.1) by (by rewrite list_lookup_fmap, Hitj).
        rewrite Hkeys, list_lookup_fmap, Hj in Hk. by injection Hk. }
      destruct Hit as (it & Hitj & <- & <-).
      rewrite Forall_lookup in Hitems. destruct (Hitems _ _ Hitj) as [Hsrc Hlen].
      rewrite Hksrc in Hsrc. injection Hsrc as ->.
      exists (fill_array it.2.1 it.2.2). split.
      * unfold ds_var. simpl. rewrite Hobj. simpl.
        rewrite (assoc_copied_vars _ j _ it.1 Hnd) by (by rewrite list_lookup_fmap, Hj).
        simpl. rewrite lookup_app_r by lia.
        replace (length (arrays h) + j - length (arrays h))%nat with j by lia.
        unfold filled. by rewrite list_lookup_fmap, Hitj.
      * by apply fill_array_spec.
Qed.

Lemma example_heap_valid (r : nat) : (r < 2)%nat → valid_ref example_heap r.
Proof.
  intros Hr. destruct r as [|[|r]]; [| |lia].
  - exists (mkObj [("x"%string, [0%Qc; 1%Qc])] [("red"%string, 0%nat)]).
    split; [reflexivity|]. split; [apply NoDup_singleton|].
    repeat constructor. by eexists.
  - exists (mkObj [("x"%string, [0%Qc; 1%Qc])] [("red"%string, 1%nat)]).
    split; [reflexivity|]. split; [apply NoDup_singleton|].
    repeat constructor. by eexists.
Defined.

Lemma example_heap_aligned : aligned example_heap 0%nat 1%nat.
Proof.
  split; [apply example_heap_valid; lia|].
  intros key cur. unfold ds_var. simpl. case_decide as Hkey; simpl in Hkey; [|done].
  subst key. simpl. intros [= <-]. by eexists.
Defined.

Lemma fill_nodata_correct_witness :
  ∃ out h' res,
    fill_nodata 0%nat (Some 1%nat) example_heap = (Ok out, h')
    ∧ ds_var h' out "red" = Some res
    ∧ res !! 0%nat = Some (fill_value nodata (flit 1 1))
    ∧ res !! 1%nat = Some (fill_value (flit 7 1) (flit 2 1)).
Proof.
  destruct (fill_nodata_correct example_heap 0%nat (example_heap_valid 0%nat ltac:(lia)))
    as [_ Hsome].
  destruct (Hsome 1%nat example_heap_aligned)
    as (out & h' & o_out & o_int & Hcall & _ & _ & _ & _ & Hvalues).
  destruct (Hvalues "red"%string [nodata; flit 7 1] [flit 1 1; flit 2 1] eq_refl eq_refl)
    as (res & Hres & _ & Hpix).
  exists out, h', res. split; [exact Hcall|]. split; [exact Hres|].
  split; by apply Hpix.
Defined.

(** * Further properties *)

(** ** [chunks] on its own *)

Lemma ceil_div_nonpos (a b : Z) : 0 ≤ a → b < 0 → ceil_div a b ≤ 0.
Proof.
  intros Ha Hb. unfold ceil_div.
  replace ((- a) `div` b) with (a `div` (- b)).
  - assert (0 ≤ a `div` (- b)) by (apply Z.div_pos; lia). lia.
  - rewrite <- (Z.div_opp_opp a (- b)) by lia. by rewrite Z.opp_involutive.
Qed.

Lemma chunks_neg {A} (l : list A) (n : Z) : n < 0 → chunks l n = Ok [].
Proof.
  intros Hn. unfold chunks, py_range. rewrite decide_False by lia. cbn [rbind].
  rewrite Z.sub_0_r.
  pose proof (ceil_div_nonpos (Z.of_nat (length l)) n ltac:(lia) Hn).
  by replace (Z.to_nat (ceil_div (Z.of_nat (length l)) n)) with 0%nat by lia.
Qed.

(** X1.  [chunks(l, n)] raises ValueError for [n = 0] (whatever [l]) and
    yields nothing for a negative [n].  For a positive [n] it yields
    ceil(len(l) / n) runs, none of them empty and none longer than [n],
    which concatenate back to [l]; in particular an empty list yields no
    run at all. *)
Theorem chunks_spec {A} (l : list A) (n : Z) :
  (n = 0 → chunks l n = Raise ValueError)
  ∧ (n < 0 → chunks l n = Ok [])
  ∧ (0 < n →
       ∃ runs, chunks l n = Ok runs
               ∧ concat runs = l
               ∧ Z.of_nat (length runs) = ceil_div (Z.of_nat (length l)) n
               ∧ Forall (λ run, (0 < length run ≤ Z.to_nat n)%nat) runs).
Proof.
  split; [by intros ->|]. split.
  - apply chunks_neg.
  - intros Hn. eexists. split; [by apply chunks_pos|].
    split; [by apply chunks_concat|]. split.
    + rewrite length_fmap, length_seq.
      pose proof (ceil_div_bounds (Z.of_nat (length l)) n Hn). lia.
    + apply Forall_lookup. intros i run Hrun.
      by apply (chunks_run_length l n Hn i run).
Qed.

(** ** [split_task]: how many time ranges *)



Lemma ceil_div_neg (n tc : Z) : 0 ≤ n → tc < 0 → ceil_div n tc = - (n `div` (- tc)).
Proof.
  intros Hn Htc. unfold ceil_div. f_equal.
  rewrite <- (Z.div_opp_opp n (- tc)) by lia. by rewrite Z.opp_involutive.
Qed.



(** X3.  A negative [time_chunks] never yields a time range: once the
    geographic part has gone through, [split_task] raises the ValueError
    of a zero [range] step when there are fewer than [-time_chunks]
    acquisitions, and otherwise returns an empty list of time ranges, so
    that every acquisition is dropped without an error. *)
Theorem split_task_negative_time_chunks
    (resolution : Qc) (latitude longitude : option extent) (acquisitions : list Z)
    (geo_chunk_size : option Qc) (time_chunks : Z) (reverse_time : bool)
    (lat_ranges lon_ranges : list (option extent)) :
  time_chunks < 0 →
  split_task_geo resolution latitude longitude geo_chunk_size = Ok (lat_ranges, lon_ranges) →
  split_task resolution latitude longitude acquisitions geo_chunk_size
             (Some time_chunks) reverse_time
  = if decide (Z.of_nat (length acquisitions) < - time_chunks)
    then Raise ValueError
    else Ok (lat_ranges, lon_ranges, []).
Proof.
  intros Htc Hgeo. unfold split_task, split_task_time. rewrite Hgeo. cbn [rbind].
  rewrite decide_False by lia. rewrite sorted_length.
  set (n := Z.of_nat (length acquisitions)).
  rewrite (ceil_div_neg n time_chunks) by lia.
  destruct (decide (n < - time_chunks)) as [Hlt|Hge].
  - rewrite Z.div_small by lia. done.
  - assert (0 < n `div` (- time_chunks)) by (apply Z.div_str_pos; lia).
    rewrite chunks_neg by lia. done.
Qed.

Lemma split_task_negative_time_chunks_witness :
  split_task 0%Qc (Some (0%Qc, 1%Qc)) (Some (0%Qc, 1%Qc)) [5; 3; 1; 4; 2] None (Some (-2)) false
  = Ok ([Some (0%Qc, 1%Qc)], [Some (0%Qc, 1%Qc)], []).
Proof.
  exact (split_task_negative_time_chunks 0%Qc (Some (0%Qc, 1%Qc)) (Some (0%Qc, 1%Qc))
           [5; 3; 1; 4; 2] None (-2) false [Some (0%Qc, 1%Qc)] [Some (0%Qc, 1%Qc)]
           ltac:(lia) eq_refl).
Defined.

(** ** [split_task]: the geographic ranges *)

Lemma rbind_ok_inv {A B} (r : result A) (k : A → result B) (b : B) :
  rbind r k = Ok b → ∃ a, r = Ok a ∧ k a = Ok b.
Proof. destruct r as [a|e]; [eauto | done]. Qed.

Lemma split_task_geo_ranges (resolution : Qc) (latitude longitude : option extent)
    (geo_chunk_size : option Qc) (lat_ranges lon_ranges : list (option extent)) :
  split_task_geo resolution latitude longitude geo_chunk_size = Ok (lat_ranges, lon_ranges) →
  ∃ lat lon,
    latitude = Some lat ∧ longitude = Some lon
    ∧ length lat_ranges = length lon_ranges
    ∧ Forall is_Some lat_ranges
    ∧ Forall (λ r, r = Some lon) lon_ranges.
Proof.
  unfold split_task_geo.
  destruct longitude as [lon|], latitude as [lat|]; try done.
  intros Hgeo. exists lat, lon. split; [done|]. split; [done|].
  assert (Ok ([Some lat], [Some lon]) = Ok (lat_ranges, lon_ranges) →
          length lat_ranges = length lon_ranges
          ∧ Forall is_Some lat_ranges ∧ Forall (λ r, r = Some lon) lon_ranges) as Hwhole.
  { intros [= <- <-]. repeat split; by repeat constructor. }
  destruct geo_chunk_size as [gcs|]; [|by apply Hwhole].
  destruct (Qcltb gcs _); [|by apply Hwhole].
  apply rbind_ok_inv in Hgeo as (q & _ & Hgeo).
  apply rbind_ok_inv in Hgeo as (lat_range_size & _ & Hgeo).
  apply rbind_ok_inv in Hgeo as (n & _ & Hgeo).
  apply rbind_ok_inv in Hgeo as (idx & _ & [= <- <-]).
  rewrite !length_fmap. split; [done|].
  split; apply Forall_fmap, Forall_true; intros i; simpl; eauto.
Qed.

(** X4.  [split_task] never hands back a [None] range.  Leaving
    [latitude] or [longitude] out raises TypeError, because both are
    subscripted before they are tested, so the branch that would return
    [[None]] is never taken; and whenever the call returns, both arguments
    were given, there are as many latitude ranges as longitude ranges,
    every latitude range is a pair and every longitude range is the whole
    [longitude] extent. *)
Theorem split_task_never_returns_none_ranges
    (resolution : Qc) (latitude longitude : option extent) (acquisitions : list Z)
    (geo_chunk_size : option Qc) (time_chunks : option Z) (reverse_time : bool) :
  (latitude = None ∨ longitude = None →
   split_task resolution latitude longitude acquisitions geo_chunk_size time_chunks
              reverse_time
   = Raise TypeError)
  ∧ ∀ lat_ranges lon_ranges time_ranges,
      split_task resolution latitude longitude acquisitions geo_chunk_size time_chunks
                 reverse_time
      = Ok (lat_ranges, lon_ranges, time_ranges) →
      ∃ lat lon,
        latitude = Some lat ∧ longitude = Some lon
        ∧ length lat_ranges = length lon_ranges
        ∧ Forall is_Some lat_ranges
        ∧ Forall (λ r, r = Some lon) lon_ranges.
Proof.
  split.
  - unfold split_task, split_task_geo.
    intros [-> | ->]; [by destruct longitude | done].
  - intros lat_ranges lon_ranges time_ranges Hcall. unfold split_task in Hcall.
    apply rbind_ok_inv in Hcall as ([lats lons] & Hgeo & Hcall).
    apply rbind_ok_inv in Hcall as (times & _ & [= <- <- <-]).
    by apply (split_task_geo_ranges resolution _ _ geo_chunk_size).
Qed.


Lemma Qcceil_nonpos (x : Qc) : (x ≤ 0)%Qc → Qcceil x ≤ 0.
Proof.
  intros Hx. unfold Qcceil.
  assert (0 ≤ Qfloor (- x)%Qc); [|lia].
  change 0 with (Qfloor 0). apply Qfloor_resp_le.
  unfold Qcle in Hx. change (this 0%Qc) with 0%Q in Hx.
  cbn [this Qcopp Q2Qc]. rewrite Qred_correct. lra.
Qed.

Lemma Qcceil_small (x : Qc) : (-1 < x)%Qc → (x ≤ 0)%Qc → Qcceil x = 0.
Proof.
  intros H1 H0. pose proof (Qcceil_nonpos x H0).
  unfold Qcceil in *.
  pose proof (Qfloor_le (- x)%Qc) as Hle.
  unfold Qclt, Qcle in *. change (this 0%Qc) with 0%Q in *.
  change (this (-1)%Qc) with (-1 # 1)%Q in *.
  cbn [this Qcopp Q2Qc] in *. pose proof (Qred_correct (- x)) as Hred.
  assert (Qfloor (Qred (- x)) < 1); [|lia].
  rewrite Zlt_Qlt.
  eapply Qle_lt_trans; [apply Hle|]. change (inject_Z 1) with 1%Q. rewrite Hred. lra.
Qed.

Lemma Qcceil_le_m1 (x : Qc) : (x ≤ -1)%Qc → Qcceil x ≤ -1.
Proof.
  intros Hx. unfold Qcceil.
  assert (1 ≤ Qfloor (- x)%Qc); [|lia].
  change 1 with (Qfloor 1). apply Qfloor_resp_le.
  unfold Qcle in Hx. change (this (-1)%Qc) with (-1 # 1)%Q in Hx.
  cbn [this Qcopp Q2Qc]. rewrite Qred_correct. lra.
Qed.






(** ** [generate_time_ranges] *)

Lemma sorted_pair_min_max (a b : Z) : sorted_pair a b = (a `min` b, a `max` b).
Proof.
  unfold sorted_pair, sorted.
  cbv [merge_sort merge_sort_aux merge_stack_flatten merge_list_to_stack list_merge].
  destruct (decide (a ≤ b)); simpl; f_equal; lia.
Qed.

Lemma py_getitem_nonneg {A} (l : list A) (i : nat) (a : A) :
  l !! i = Some a → py_getitem l (Z.of_nat i) = Ok a.
Proof.
  intros Hi. pose proof (lookup_lt_Some _ _ _ Hi) as Hlt.
  unfold py_getitem. repeat case_decide; try lia. by rewrite Nat2Z.id, Hi.
Qed.

Lemma py_getitem_last {A} (l : list A) (a : A) :
  last l = Some a → py_getitem l (-1) = Ok a.
Proof.
  intros Hlast. rewrite last_lookup in Hlast.
  pose proof (lookup_lt_Some _ _ _ Hlast) as Hlt.
  unfold py_getitem. repeat case_decide; try lia.
  replace (Z.to_nat (Z.of_nat (length l) + -1)) with (pred (length l)) by lia.
  by rewrite Hlast.
Qed.

Lemma py_getitem_below {A} (l : list A) (i : Z) :
  i < - Z.of_nat (length l) → py_getitem l i = Raise IndexError.
Proof.
  intros Hi. unfold py_getitem. repeat case_decide; try lia. done.
Qed.

Lemma py_getitem_raises {A} (l : list A) (i : Z) (e : exn) :
  py_getitem l i = Raise e → e = IndexError.
Proof.
  unfold py_getitem. destruct (decide _); [|congruence].
  destruct (l !! _); congruence.
Qed.

Lemma time_range_at_raises (l : list Z) (reverse_time : bool) (spi : option Z)
    (time_index : Z) (e : exn) :
  time_range_at l reverse_time spi time_index = Raise e → e = IndexError.
Proof.
  unfold time_range_at.
  destruct (py_getitem l time_index) as [first|e1] eqn:Hfirst; cbn [rbind];
    [|intros [= <-]; by eapply py_getitem_raises].
  assert (∀ r : result Z,
            (∀ e', r = Raise e' → e' = IndexError) →
            rbind r (λ end_, Ok (sorted_pair
                                   (if reverse_time then first + one_second else first)
                                   end_)) = Raise e →
            e = IndexError) as Hend.
  { intros [x|e'] Hr; cbn [rbind]; [done | intros [= <-]; by apply Hr]. }
  assert (∀ e', rbind (py_getitem l (-1))
                  (λ last, Ok (if reverse_time then last else last + one_second))
                = Raise e' → e' = IndexError) as Hlast.
  { intros e'. destruct (py_getitem l (-1)) eqn:Hl; cbn [rbind]; [done|].
    intros [= <-]. by eapply py_getitem_raises. }
  destruct spi as [s|]; [|by apply Hend].
  destruct (decide _); apply Hend; [|done].
  intros e'. apply py_getitem_raises.
Qed.

Lemma last_is_Some {A} (l : list A) : l ≠ [] → ∃ a, last l = Some a.
Proof.
  intros Hne. destruct (last l) eqn:Hl; [eauto|]. by apply last_None in Hl.
Qed.

Lemma time_range_at_zero (l : list Z) (reverse_time : bool) :
  l ≠ [] → ∃ time_range, time_range_at l reverse_time (Some 0) 0 = Ok time_range.
Proof.
  intros Hne. destruct (last_is_Some l Hne) as [z Hlast].
  destruct l as [|a l]; [done|].
  unfold time_range_at.
  assert (py_getitem (a :: l) 0 = Ok a) as ->
    by exact (py_getitem_nonneg (a :: l) 0 a eq_refl).
  cbn [rbind].
  rewrite decide_True by (simpl; lia).
  change (0 + 0 - 1) with (-1).
  rewrite (py_getitem_last _ _ Hlast). cbn [rbind]. eauto.
Qed.

Lemma time_range_at_negative (l : list Z) (reverse_time : bool) (s time_index : Z)
    (time_range : Z * Z) :
  s < 0 → time_index ≤ 0 →
  time_range_at l reverse_time (Some s) time_index = Ok time_range →
  - Z.of_nat (length l) ≤ time_index + s - 1.
Proof.
  intros Hs Hidx. unfold time_range_at.
  destruct (py_getitem l time_index); cbn [rbind]; [|done].
  rewrite decide_True by lia.
  destruct (decide (time_index + s - 1 < - Z.of_nat (length l))) as [Hlow|]; [|lia].
  by rewrite (py_getitem_below _ _ Hlow).
Qed.

Lemma generate_time_ranges_from_negative (l : list Z) (reverse_time : bool) (s : Z) :
  l ≠ [] → s < 0 →
  ∀ (demand : nat) (time_index : Z), time_index ≤ 0 →
    let out := generate_time_ranges_from demand l reverse_time (Some s) time_index in
    let bound := 0 `max` (Z.of_nat (length l) + time_index - 1) in
    out.2 ≠ Exhausted
    ∧ Z.of_nat (length out.1) ≤ bound
    ∧ (bound < Z.of_nat demand → out.2 = Failed IndexError).
Proof.
  intros Hne Hs.
  assert (0 < Z.of_nat (length l)) as Hlen by (destruct l; [done | simpl; lia]).
  induction demand as [|demand IH]; intros time_index Hidx; simpl.
  { repeat split; [done | lia | lia]. }
  rewrite decide_True by lia.
  destruct (time_range_at l reverse_time (Some s) time_index) as [r|e] eqn:Hr.
  - pose proof (time_range_at_negative _ _ _ _ _ Hs Hidx Hr) as Hlow.
    specialize (IH (time_index + s) ltac:(lia)). simpl in IH.
    destruct (generate_time_ranges_from demand l reverse_time (Some s) (time_index + s))
      as [rest state].
    simpl in *. destruct IH as (Hstate & Hcount & Hfail).
    repeat split; [done | lia | intros Hd; apply Hfail; lia].
  - apply time_range_at_raises in Hr as ->. simpl.
    repeat split; [done | lia].
Qed.

(** X7.  [slices_per_iteration] must be positive for
    [generate_time_ranges] to finish.  On a non-empty acquisition list a
    value of 0 makes the generator yield one and the same range however
    often it is resumed; a negative value makes it walk backwards from
    the end of the list until an index falls off the front, so that it
    yields fewer ranges than there are acquisitions and then raises
    IndexError. *)
Theorem generate_time_ranges_needs_positive_slices (acquisition_list : list Z)
    (reverse_time : bool) :
  acquisition_list ≠ [] →
  (∃ time_range, ∀ demand,
     generate_time_ranges demand acquisition_list reverse_time (Some 0)
     = (replicate demand time_range, Suspended))
  ∧ (∀ s demand, s < 0 →
       let out := generate_time_ranges demand acquisition_list reverse_time (Some s) in
       out.2 ≠ Exhausted
       ∧ (length out.1 < length acquisition_list)%nat
       ∧ ((length acquisition_list ≤ demand)%nat → out.2 = Failed IndexError)).
Proof.
  intros Hne. split.
  - destruct (time_range_at_zero acquisition_list reverse_time Hne) as [r Hr].
    exists r. unfold generate_time_ranges.
    assert (0 < Z.of_nat (length acquisition_list))
      by (destruct acquisition_list; [done | simpl; lia]).
    induction demand as [|demand IH]; simpl; [done|].
    rewrite decide_True by done. rewrite Hr. simpl. change (0 + 0) with 0. by rewrite IH.
  - intros s demand Hs out.
    assert (0 < Z.of_nat (length acquisition_list))
      by (destruct acquisition_list; [done | simpl; lia]).
    destruct (generate_time_ranges_from_negative acquisition_list reverse_time s Hne Hs
                demand 0 ltac:(lia)) as (Hstate & Hcount & Hfail).
    fold (generate_time_ranges demand acquisition_list reverse_time (Some s)) in *.
    fold out in Hstate, Hcount, Hfail.
    split; [done|]. split; [lia|]. intros Hd. apply Hfail. lia.
Qed.

Lemma generate_time_ranges_needs_positive_slices_witness :
  generate_time_ranges 3 [10; 20; 30] false (Some 0) = ([(10, 30); (10, 30); (10, 30)], Suspended)
  ∧ (generate_time_ranges 3 [10; 20; 30] false (Some (-1))).2 = Failed IndexError.
Proof.
  destruct (generate_time_ranges_needs_positive_slices [10; 20; 30] false ltac:(discriminate))
    as [[r Hzero] Hneg].
  split.
  - rewrite (Hzero 3%nat). specialize (Hzero 1%nat). vm_compute in Hzero.
    injection Hzero as <-. reflexivity.
  - apply (Hneg (-1) 3%nat); simpl; lia.
Defined.

Lemma Sorted_lookup_le (R : relation Z) `{!Reflexive R, !Transitive R}
    (l : list Z) (i j : nat) (a b : Z) :
  Sorted R l → (i ≤ j)%nat → l !! i = Some a → l !! j = Some b → R a b.
Proof.
  intros Hsorted. apply Sorted_StronglySorted in Hsorted; [|done].
  revert i j. induction Hsorted as [|x l Hl IH Hx]; intros i j Hij Hi Hj; [done|].
  destruct i as [|i], j as [|j]; simpl in *; try lia.
  - by simplify_eq.
  - injection Hi as <-. by eapply Forall_lookup_1 in Hx.
  - eapply IH; [|done..]. lia.
Qed.

Lemma time_range_at_positive (l : list Z) (reverse_time : bool) (s : Z) (i : nat)
    (first lst : Z) :
  0 < s → l !! i = Some first → last l = Some lst →
  time_range_at l reverse_time (Some s) (Z.of_nat i)
  = Ok (sorted_pair (if reverse_time then first + one_second else first)
          (match l !! (i + Z.to_nat s - 1)%nat with
           | Some end_ => end_
           | None => if reverse_time then lst else lst + one_second
           end)).
Proof.
  intros Hs Hfirst Hlast. unfold time_range_at.
  rewrite (py_getitem_nonneg _ _ _ Hfirst). cbn [rbind].
  replace (Z.of_nat i + s - 1) with (Z.of_nat (i + Z.to_nat s - 1)) by lia.
  destruct (decide _) as [Hin|Hout].
  - destruct (lookup_lt_is_Some_2 l (i + Z.to_nat s - 1)) as [end_ Hend]; [lia|].
    by rewrite (py_getitem_nonneg _ _ _ Hend), Hend.
  - rewrite (py_getitem_last _ _ Hlast). cbn [rbind].
    by rewrite lookup_ge_None_2 by lia.
Qed.

Lemma generate_time_ranges_from_positive (l : list Z) (reverse_time : bool) (s : Z) :
  0 < s →
  let size := Z.to_nat s in
  let count := Z.to_nat (ceil_div (Z.of_nat (length l)) s) in
  ∀ (m j demand : nat), (j + m)%nat = count → (m < demand)%nat →
    ∃ ranges,
      generate_time_ranges_from demand l reverse_time (Some s) (Z.of_nat (j * size))
      = (ranges, Exhausted)
      ∧ length ranges = m
      ∧ ∀ k range, ranges !! k = Some range →
          time_range_at l reverse_time (Some s) (Z.of_nat ((j + k) * size)) = Ok range.
Proof.
  intros Hs size count.
  pose proof (chunks_count_bounds l s Hs) as [Hlow Hhigh]. fold count size in Hlow, Hhigh.
  induction m as [|m IH]; intros j demand Hj Hdemand;
    (destruct demand as [|demand]; [lia|]); simpl.
  - exists []. rewrite decide_False by nia. done.
  - assert (j * size < length l)%nat as Hidx by nia.
    rewrite decide_True by lia.
    destruct (lookup_lt_is_Some_2 l (j * size) Hidx) as [first Hfirst].
    destruct (last_is_Some l) as [lst Hlast]; [by intros ->|].
    pose proof (time_range_at_positive l reverse_time s _ _ _ Hs Hfirst Hlast) as Hrange.
    rewrite Hrange.
    destruct (IH (S j) demand ltac:(lia) ltac:(lia)) as (rest & Hrest & Hlen & Hat).
    replace (Z.of_nat (j * size) + s) with (Z.of_nat (S j * size)) by lia.
    rewrite Hrest. eexists. split; [done|]. split; [simpl; lia|].
    intros [|k] range Hk; simpl in Hk.
    + injection Hk as <-. by rewrite Nat.add_0_r.
    + replace (j + S k)%nat with (S j + k)%nat by lia. by apply Hat.
Qed.

Lemma time_order_preorder (reverse_time : bool) :
  Reflexive (if reverse_time then flip Z.le else Z.le)
  ∧ Transitive (if reverse_time then flip Z.le else Z.le).
Proof.
  destruct reverse_time; split; unfold flip; intros ?; intros; lia.
Qed.

Lemma time_range_at_covers (l : list Z) (reverse_time : bool) (s : Z) (j : nat)
    (range : Z * Z) :
  0 < s →
  Sorted (if reverse_time then flip Z.le else Z.le) l →
  time_range_at l reverse_time (Some s) (Z.of_nat (j * Z.to_nat s)) = Ok range →
  Forall (λ t, range.1 ≤ t ≤ range.2) (take (Z.to_nat s) (drop (j * Z.to_nat s) l)).
Proof.
  intros Hs Hsorted Hrange.
  destruct (time_order_preorder reverse_time) as [Hrefl Htrans].
  apply Forall_lookup. intros m t Ht.
  apply lookup_take_Some in Ht as [Ht Hm]. rewrite lookup_drop in Ht.
  pose proof (lookup_lt_Some _ _ _ Ht) as Hlt.
  destruct (lookup_lt_is_Some_2 l (j * Z.to_nat s) ltac:(lia)) as [first Hfirst].
  destruct (last_is_Some l) as [lst Hlast]; [by intros ->|].
  rewrite (time_range_at_positive l reverse_time s _ _ _ Hs Hfirst Hlast) in Hrange.
  injection Hrange as <-. rewrite sorted_pair_min_max. cbn [fst snd].
  assert ((if reverse_time then flip Z.le else Z.le) first t) as Hft
    by (apply (Sorted_lookup_le _ l (j * Z.to_nat s) (j * Z.to_nat s + m)); [done | lia | done..]).
  assert (∃ e, (l !! (j * Z.to_nat s + Z.to_nat s - 1)%nat = Some e
                ∨ l !! (j * Z.to_nat s + Z.to_nat s - 1)%nat = None ∧ e = lst)
               ∧ (if reverse_time then flip Z.le else Z.le) t e) as (e & He & Hte).
  { destruct (l !! (j * Z.to_nat s + Z.to_nat s - 1)%nat) as [e|] eqn:He.
    - exists e. split; [by left|].
      apply (Sorted_lookup_le _ l (j * Z.to_nat s + m)
               (j * Z.to_nat s + Z.to_nat s - 1)); [done | lia | done..].
    - exists lst. split; [by right|]. rewrite last_lookup in Hlast.
      apply (Sorted_lookup_le _ l (j * Z.to_nat s + m) (pred (length l)));
        [done | lia | done..]. }
  unfold one_second.
  destruct He as [-> | [-> ->]]; destruct reverse_time; unfold flip in *; lia.
Qed.

Lemma time_range_at_ordered (l : list Z) (reverse_time : bool) (spi : option Z)
    (time_index : Z) (range : Z * Z) :
  time_range_at l reverse_time spi time_index = Ok range → range.1 ≤ range.2.
Proof.
  unfold time_range_at. intros Hrange.
  apply rbind_ok_inv in Hrange as (first & _ & Hrange).
  apply rbind_ok_inv in Hrange as (end_ & _ & [= <-]).
  rewrite sorted_pair_min_max. simpl. lia.
Qed.

(** X6.  For a positive [slices_per_iteration] and an acquisition list in
    the order that [reverse_time] announces (ascending, or descending
    under [reverse_time]), [generate_time_ranges] and [chunks] agree: the
    generator finishes after yielding one range per chunk of
    [chunks(acquisition_list, slices_per_iteration)], each range is an
    ordered pair, and every acquisition of the j-th chunk lies between the
    two ends of the j-th range. *)
Theorem generate_time_ranges_cover_chunks (acquisition_list : list Z)
    (reverse_time : bool) (slices_per_iteration : Z) :
  0 < slices_per_iteration →
  Sorted (if reverse_time then flip Z.le else Z.le) acquisition_list →
  ∃ ranges runs,
    chunks acquisition_list slices_per_iteration = Ok runs
    ∧ (∀ demand, (length runs < demand)%nat →
         generate_time_ranges demand acquisition_list reverse_time
           (Some slices_per_iteration)
         = (ranges, Exhausted))
    ∧ length ranges = length runs
    ∧ ∀ j range run, ranges !! j = Some range → runs !! j = Some run →
        range.1 ≤ range.2 ∧ Forall (λ t, range.1 ≤ t ≤ range.2) run.
Proof.
  intros Hs Hsorted.
  set (count := Z.to_nat (ceil_div (Z.of_nat (length acquisition_list))
                            slices_per_iteration)).
  destruct (generate_time_ranges_from_positive acquisition_list reverse_time _ Hs
              count 0%nat (S count) eq_refl ltac:(lia)) as (ranges & _ & Hlen & Hat).
  exists ranges. eexists. split; [by apply chunks_pos|].
  rewrite length_fmap, length_seq. fold count. split; [|split; [done|]].
  - intros demand Hdemand.
    destruct (generate_time_ranges_from_positive acquisition_list reverse_time _ Hs
                count 0%nat demand eq_refl Hdemand) as (ranges' & Hrun & Hlen' & Hat').
    change (Z.of_nat (0 * Z.to_nat slices_per_iteration)) with 0 in Hrun.
    unfold generate_time_ranges. rewrite Hrun. f_equal.
    apply list_eq_same_length with count; [done..|].
    intros k x y Hk Hx Hy. apply Hat in Hy. apply Hat' in Hx. congruence.
  - intros j range run Hrange Hrun.
    rewrite list_lookup_fmap in Hrun.
    destruct (seq 0 count !! j) as [j'|] eqn:Hj; [|done].
    apply lookup_seq in Hj as [-> _]. injection Hrun as <-.
    apply Hat in Hrange. split.
    + by eapply time_range_at_ordered.
    + by apply (time_range_at_covers _ reverse_time).
Qed.

Lemma generate_time_ranges_cover_chunks_witness :
  ∃ ranges runs,
    chunks [50; 40; 30; 20; 10] 2 = Ok runs
    ∧ generate_time_ranges 4 [50; 40; 30; 20; 10] true (Some 2) = (ranges, Exhausted)
    ∧ length ranges = length runs.
Proof.
  destruct (generate_time_ranges_cover_chunks [50; 40; 30; 20; 10] true 2 ltac:(lia)
              ltac:(repeat constructor; unfold flip; lia))
    as (ranges & runs & Hchunks & Hrun & Hlen & _).
  exists ranges, runs. split; [exact Hchunks|]. split; [|exact Hlen].
  apply Hrun. vm_compute in Hchunks. injection Hchunks as <-. simpl. lia.
Defined.

(** X8.  Without [slices_per_iteration], [generate_time_ranges] yields a
    single range and finishes; for an acquisition list in the order that
    [reverse_time] announces, that range starts at the earliest
    acquisition and ends one second after the latest, so that every
    acquisition lies in the half-open range.  On an empty list the
    generator finishes without yielding, whatever the other arguments. *)
Theorem generate_time_ranges_unsliced (acquisition_list : list Z) (reverse_time : bool) :
  (∀ demand slices_per_iteration,
     generate_time_ranges (S demand) [] reverse_time slices_per_iteration
     = ([], Exhausted))
  ∧ (acquisition_list ≠ [] →
     Sorted (if reverse_time then flip Z.le else Z.le) acquisition_list →
     ∃ earliest latest,
       (∀ demand, (1 < demand)%nat →
          generate_time_ranges demand acquisition_list reverse_time None
          = ([(earliest, latest + one_second)], Exhausted))
       ∧ earliest ∈ acquisition_list ∧ latest ∈ acquisition_list
       ∧ Forall (λ t, earliest ≤ t ≤ latest) acquisition_list).
Proof.
  split; [done|]. intros Hne Hsorted.
  destruct (time_order_preorder reverse_time) as [Hrefl Htrans].
  destruct (last_is_Some acquisition_list Hne) as [lst Hlast].
  destruct acquisition_list as [|first l] eqn:Hl; [done|]. rewrite <- Hl in *.
  assert (acquisition_list !! 0%nat = Some first) as Hfirst by (by rewrite Hl).
  assert (time_range_at acquisition_list reverse_time None 0
          = Ok (sorted_pair (if reverse_time then first + one_second else first)
                            (if reverse_time then lst else lst + one_second))) as Hrange.
  { unfold time_range_at.
    assert (py_getitem acquisition_list 0 = Ok first) as ->
      by exact (py_getitem_nonneg _ _ _ Hfirst).
    cbn [rbind]. by rewrite (py_getitem_last _ _ Hlast). }
  assert (Forall (λ t, (if reverse_time then flip Z.le else Z.le) first t
                       ∧ (if reverse_time then flip Z.le else Z.le) t lst)
            acquisition_list) as Hbetween.
  { apply Forall_lookup. intros m t Ht.
    pose proof (lookup_lt_Some _ _ _ Ht). rewrite last_lookup in Hlast. split.
    - apply (Sorted_lookup_le _ acquisition_list 0 m); [done | lia | done..].
    - apply (Sorted_lookup_le _ acquisition_list m (pred (length acquisition_list)));
        [done | lia | done..]. }
  assert (first ∈ acquisition_list) by (by eapply list_elem_of_lookup_2).
  assert (lst ∈ acquisition_list)
    by (rewrite last_lookup in Hlast; by eapply list_elem_of_lookup_2).
  assert (0 < Z.of_nat (length acquisition_list)) by (rewrite Hl; simpl; lia).
  exists (if reverse_time then lst else first), (if reverse_time then first else lst).
  split; [|split; [by destruct reverse_time | split; [by destruct reverse_time|]]].
  - intros [|[|demand]] Hdemand; [lia..|]. unfold generate_time_ranges. simpl.
    rewrite decide_True by lia. rewrite Hrange.
    rewrite decide_False by lia. rewrite sorted_pair_min_max.
    do 2 f_equal.
    assert (first ∈ acquisition_list) as Hin by done.
    apply (proj1 (Forall_forall _ _) Hbetween) in Hin.
    unfold one_second. destruct reverse_time; unfold flip in *; f_equal; lia.
  - eapply Forall_impl; [exact Hbetween|]. simpl.
    intros t. destruct reverse_time; unfold flip; lia.
Qed.

(** ** The vegetation indices on their own *)





Lemma EVI2_eq (ds : Dataset) (G C L : fval) (normalize : bool) (raw : DataArray) :
  EVI2_raw ds G C L = Ok raw →
  EVI2 ds G C L normalize
  = Ok (mkDataArray (da_coords raw)
          ((λ x, if normalize then EVI_normalize_value (EVI_clamp_value x)
                 else EVI_clamp_value x) <$> da_values raw)).
Proof.
  intros Hraw. unfold EVI2. rewrite Hraw. cbn [rbind].
  rewrite EVI_clamp_eq. cbn [rbind]. destruct normalize; [|done].
  rewrite EVI_normalize_eq. cbn [rbind]. by rewrite <- list_fmap_compose.
Qed.

Lemma EVI_clamp_value_NaN (x : fval) : EVI_clamp_value x = NaN → x = NaN.
Proof.
  destruct (EVI_clamp_value_range x) as [[-> _]|(q & -> & _)]; [done | discriminate].
Qed.

(** X10.  [EVI2] needs only the 'nir' and 'red' bands: on a dataset that
    has them it returns with and without normalisation, on the dataset's
    coordinates, and also where [EVI] raises AttributeError for want of a
    'blue' band.  Pixel by pixel the result is NaN exactly where the raw
    index is NaN; everywhere else, an infinite raw index (a zero
    denominator) included, it is a finite value in [-1, 2.5], and in
    [-1, 1] under normalisation. *)
Theorem EVI2_bounds (ds : Dataset) (G C L : fval) (nir red : list fval) :
  assoc "nir" (data_vars ds) = Some nir →
  assoc "red" (data_vars ds) = Some red →
  (assoc "blue" (data_vars ds) = None →
   ∀ C1 C2 normalize, EVI ds G C1 C2 L normalize = Raise AttributeError)
  ∧ ∃ raw plain normalized,
      EVI2_raw ds G C L = Ok raw
      ∧ EVI2 ds G C L false = Ok plain
      ∧ EVI2 ds G C L true = Ok normalized
      ∧ da_coords plain = ds_coords ds
      ∧ da_coords normalized = ds_coords ds
      ∧ length (da_values raw) = (length nir `min` length red)%nat
      ∧ length (da_values plain) = length (da_values raw)
      ∧ length (da_values normalized) = length (da_values raw)
      ∧ ∀ (i : nat) (x : fval), da_values raw !! i = Some x →
          ∃ c y,
            da_values plain !! i = Some c
            ∧ da_values normalized !! i = Some y
            ∧ (x = NaN → c = NaN ∧ y = NaN)
            ∧ (x ≠ NaN →
               isfinite c = true ∧ fle (flit (-1) 1) c ∧ fle c (Fin q2_5)
               ∧ isfinite y = true ∧ fle (flit (-1) 1) y ∧ fle y fone).
Proof.
  intros Hnir Hred. split.
  { intros Hblue C1 C2 normalize. unfold EVI, EVI_raw, ds_attr.
    by rewrite Hnir, Hred, Hblue. }
  assert (∃ raw, EVI2_raw ds G C L = Ok raw ∧ da_coords raw = ds_coords ds
                 ∧ length (da_values raw) = (length nir `min` length red)%nat)
    as (raw & Hraw & Hcoords & Hlen).
  { unfold EVI2_raw, ds_attr. rewrite Hnir, Hred. cbn [rbind].
    eexists. split; [done|]. split; [done|].
    cbn [da_zip da_map da_values].
    rewrite !length_zip_with, !length_fmap, !length_zip_with, length_fmap. lia. }
  exists raw. eexists. eexists.
  split; [done|]. split; [by apply EVI2_eq|]. split; [by apply EVI2_eq|].
  cbn [da_coords da_values]. rewrite !length_fmap.
  do 5 (split; [done|]).
  intros i x Hx. rewrite !list_lookup_fmap, Hx. cbn [fmap option_fmap option_map].
  eexists. eexists. split; [done|]. split; [done|]. split; [by intros ->|].
  intros Hnan.
  destruct (EVI_clamp_value_range x) as [[-> _]|(q & Hc & Hlo & Hhi)]; [done|].
  rewrite Hc.
  destruct (EVI_normalize_value_range q Hlo Hhi) as (qy & Hy & Hylo & Hyhi & _).
  rewrite Hy. done.
Qed.

Lemma EVI2_bounds_witness :
  ∃ plain,
    EVI2 (mkDataset [("x"%string, [0%Qc; 1%Qc])]
            [("nir"%string, [flit 3 1; flit 1 1]); ("red"%string, [flit 1 1; flit 1 1])])
         (Fin q2_5) (flit 12 5) fone false
    = Ok plain.
Proof.
  destruct (EVI2_bounds
              (mkDataset [("x"%string, [0%Qc; 1%Qc])]
                 [("nir"%string, [flit 3 1; flit 1 1]); ("red"%string, [flit 1 1; flit 1 1])])
              (Fin q2_5) (flit 12 5) fone
              [flit 3 1; flit 1 1] [flit 1 1; flit 1 1] eq_refl eq_refl)
    as (_ & raw & plain & normalized & _ & Hplain & _).
  exists plain. exact Hplain.
Defined.

(** ** The aggregation product, pixel by pixel *)

Lemma foldl_zip_with_lookup (f : fval → fval → fval) (rows : list (list fval))
    (acc : list fval) (p : nat) (x : fval) :
  Forall (λ g, length g = length acc) rows →
  acc !! p = Some x →
  foldl (zip_with f) acc rows !! p
  = Some (foldl f x ((λ g, default NaN (g !! p)) <$> rows)).
Proof.
  intros Hrows. revert acc x Hrows.
  induction rows as [|g rows IH]; intros acc x Hrows Hx; [done|].
  inversion Hrows as [|? ? Hg Hrest]; subst. simpl.
  destruct (lookup_lt_is_Some_2 g p) as [y Hy];
    [rewrite Hg; by eapply lookup_lt_Some|].
  apply IH.
  - rewrite length_zip_with, Hg, Nat.min_id. done.
  - by rewrite lookup_zip_with, Hx, Hy.
Qed.

Lemma sum_time_lookup (npix : nat) (a : cube) (p : nat) :
  Forall (λ g, length g = npix) a → (p < npix)%nat →
  sum_time npix a !! p
  = Some (foldl fadd fzero ((λ g, nan_to_zero (default NaN (g !! p))) <$> a)).
Proof.
  intros Ha Hp. unfold sum_time.
  rewrite (foldl_zip_with_lookup fadd _ _ p fzero).
  - rewrite <- list_fmap_compose. do 2 f_equal. apply list_fmap_ext.
    intros i g Hg. simpl. rewrite list_lookup_fmap.
    destruct (lookup_lt_is_Some_2 g p) as [y Hy]; [|by rewrite Hy].
    rewrite Forall_lookup in Ha. by rewrite (Ha _ _ Hg).
  - rewrite length_replicate. apply Forall_fmap.
    eapply Forall_impl; [exact Ha|]. simpl. intros g Hg. by rewrite length_fmap.
  - by apply lookup_replicate_2.
Qed.

Lemma clean_cube_rows (no_data : fval) (data : cube) :
  cube_fill (cube_eq no_data data) fzero (cube_fill (cube_ne no_data data) fone data)
  = fmap (M:=list) (fmap (M:=list) (λ v, if feqb v no_data then fzero else fone)) data.
Proof.
  unfold cube_fill, cube_eq, cube_ne.
  induction data as [|g data IH]; [done|].
  rewrite !fmap_cons. cbn [zip_with]. rewrite IH. f_equal.
  clear IH. induction g as [|v g IHg]; [done|].
  rewrite !fmap_cons. cbn [zip_with]. rewrite IHg.
  by destruct (feqb v no_data).
Qed.

Lemma processed_cube_rows (no_data : fval) (data : cube) :
  cube_fill (cube_eq no_data data) fzero data
  = fmap (M:=list) (fmap (M:=list) (λ v, if feqb v no_data then fzero else v)) data.
Proof.
  unfold cube_fill, cube_eq.
  induction data as [|g data IH]; [done|].
  rewrite !fmap_cons. cbn [zip_with]. rewrite IH. f_equal.
  clear IH. induction g as [|v g IHg]; [done|].
  rewrite !fmap_cons. cbn [zip_with]. by rewrite IHg.
Qed.

Lemma fcount_S (n : nat) : fadd (fcount n) fone = fcount (S n).
Proof.
  unfold fcount, fone. cbn [fadd]. f_equal. apply Qc_is_canon.
  cbn [this Qcplus Q2Qc]. rewrite !Qred_correct.
  rewrite Nat2Z.inj_succ. unfold Z.succ. by rewrite inject_Z_plus.
Qed.

Lemma fcount_0 (n : nat) : fadd (fcount n) fzero = fcount n.
Proof.
  unfold fcount, fzero. cbn [fadd]. f_equal. apply Qcplus_0_r.
Qed.

Lemma clean_data_sum_lookup (npix : nat) (no_data : fval) (data : cube) (p : nat) :
  Forall (λ g, length g = npix) data → (p < npix)%nat →
  clean_data_sum npix no_data data !! p = Some (fcount (clean_observations no_data data p)).
Proof.
  intros Hdata Hp. unfold clean_data_sum. rewrite clean_cube_rows.
  rewrite sum_time_lookup; [|by repeat (apply Forall_fmap; eapply Forall_impl; [exact Hdata|];
                                        simpl; intros g Hg; by rewrite length_fmap) | done].
  f_equal. rewrite <- list_fmap_compose. unfold clean_observations, count_true.
  change fzero with (fcount 0) at 1.
  assert (∀ n, foldl fadd (fcount n)
                 ((λ g, nan_to_zero (default NaN (g !! p))) ∘
                    fmap (M:=list) (λ v, if feqb v no_data then fzero else fone) <$> data)
               = fcount (n + length (filter (λ b, b = true)
                               ((λ g : list fval,
                                   match g !! p with
                                   | Some v => negb (feqb v no_data)
                                   | None => false
                                   end) <$> data)))) as Hcount; [|apply (Hcount 0%nat)].
  induction Hdata as [|g data Hg Hdata IH]; intros n.
  - simpl. by rewrite Nat.add_0_r.
  - destruct (lookup_lt_is_Some_2 g p) as [v Hv]; [by rewrite Hg|].
    rewrite !fmap_cons. cbn [foldl]. rewrite Hv.
    assert (((λ g, nan_to_zero (default NaN (g !! p)))
               ∘ fmap (M:=list) (λ v, if feqb v no_data then fzero else fone)) g
            = if feqb v no_data then fzero else fone) as ->.
    { unfold compose. rewrite list_lookup_fmap, Hv. simpl. by destruct (feqb v no_data). }
    destruct (feqb v no_data); cbn [negb].
    + rewrite fcount_0, IH. by rewrite filter_cons_False by done.
    + rewrite fcount_S, IH. rewrite filter_cons_True by done. simpl. f_equal. lia.
Qed.

Lemma processed_data_sum_lookup (npix : nat) (no_data : fval) (data : cube) (p : nat) :
  Forall (λ g, length g = npix) data → (p < npix)%nat →
  processed_data_sum npix no_data data !! p
  = Some (foldl fadd fzero (observed_values no_data data p)).
Proof.
  intros Hdata Hp. unfold processed_data_sum. rewrite processed_cube_rows.
  rewrite sum_time_lookup; [|by repeat (apply Forall_fmap; eapply Forall_impl; [exact Hdata|];
                                        simpl; intros g Hg; by rewrite length_fmap) | done].
  do 2 f_equal. rewrite <- list_fmap_compose. unfold observed_values.
  apply list_fmap_ext. intros i g Hg. unfold compose.
  rewrite list_lookup_fmap. destruct (g !! p) as [v|] eqn:Hv; simpl.
  - by destruct (feqb v no_data).
  - rewrite Forall_lookup in Hdata. apply Hdata in Hg.
    apply lookup_ge_None_1 in Hv. lia.
Qed.

Lemma totals_pixels (ds : TimeDataset) (no_data : fval) (data : cube) (p : nat)
    (normalized : list fval) :
  Forall (λ g, length g = td_npix ds) data → (p < td_npix ds)%nat →
  let out := mkDataset (latlon_coords ds)
               [("normalized_data"%string, normalized);
                ("total_data"%string, processed_data_sum (td_npix ds) no_data data);
                ("total_clean"%string, clean_data_sum (td_npix ds) no_data data)] in
  pixel out "total_clean" p = Some (fcount (clean_observations no_data data p))
  ∧ pixel out "total_data" p = Some (foldl fadd fzero (observed_values no_data data p))
  ∧ pixel out "normalized_data" p = normalized !! p.
Proof.
  intros Hdata Hp out. unfold pixel. cbn.
  split; [by apply clean_data_sum_lookup|].
  split; [by apply processed_data_sum_lookup | done].
Qed.



Lemma unobserved_counts (no_data : fval) (data : cube) (p : nat) :
  (∀ g v, g ∈ data → g !! p = Some v → feqb v no_data = true) →
  clean_observations no_data data p = 0%nat
  ∧ foldl fadd fzero (observed_values no_data data p) = fzero.
Proof.
  intros Hnone. unfold clean_observations, count_true, observed_values.
  induction data as [|g data IH]; [done|].
  rewrite !fmap_cons. cbn [foldl].
  assert (match g !! p with
          | Some v => negb (feqb v no_data)
          | None => false
          end = false
          ∧ match g !! p with
            | Some v => if feqb v no_data then fzero else nan_to_zero v
            | None => fzero
            end = fzero) as [-> ->].
  { destruct (g !! p) as [v|] eqn:Hv; [|done].
    by rewrite (Hnone g v ltac:(by left) Hv). }
  rewrite filter_cons_False by done.
  change (fadd fzero fzero) with fzero.
  apply IH. intros g' v Hg'. apply Hnone. by right.
Qed.

(** X12.  A pixel that no time step observes (every value there is
    [no_data], or there is no time step at all) has 'total_clean' 0 and
    'total_data' 0 in both functions; its 'normalized_data' is NaN from
    [perform_timeseries_analysis] and 0 from
    [perform_timeseries_analysis_iterative]. *)
Theorem timeseries_unobserved_pixel (ds : TimeDataset) (no_data : fval) (key : string)
    (data : cube) (rest : list (string * cube)) (p : nat) :
  td_vars ds = (key, data) :: rest →
  Forall (λ g, length g = td_npix ds) data →
  (p < td_npix ds)%nat →
  (∀ g v, g ∈ data → g !! p = Some v → feqb v no_data = true) →
  ∃ single first,
    perform_timeseries_analysis ds no_data = Ok single
    ∧ perform_timeseries_analysis_iterative ds None no_data = Ok first
    ∧ pixel single "total_clean" p = Some fzero
    ∧ pixel single "total_data" p = Some fzero
    ∧ pixel single "normalized_data" p = Some NaN
    ∧ pixel first "total_clean" p = Some fzero
    ∧ pixel first "total_data" p = Some fzero
    ∧ pixel first "normalized_data" p = Some fzero.
Proof.
  intros Hvars Hdata Hp Hnone.
  rewrite (single_shot _ _ _ _ _ Hvars), (iterative_first _ _ _ _ _ Hvars).
  destruct (unobserved_counts no_data data p Hnone) as [Hcount Hsum].
  pose proof (clean_data_sum_lookup _ no_data data p Hdata Hp) as Hclean.
  pose proof (processed_data_sum_lookup _ no_data data p Hdata Hp) as Htotal.
  rewrite Hcount in Hclean. rewrite Hsum in Htotal. change (fcount 0) with fzero in Hclean.
  do 2 eexists. split; [done|]. split; [done|]. unfold product_of.
  destruct (totals_pixels ds no_data data p
              (zip_with fdiv (processed_data_sum (td_npix ds) no_data data)
                             (clean_data_sum (td_npix ds) no_data data)) Hdata Hp)
    as (-> & -> & ->).
  destruct (totals_pixels ds no_data data p
              (nan_to_zero <$>
                 zip_with fdiv (processed_data_sum (td_npix ds) no_data data)
                               (clean_data_sum (td_npix ds) no_data data)) Hdata Hp)
    as (-> & -> & ->).
  rewrite Hcount, Hsum, list_lookup_fmap, !lookup_zip_with, Hclean, Htotal. done.
Qed.

Lemma timeseries_unobserved_pixel_witness :
  ∃ single first,
    perform_timeseries_analysis
      (mkTimeDataset [0%Qc] [0%Qc] [0%Qc; 1%Qc] [("x"%string, [[flit 3 1; nodata]])]) nodata
    = Ok single
    ∧ perform_timeseries_analysis_iterative
        (mkTimeDataset [0%Qc] [0%Qc] [0%Qc; 1%Qc] [("x"%string, [[flit 3 1; nodata]])])
        None nodata
      = Ok first
    ∧ pixel single "normalized_data" 1%nat = Some NaN
    ∧ pixel first "normalized_data" 1%nat = Some fzero.
Proof.
  destruct (timeseries_unobserved_pixel
              (mkTimeDataset [0%Qc] [0%Qc] [0%Qc; 1%Qc] [("x"%string, [[flit 3 1; nodata]])])
              nodata "x" [[flit 3 1; nodata]] [] 1%nat)
    as (single & first & Hsingle & Hfirst & _ & _ & Hnan & _ & _ & Hzero).
  - reflexivity.
  - repeat constructor.
  - vm_compute. lia.
  - intros g v Hg. apply list_elem_of_singleton in Hg. subst g. by intros [= <-].
  - exists single, first. by repeat split.
Defined.

Lemma assoc_set_same {A} (key : string) (v : A) (l : list (string * A)) :
  assoc key (assoc_set key v l) = Some v.
Proof.
  induction l as [|kv l IH]; simpl.
  - by rewrite decide_True.
  - destruct (decide (kv.1 = key)) as [Hk|Hk]; simpl.
    + by rewrite decide_True.
    + by rewrite decide_False.
Qed.

Lemma ds_getitem_setitem (ds : Dataset) (key : string) (v : list fval) :
  ds_getitem (ds_setitem ds key v) key = Ok v.
Proof. unfold ds_getitem, ds_setitem. cbn [data_vars]. by rewrite assoc_set_same. Qed.

Lemma nan_to_zero_not_nan (a : list fval) :
  Forall (λ v, isnan v = false) (nan_to_zero <$> a).
Proof. apply Forall_fmap, Forall_true. by intros []. Qed.

(** X13.  Whatever the intermediate product, a result of
    [perform_timeseries_analysis_iterative] has a 'normalized_data'
    variable and no NaN in it. *)
Theorem iterative_normalized_never_nan (dataset_in : TimeDataset)
    (intermediate_product : option Dataset) (no_data : fval) (out : Dataset) :
  perform_timeseries_analysis_iterative dataset_in intermediate_product no_data = Ok out →
  ∃ normalized,
    ds_getitem out "normalized_data" = Ok normalized
    ∧ Forall (λ v, isnan v = false) normalized.
Proof.
  unfold perform_timeseries_analysis_iterative.
  destruct (td_vars dataset_in) as [|[key data] rest]; [done|].
  destruct intermediate_product as [intermediate|].
  - intros Hrun.
    apply rbind_ok_inv in Hrun as (total_data & _ & Hrun).
    apply rbind_ok_inv in Hrun as (new_total_data & _ & Hrun).
    apply rbind_ok_inv in Hrun as (total_clean & _ & Hrun).
    apply rbind_ok_inv in Hrun as (new_total_clean & _ & Hrun).
    apply rbind_ok_inv in Hrun as (total_data' & _ & Hrun).
    apply rbind_ok_inv in Hrun as (total_clean' & _ & Hrun).
    rewrite nan_fill_eq in Hrun. cbn [rbind] in Hrun. injection Hrun as <-.
    eexists. split; [apply ds_getitem_setitem | apply nan_to_zero_not_nan].
  - rewrite nan_fill_eq. cbn [rbind]. intros [= <-].
    eexists. split; [reflexivity | apply nan_to_zero_not_nan].
Qed.

Lemma iterative_normalized_never_nan_witness :
  ∃ normalized,
    ds_getitem (product_of (latlon_coords example_inf_series) [NaN] [fcount 2])
               "normalized_data"
    = Ok normalized
    ∧ Forall (λ v, isnan v = false) normalized.
Proof.
  apply (iterative_normalized_never_nan example_inf_series None nodata).
  reflexivity.
Defined.



(** ** Acquisition dates and scene metadata *)

(** X15.  [list_acquisition_dates] and [get_scene_metadata] describe the
    same dataset.  If the load raises, both raise the same exception.
    Otherwise [list_acquisition_dates] returns; a dataset without data
    variables gives no dates and the all-zero metadata; a dataset with
    data variables gives its time steps, and then the metadata's
    'scene_count' is the number of dates and its 'time_extents' are the
    first and the last date, unless there is no time step, in which case
    [get_scene_metadata] raises IndexError although the list of dates is
    returned (empty). *)
Theorem acquisition_dates_match_metadata
    (dc_load : string → option (list string) → option string → option extent →
               option (list (string * nat)) → list (string * qval) → result LoadedDataset)
    (platform product : string)
    (longitude latitude : option extent) (crs : option string) (time : option (Z * Z)) :
  let load := get_dataset_by_extent dc_load product None (Some platform) time
                longitude latitude None None None crs (Some []) in
  let dates := list_acquisition_dates dc_load platform product longitude latitude crs time in
  let metadata := get_scene_metadata dc_load platform product longitude latitude crs time in
  (∀ e, load = Raise e → dates = Raise e ∧ metadata = Raise e)
  ∧ ∀ dataset, load = Ok dataset →
      (ld_data_vars dataset = [] →
       dates = Ok []
       ∧ ∃ m, metadata = Ok m
              ∧ assoc "scene_count" m = Some (PyInt 0)
              ∧ assoc "time_extents" m = Some (PyTuple (PyInt 0) (PyInt 0)))
      ∧ (ld_data_vars dataset ≠ [] →
         dates = Ok (ld_time dataset)
         ∧ (ld_time dataset = [] → metadata = Raise IndexError)
         ∧ ∀ first final, head (ld_time dataset) = Some first →
             last (ld_time dataset) = Some final →
             ∃ m, metadata = Ok m
                  ∧ assoc "scene_count" m = Some (PyInt (Z.of_nat (length (ld_time dataset))))
                  ∧ assoc "time_extents" m = Some (PyTuple (PyTime first) (PyTime final))).
Proof.
  intros load dates metadata.
  unfold dates, metadata, list_acquisition_dates, get_scene_metadata. fold load.
  split.
  - by intros e ->.
  - intros dataset ->. cbn [rbind]. split.
    + intros ->. split; [done|]. eexists. by split.
    + intros Hvars. destruct (ld_data_vars dataset) as [|v vars]; [done|].
      split; [done|].
      destruct (ld_envelope dataset) as [[[lon_min lat_min] lon_max] lat_max].
      split.
      * by intros ->.
      * intros first final -> ->. eexists. by split.
Qed.

(** ** What [compute_ndvi_anomaly] returns *)




Tactic Notation "run_lift" hyp(H) "as" ident(x) ident(Hx) :=
  apply mbind_inv in H as [(x & ? & Hx & H) | (? & _ & [=])];
  unfold lift in Hx; injection Hx as Hx <-.





(** ** What [addition], [max_value] and [min_value] compute *)

Section CopyHeap.
Context (h : heap) (o : dsobj).
Hypothesis Hnd : NoDup (o_vars o).*1.

Let out : nat := length (datasets h).

Lemma copy_deep_heap (r : nat) (contents : list (list fval)) :
  datasets h !! r = Some o →
  Forall2 (λ kl v, arrays h !! kl.2 = Some v) (o_vars o) contents →
  copy_deep r h = (Ok out, copy_heap h o contents).
Proof. apply copy_deep_spec. Qed.

Lemma copy_heap_object (bufs : list (list fval)) :
  datasets (copy_heap h o bufs) !! out
  = Some (mkObj (o_coords o) (copied_vars (length (arrays h)) (o_vars o))).
Proof. simpl. rewrite lookup_app_r by done. by rewrite Nat.sub_diag. Qed.

Lemma copy_heap_buffer (bufs : list (list fval)) (j : nat) :
  arrays (copy_heap h o bufs) !! (length (arrays h) + j)%nat = bufs !! j.
Proof.
  simpl. rewrite lookup_app_r by lia. f_equal. lia.
Qed.

Lemma copy_heap_var (bufs : list (list fval)) (j : nat) (key : string) :
  (o_vars o).*1 !! j = Some key →
  ds_var (copy_heap h o bufs) out key = bufs !! j.
Proof.
  intros Hj. unfold ds_var. rewrite copy_heap_object. simpl.
  rewrite (assoc_copied_vars _ j _ key Hnd Hj). simpl.
  rewrite lookup_app_r by lia. f_equal. lia.
Qed.

Lemma copy_values_run (bufs : list (list fval)) (j : nat) (key : string) (v : list fval) :
  (o_vars o).*1 !! j = Some key → bufs !! j = Some v →
  ds_values out key (copy_heap h o bufs) = (Ok v, copy_heap h o bufs).
Proof.
  intros Hj Hv. eapply ds_values_run; [apply copy_heap_object | |].
  - simpl. by apply assoc_copied_vars.
  - by rewrite copy_heap_buffer.
Qed.

Lemma copy_attr_values_run (bufs : list (list fval)) (j : nat) (key : string)
    (v : list fval) :
  (o_vars o).*1 !! j = Some key → bufs !! j = Some v →
  ds_attr_values out key (copy_heap h o bufs) = (Ok v, copy_heap h o bufs).
Proof.
  intros Hj Hv. unfold ds_attr_values, mbind, get_dataset, read_array.
  rewrite copy_heap_object. cbn [o_vars].
  rewrite (assoc_copied_vars _ j _ key Hnd Hj).
  by rewrite copy_heap_buffer, Hv.
Qed.

Lemma copy_write_run (bufs : list (list fval)) (j : nat) (key : string)
    (old new : list fval) :
  (o_vars o).*1 !! j = Some key → bufs !! j = Some old →
  ds_write out key new (copy_heap h o bufs) = (Ok (), copy_heap h o (<[j := new]> bufs)).
Proof.
  intros Hj Hold.
  rewrite (ds_write_run _ _ (length (arrays h) + j) _ _ old _ (copy_heap_object bufs)).
  - f_equal. unfold copy_heap. simpl. f_equal.
    rewrite insert_app_r_alt by lia. do 2 f_equal. lia.
  - simpl. by apply assoc_copied_vars.
  - by rewrite copy_heap_buffer.
Qed.

Lemma old_values_run (bufs : list (list fval)) (r : nat) (key : string) (v : list fval) :
  ds_var h r key = Some v →
  ds_values r key (copy_heap h o bufs) = (Ok v, copy_heap h o bufs).
Proof.
  intros (od & l & Hod & Hl & Hv)%ds_var_inv.
  eapply ds_values_run; [|exact Hl|].
  - simpl. by apply lookup_app_l_Some.
  - simpl. by apply lookup_app_l_Some.
Qed.

Lemma old_attr_values_run (bufs : list (list fval)) (r : nat) (key : string)
    (v : list fval) :
  ds_var h r key = Some v →
  ds_attr_values r key (copy_heap h o bufs) = (Ok v, copy_heap h o bufs).
Proof.
  intros (od & l & Hod & Hl & Hv)%ds_var_inv.
  unfold ds_attr_values, mbind, get_dataset, read_array, copy_heap.
  cbn [datasets arrays].
  rewrite (lookup_app_l_Some _ _ _ _ Hod), Hl.
  cbn [datasets arrays]. by rewrite (lookup_app_l_Some _ _ _ _ Hv).
Qed.

End CopyHeap.

Lemma variable_index (h : heap) (r : nat) (o : dsobj) (contents : list (list fval))
    (key : string) (v : list fval) :
  datasets h !! r = Some o →
  Forall2 (λ kl v, arrays h !! kl.2 = Some v) (o_vars o) contents →
  ds_var h r key = Some v →
  ∃ j, (o_vars o).*1 !! j = Some key ∧ contents !! j = Some v.
Proof.
  intros Ho Hall (o' & l & Ho' & Hl & Hv)%ds_var_inv.
  rewrite Ho in Ho'. injection Ho' as <-.
  destruct (assoc_lookup _ _ _ Hl) as [j Hj]. exists j. split.
  - by rewrite list_lookup_fmap, Hj.
  - destruct (Forall2_lookup_l _ _ _ _ _ Hall Hj) as (w & Hw & Harr).
    simpl in Harr. congruence.
Qed.

Lemma addition_key_run (h : heap) (o : dsobj) (dataset : nat) (bufs : list (list fval))
    (j : nat) (key : string) (cur src : list fval) :
  NoDup (o_vars o).*1 →
  (o_vars o).*1 !! j = Some key → bufs !! j = Some cur →
  ds_var h dataset key = Some src →
  length cur = length src →
  (do cur ← ds_values (length (datasets h)) key;
   do src ← ds_values dataset key;
   do new ← lift (np_zip fadd cur src);
   ds_write (length (datasets h)) key new) (copy_heap h o bufs)
  = (Ok (), copy_heap h o (<[j := zip_with fadd cur src]> bufs)).
Proof.
  intros Hnd Hj Hcur Hsrc Hlen.
  rewrite (mbind_run _ _ _ _ _ (copy_values_run h o Hnd bufs j key cur Hj Hcur)).
  rewrite (mbind_run _ _ _ _ _ (old_values_run h o bufs dataset key src Hsrc)).
  erewrite mbind_run; [|unfold lift, np_zip; rewrite decide_True by done; reflexivity].
  by apply copy_write_run with cur.
Qed.

Lemma set_values_run (h : heap) (o : dsobj) (bufs : list (list fval)) (j : nat)
    (key : string) (old new : list fval) :
  NoDup (o_vars o).*1 →
  (o_vars o).*1 !! j = Some key → bufs !! j = Some old → length new = length old →
  ds_set_values (length (datasets h)) key new (copy_heap h o bufs)
  = (Ok (), copy_heap h o (<[j := new]> bufs)).
Proof.
  intros Hnd Hj Hold Hlen. unfold ds_set_values.
  rewrite (mbind_run _ _ _ _ _ (copy_values_run h o Hnd bufs j key old Hj Hold)).
  rewrite decide_True by done. by apply copy_write_run with old.
Qed.

(** The run of [addition] behind the statements below: the result is the
    deep copy of the intermediate with three buffers replaced. *)
Lemma addition_run (h : heap) (dataset intermediate : nat) (d1 c1 d2 c2 n2 : list fval) :
  valid_ref h intermediate →
  ds_var h dataset "total_data" = Some d1 →
  ds_var h dataset "total_clean" = Some c1 →
  ds_var h intermediate "total_data" = Some d2 →
  ds_var h intermediate "total_clean" = Some c2 →
  ds_var h intermediate "normalized_data" = Some n2 →
  length d1 = length d2 → length c1 = length d2 →
  length c2 = length d2 → length n2 = length d2 →
  ∃ o contents jd jc jn,
    datasets h !! intermediate = Some o
    ∧ NoDup (o_vars o).*1
    ∧ Forall2 (λ kl v, arrays h !! kl.2 = Some v) (o_vars o) contents
    ∧ (o_vars o).*1 !! jd = Some "total_data"%string
    ∧ (o_vars o).*1 !! jc = Some "total_clean"%string
    ∧ (o_vars o).*1 !! jn = Some "normalized_data"%string
    ∧ addition dataset (Some intermediate) h
      = (Ok (length (datasets h)),
         copy_heap h o
           (<[jn := nan_to_zero <$> zip_with fdiv (zip_with fadd d2 d1) (zip_with fadd c2 c1)]>
              (<[jc := zip_with fadd c2 c1]> (<[jd := zip_with fadd d2 d1]> contents)))).
Proof.
  intros Hvalid Hd1 Hc1 Hd2 Hc2 Hn2 Hld Hlc Hlc2 Hln.
  destruct (valid_ref_contents _ _ Hvalid) as (o & contents & Ho & Hnd & Hall).
  destruct (variable_index _ _ _ _ _ _ Ho Hall Hd2) as (jd & Hjd & Hcd).
  destruct (variable_index _ _ _ _ _ _ Ho Hall Hc2) as (jc & Hjc & Hcc).
  destruct (variable_index _ _ _ _ _ _ Ho Hall Hn2) as (jn & Hjn & Hcn).
  assert (jd ≠ jc) as Hdc by (intros ->; rewrite Hjd in Hjc; discriminate).
  assert (jd ≠ jn) as Hdn by (intros ->; rewrite Hjd in Hjn; discriminate).
  assert (jc ≠ jn) as Hcn' by (intros ->; rewrite Hjc in Hjn; discriminate).
  pose proof (lookup_lt_Some _ _ _ Hcd) as Hltd.
  pose proof (lookup_lt_Some _ _ _ Hcc) as Hltc.
  pose proof (lookup_lt_Some _ _ _ Hcn) as Hltn.
  exists o, contents, jd, jc, jn. do 6 (split; [done|]).
  set (d' := zip_with fadd d2 d1). set (c' := zip_with fadd c2 c1).
  set (q := zip_with fdiv d' c').
  set (bufs1 := <[jd := d']> contents). set (bufs2 := <[jc := c']> bufs1).
  set (bufs3 := <[jn := q]> bufs2).
  assert (bufs2 !! jd = Some d') as H2d.
  { unfold bufs2, bufs1. rewrite list_lookup_insert_ne by done.
    by apply list_lookup_insert_eq. }
  assert (bufs2 !! jc = Some c') as H2c.
  { unfold bufs2, bufs1. apply list_lookup_insert_eq. by rewrite length_insert. }
  assert (bufs2 !! jn = Some n2) as H2n.
  { unfold bufs2, bufs1. by rewrite !list_lookup_insert_ne by done. }
  assert (bufs3 !! jn = Some q) as H3n.
  { unfold bufs3, bufs2, bufs1. apply list_lookup_insert_eq. by rewrite !length_insert. }
  rewrite <- (list_insert_insert_eq bufs2 jn (nan_to_zero <$> q) q). fold bufs3.
  unfold addition.
  rewrite (mbind_run _ _ _ _ _ (copy_deep_heap h o intermediate contents Ho Hall)).
  erewrite mbind_run.
  2:{ cbn [for_each].
      erewrite mbind_run;
        [|by apply (addition_key_run h o dataset contents jd "total_data" d2 d1); try lia].
      erewrite mbind_run;
        [|apply (addition_key_run h o dataset bufs1 jc "total_clean" c2 c1); try done;
          [unfold bufs1; by rewrite list_lookup_insert_ne by done | lia]].
      reflexivity. }
  fold d' c' bufs1 bufs2.
  rewrite (mbind_run _ _ _ _ _ (copy_values_run h o Hnd bufs2 jd _ d' Hjd H2d)).
  rewrite (mbind_run _ _ _ _ _ (copy_values_run h o Hnd bufs2 jc _ c' Hjc H2c)).
  erewrite mbind_run;
    [|unfold lift, np_zip; rewrite decide_True; [reflexivity|];
      unfold d', c'; rewrite !length_zip_with; lia].
  fold q.
  erewrite mbind_run;
    [|apply (set_values_run h o bufs2 jn "normalized_data" n2 q Hnd Hjn H2n);
      unfold q, d', c'; rewrite !length_zip_with; lia].
  fold bufs3.
  rewrite (mbind_run _ _ _ _ _ (copy_values_run h o Hnd bufs3 jn _ q Hjn H3n)).
  erewrite mbind_run; [|unfold lift; rewrite nan_fill_eq; reflexivity].
  erewrite mbind_run; [|by apply (copy_write_run h o Hnd bufs3 jn _ q)].
  done.
Qed.

Lemma copy_heap_fresh (h : heap) (o : dsobj) (bufs : list (list fval)) :
  fresh_in h (copy_heap h o bufs) (length (datasets h)).
Proof.
  split; [done|]. eexists. split; [apply copy_heap_object|].
  simpl. unfold copied_vars. apply Forall_forall. intros [k l] Hin.
  apply elem_of_zip_r in Hin. apply elem_of_seq in Hin. simpl. lia.
Qed.


Lemma ds_value_copy_heap (h : heap) (o : dsobj) (bufs : list (list fval)) :
  length bufs = length (o_vars o) →
  ds_value (copy_heap h o bufs) (length (datasets h))
  = Some (mkDataset (o_coords o) (zip (o_vars o).*1 bufs)).
Proof.
  intros Hlen.
  erewrite ds_value_contents; [ | apply copy_heap_object | ].
  - simpl. by rewrite copied_vars_keys.
  - simpl. apply Forall2_same_length_lookup. split.
    + unfold copied_vars. rewrite length_zip_with, length_fmap, length_seq. lia.
    + intros j kl v Hj Hv.
      destruct (lookup_lt_is_Some_2 (o_vars o) j) as [kl' Hkl'].
      { rewrite <- Hlen. by eapply lookup_lt_Some. }
      rewrite (copied_vars_lookup _ _ _ _ Hkl') in Hj. injection Hj as <-. simpl.
      rewrite lookup_app_r by lia.
      by replace (length (arrays h) + j - length (arrays h))%nat with j by lia.
Qed.

(** A dataset value with three variables sits on an object with three
    buffers. *)
Lemma ds_value_three (h : heap) (r : nat) (coords : Coords) (k1 k2 k3 : string)
    (v1 v2 v3 : list fval) :
  ds_value h r = Some (mkDataset coords [(k1, v1); (k2, v2); (k3, v3)]) →
  ∃ o l1 l2 l3,
    datasets h !! r = Some o
    ∧ o_coords o = coords
    ∧ o_vars o = [(k1, l1); (k2, l2); (k3, l3)]
    ∧ arrays h !! l1 = Some v1 ∧ arrays h !! l2 = Some v2 ∧ arrays h !! l3 = Some v3.
Proof.
  unfold ds_value. destruct (datasets h !! r) as [o|]; [|done]. simpl.
  destruct (mapM _ (o_vars o)) as [vars|] eqn:Hvars; [|done]. simpl.
  intros [= Hcoords ->]. apply mapM_Some_1 in Hvars.
  destruct o as [oc ov]. simpl in *. subst oc.
  inversion Hvars as [|[k1' l1] ? ov1 ? H1 Hvars1]; subst.
  inversion Hvars1 as [|[k2' l2] ? ov2 ? H2 Hvars2]; subst.
  inversion Hvars2 as [|[k3' l3] ? ov3 ? H3 Hvars3]; subst.
  inversion Hvars3; subst. simpl in *.
  destruct (arrays h !! l1) as [w1|] eqn:Hw1; [|done].
  destruct (arrays h !! l2) as [w2|] eqn:Hw2; [|done].
  destruct (arrays h !! l3) as [w3|] eqn:Hw3; [|done].
  simpl in *. simplify_eq. by exists (mkObj coords [(k1, l1); (k2, l2); (k3, l3)]), l1, l2, l3.
Qed.

Lemma product_on_heap (h : heap) (r : nat) (coords : Coords) (normalized total_data
    total_clean : list fval) :
  ds_value h r = Some (mkDataset coords [("normalized_data"%string, normalized);
                                         ("total_data"%string, total_data);
                                         ("total_clean"%string, total_clean)]) →
  valid_ref h r
  ∧ ds_var h r "normalized_data" = Some normalized
  ∧ ds_var h r "total_data" = Some total_data
  ∧ ds_var h r "total_clean" = Some total_clean
  ∧ ∃ o, datasets h !! r = Some o ∧ o_coords o = coords
         ∧ (o_vars o).*1 = ["normalized_data"; "total_data"; "total_clean"]%string.
Proof.
  intros (o & l1 & l2 & l3 & Ho & Hcoords & Hvars & H1 & H2 & H3)%ds_value_three.
  split.
  { exists o. split; [done|]. rewrite Hvars. split.
    - apply (bool_decide_unpack _). by vm_compute.
    - repeat constructor; by eexists. }
  unfold ds_var. rewrite Ho. simpl. rewrite Hvars. simpl.
  do 3 (split; [done|]). exists o. by rewrite Hvars.
Qed.

Lemma sum_time_full_length (npix : nat) (a : cube) :
  Forall (λ g, length g = npix) a → length (sum_time npix a) = npix.
Proof.
  intros Ha. pose proof (sum_time_length npix a) as Hle.
  destruct (decide (length (sum_time npix a) < npix)%nat) as [Hlt|]; [|lia].
  pose proof (sum_time_lookup npix a (length (sum_time npix a)) Ha Hlt) as Hsome.
  by rewrite lookup_ge_None_2 in Hsome.
Qed.

Lemma totals_full_length (npix : nat) (no_data : fval) (data : cube) :
  Forall (λ g, length g = npix) data →
  length (processed_data_sum npix no_data data) = npix
  ∧ length (clean_data_sum npix no_data data) = npix.
Proof.
  intros Hdata. unfold processed_data_sum, clean_data_sum.
  rewrite processed_cube_rows, clean_cube_rows.
  split; apply sum_time_full_length; apply Forall_fmap;
    (eapply Forall_impl; [exact Hdata|]); simpl; intros g Hg; by rewrite length_fmap.
Qed.

(** X18.  [addition] combines aggregation products as
    [perform_timeseries_analysis_iterative] does.  Let [dataset] hold the
    product of a time chunk aggregated on its own and
    [dataset_intermediate] a product of running totals on the same grid.
    Then [addition] returns a new dataset whose value is exactly what
    [perform_timeseries_analysis_iterative] returns for that chunk with
    the running totals as its intermediate product. *)
Theorem addition_matches_iterative (h : heap) (dataset intermediate : nat)
    (part : TimeDataset) (no_data : fval) (first : Dataset)
    (total_data total_clean : list fval) :
  td_wf part →
  perform_timeseries_analysis_iterative part None no_data = Ok first →
  ds_value h dataset = Some first →
  ds_value h intermediate
  = Some (product_of (latlon_coords part) total_data total_clean) →
  length total_data = td_npix part →
  length total_clean = td_npix part →
  ∃ out h' combined,
    addition dataset (Some intermediate) h = (Ok out, h')
    ∧ perform_timeseries_analysis_iterative
        part (Some (product_of (latlon_coords part) total_data total_clean)) no_data
      = Ok combined
    ∧ ds_value h' out = Some combined
    ∧ fresh_in h h' out.
Proof.
  intros Hwf Hfirst Hdataset Hinter Hld Hlc.
  destruct (td_vars part) as [|[key data] rest] eqn:Hvars.
  { unfold perform_timeseries_analysis_iterative in Hfirst. by rewrite Hvars in Hfirst. }
  rewrite (iterative_first _ _ _ _ _ Hvars) in Hfirst. injection Hfirst as <-.
  assert (Forall (λ g, length g = td_npix part) data) as Hrows.
  { unfold td_wf in Hwf. rewrite Hvars in Hwf.
    inversion Hwf as [|? ? [_ Hdata] _]; subst. exact Hdata. }
  destruct (totals_full_length _ no_data data Hrows) as [Hlpd Hlcd].
  unfold product_of in Hdataset, Hinter.
  apply product_on_heap in Hdataset as (_ & _ & Hd1 & Hc1 & _).
  apply product_on_heap in Hinter as (Hvalid & Hn2 & Hd2 & Hc2 & o' & Ho' & Hcoords & Hkeys).
  destruct (addition_run h dataset intermediate _ _ _ _ _ Hvalid Hd1 Hc1 Hd2 Hc2 Hn2)
    as (o & contents & jd & jc & jn & Ho & Hnd & Hall & Hjd & Hjc & Hjn & Hrun);
    [lia | lia | lia | rewrite length_fmap, length_zip_with; lia |].
  rewrite Ho' in Ho. injection Ho as ->.
  rewrite Hkeys in Hjd, Hjc, Hjn.
  assert (jn = 0%nat ∧ jd = 1%nat ∧ jc = 2%nat) as (-> & -> & ->).
  { destruct jn as [|[|[|jn]]], jd as [|[|[|jd]]], jc as [|[|[|jc]]]; by simplify_eq. }
  pose proof (Forall2_length _ _ _ Hall) as Hlen.
  rewrite <- (length_fmap fst), Hkeys in Hlen.
  destruct contents as [|x [|y [|z [|]]]]; try done.
  simpl in Hrun.
  do 3 eexists. split; [exact Hrun|].
  split; [by apply (iterative_next _ _ _ _ _ _ _ Hvars)|].
  split; [|apply copy_heap_fresh].
  rewrite ds_value_copy_heap by (rewrite <- (length_fmap fst), Hkeys; done).
  rewrite Hkeys, Hcoords. done.
Qed.



Lemma addition_matches_iterative_witness :
  ∃ out h' combined,
    addition 0%nat (Some 1%nat) example_totals_heap = (Ok out, h')
    ∧ perform_timeseries_analysis_iterative example_series
        (Some (product_of (latlon_coords example_series)
                 example_running_totals.1 example_running_totals.2)) nodata
      = Ok combined
    ∧ ds_value h' out = Some combined.
Proof.
  destruct (addition_matches_iterative example_totals_heap 0%nat 1%nat example_series nodata
              (product_of (latlon_coords example_series)
                 example_chunk_totals.1 example_chunk_totals.2)
              example_running_totals.1 example_running_totals.2)
    as (out & h' & combined & Hrun & Hiter & Hvalue & _).
  - repeat constructor.
  - reflexivity.
  - reflexivity.
  - reflexivity.
  - reflexivity.
  - reflexivity.
  - exists out, h', combined. split; [exact Hrun|]. split; [exact Hiter | exact Hvalue].
Defined.

Lemma pick_array_lookup (cmp : fval → fval → bool) (x y new old : list fval) (p : nat)
    (vx vy vn vo : fval) :
  x !! p = Some vx → y !! p = Some vy → new !! p = Some vn → old !! p = Some vo →
  pick_array cmp x y new old !! p = Some (pick_value cmp vx vy vn vo).
Proof.
  intros Hx Hy Hn Ho. unfold pick_array.
  rewrite lookup_zip_with. rewrite lookup_zip_with. rewrite lookup_zip_with.
  by rewrite Hx, Hy, Hn, Ho.
Qed.

Lemma pick_array_length (cmp : fval → fval → bool) (x y new old : list fval) :
  length x = length old → length y = length old → length new = length old →
  length (pick_array cmp x y new old) = length old.
Proof.
  intros Hx Hy Hn. unfold pick_array.
  rewrite length_zip_with, length_zip_with, length_zip_with. lia.
Qed.

(** Once the comparison array itself has been updated, the mask is empty:
    nothing is picked any more. *)
Lemma pick_array_settled (cmp : fval → fval → bool) (x y new old : list fval) :
  (∀ v, cmp v v = false) →
  length x = length y → length new = length y → length old = length y →
  pick_array cmp x (pick_array cmp x y x y) new old = old.
Proof.
  intros Hirr. unfold pick_array. revert y new old.
  induction x as [|vx x IH]; intros [|vy y] [|vn new] [|vo old] Hx Hn Ho; try done.
  simpl in *. rewrite IH by lia. f_equal.
  destruct (cmp vx vy) eqn:Hc; simpl; [by rewrite Hirr | by rewrite Hc].
Qed.

Section ExtremeValue.
Context (cmp : fval → fval → bool) (h : heap) (o : dsobj) (dataset : nat)
        (a b0 : list fval) (jn : nat)
        (items : list (string * (list fval * list fval))).
Hypothesis Hirr : ∀ v, cmp v v = false.
Hypothesis Hnd : NoDup (o_vars o).*1.
Hypothesis Ha : ds_var h dataset "ndvi" = Some a.
Hypothesis Hjn : (o_vars o).*1 !! jn = Some "ndvi"%string.
Hypothesis Hlen_a : length a = length b0.
Hypothesis Hkeys : items.*1 = (o_vars o).*1.
Hypothesis Hb0 : ((λ it, it.2.1) <$> items) !! jn = Some b0.
Hypothesis Hitems :
  Forall (λ it, ds_var h dataset it.1 = Some it.2.2
                ∧ length it.2.2 = length b0 ∧ length it.2.1 = length b0) items.

Let out : nat := length (datasets h).

(** The body of the loop of [extreme_value]. *)
Let body : string → M () := λ key,
  do src ← ds_values dataset key;
  do m ← ndvi_mask cmp dataset out;
  do rhs ← lift (mask_select m src);
  do target ← ds_values out key;
  do m' ← ndvi_mask cmp dataset out;
  do new ← lift (mask_assign m' target rhs);
  ds_write out key new.

Let contents : list (list fval) := (λ it, it.2.1) <$> items.

(** What the loop leaves in each buffer: variables up to 'ndvi' are
    picked under the mask of the two original 'ndvi' arrays, later ones
    are left as they were. *)
Let finals : list (list fval) :=
  imap (λ i it, if decide (i ≤ jn)%nat then pick_array cmp a b0 it.2.2 it.2.1 else it.2.1)
       items.

Lemma extreme_key_run (bufs : list (list fval)) (j : nat) (key : string)
    (b src cur : list fval) :
  (o_vars o).*1 !! j = Some key → bufs !! j = Some cur → bufs !! jn = Some b →
  ds_var h dataset key = Some src →
  length b = length b0 → length src = length b0 → length cur = length b0 →
  body key (copy_heap h o bufs)
  = (Ok (), copy_heap h o (<[j := pick_array cmp a b src cur]> bufs)).
Proof.
  intros Hj Hcur Hb Hsrc Hlb Hls Hlc. unfold body.
  assert (ndvi_mask cmp dataset out (copy_heap h o bufs)
          = (Ok (zip_with cmp a b), copy_heap h o bufs)) as Hmask.
  { unfold ndvi_mask.
    rewrite (mbind_run _ _ _ _ _ (old_attr_values_run h o bufs dataset _ a Ha)).
    rewrite (mbind_run _ _ _ _ _ (copy_attr_values_run h o Hnd bufs jn _ b Hjn Hb)).
    unfold lift, np_zip. by rewrite decide_True by lia. }
  rewrite (mbind_run _ _ _ _ _ (old_values_run h o bufs dataset key src Hsrc)).
  rewrite (mbind_run _ _ _ _ _ Hmask).
  erewrite mbind_run;
    [|unfold lift; rewrite mask_select_ok by (rewrite length_zip_with; lia); reflexivity].
  rewrite (mbind_run _ _ _ _ _ (copy_values_run h o Hnd bufs j key cur Hj Hcur)).
  rewrite (mbind_run _ _ _ _ _ Hmask).
  erewrite mbind_run;
    [|unfold lift; rewrite mask_assign_selected by (rewrite length_zip_with; lia);
      reflexivity].
  by apply copy_write_run with cur.
Qed.

Lemma finals_length : length finals = length items.
Proof. unfold finals. by rewrite length_imap. Qed.

Lemma insert_take_drop {A} (F C : list A) (k : nat) (x : A) :
  F !! k = Some x → (k < length C)%nat →
  <[k := x]> (take k F ++ drop k C) = take (S k) F ++ drop (S k) C.
Proof.
  intros HF HC. pose proof (lookup_lt_Some _ _ _ HF) as HlF.
  destruct (lookup_lt_is_Some_2 C k HC) as [c Hc].
  rewrite insert_app_r_alt by (rewrite length_take; lia).
  rewrite length_take, Nat.min_l by lia. rewrite Nat.sub_diag.
  rewrite (drop_S _ _ _ Hc). simpl.
  rewrite (take_S_r _ _ _ HF). by rewrite <- app_assoc.
Qed.

Lemma ndvi_item :
  ∃ it, items !! jn = Some it ∧ it.2.1 = b0 ∧ it.2.2 = a.
Proof.
  unfold contents in *. rewrite list_lookup_fmap in Hb0.
  destruct (items !! jn) as [it|] eqn:Hit; [|done]. injection Hb0 as Hb.
  exists it. split; [done|]. split; [done|].
  assert (it.1 = "ndvi"%string) as Hkey.
  { rewrite <- Hkeys, list_lookup_fmap, Hit in Hjn. by injection Hjn. }
  rewrite Forall_lookup in Hitems. destruct (Hitems _ _ Hit) as (Hsrc & _).
  rewrite Hkey, Ha in Hsrc. by injection Hsrc.
Qed.

Lemma extreme_loop (m k : nat) :
  (k + m)%nat = length items →
  for_each (drop k items.*1) body (copy_heap h o (take k finals ++ drop k contents))
  = (Ok (), copy_heap h o finals).
Proof.
  revert k. induction m as [|m IH]; intros k Hk.
  - rewrite drop_ge by (rewrite length_fmap; lia).
    rewrite take_ge by (rewrite finals_length; lia).
    rewrite drop_ge by (unfold contents; rewrite length_fmap; lia).
    by rewrite app_nil_r.
  - destruct (lookup_lt_is_Some_2 items k ltac:(lia)) as [it Hit].
    destruct ndvi_item as (itn & Hitn & Hbn & Han).
    pose proof Hitems as Hall. rewrite Forall_lookup in Hall.
    destruct (Hall _ _ Hit) as (Hsrc & Hls & Hlc).
    assert (items.*1 !! k = Some it.1) as Hkey by (by rewrite list_lookup_fmap, Hit).
    rewrite (drop_S _ _ _ Hkey). cbn [for_each].
    set (b := if decide (jn < k)%nat then pick_array cmp a b0 a b0 else b0).
    assert (length b = length b0) as Hlb.
    { unfold b. destruct (decide _); [|done]. apply pick_array_length; lia. }
    assert ((take k finals ++ drop k contents) !! k = Some it.2.1) as Hcur.
    { rewrite lookup_app_r by (rewrite length_take; lia).
      rewrite length_take, finals_length, Nat.min_l by lia.
      rewrite Nat.sub_diag, lookup_drop, Nat.add_0_r.
      unfold contents. by rewrite list_lookup_fmap, Hit. }
    assert ((take k finals ++ drop k contents) !! jn = Some b) as Hb.
    { unfold b. destruct (decide (jn < k)%nat) as [Hlt|Hge].
      - rewrite lookup_app_l by (rewrite length_take, finals_length; lia).
        rewrite lookup_take_lt by done. unfold finals.
        rewrite list_lookup_imap, Hitn. simpl.
        rewrite decide_True by done. by rewrite Hbn, Han.
      - rewrite lookup_app_r by (rewrite length_take; lia).
        rewrite length_take, finals_length, Nat.min_l by lia.
        rewrite lookup_drop.
        replace (k + (jn - k))%nat with jn by lia.
        unfold contents. by rewrite list_lookup_fmap, Hitn, <- Hbn. }
    erewrite mbind_run.
    2:{ apply (extreme_key_run _ k it.1 b it.2.2 it.2.1); try done.
        by rewrite <- Hkeys. }
    rewrite insert_take_drop.
    + apply IH. lia.
    + unfold finals. rewrite list_lookup_imap, Hit. simpl. f_equal.
      unfold b. destruct (decide (k ≤ jn)%nat), (decide (jn < k)%nat); try lia; [done|].
      symmetry. apply pick_array_settled; [done | lia..].
    + unfold contents. rewrite length_fmap. lia.
Qed.

End ExtremeValue.

Lemma variable_at_index (h : heap) (r : nat) (o : dsobj) (contents : list (list fval))
    (j : nat) (key : string) (v : list fval) :
  datasets h !! r = Some o →
  NoDup (o_vars o).*1 →
  Forall2 (λ kl v, arrays h !! kl.2 = Some v) (o_vars o) contents →
  (o_vars o).*1 !! j = Some key → contents !! j = Some v →
  ds_var h r key = Some v.
Proof.
  intros Ho Hnd Hall Hj Hv. rewrite list_lookup_fmap in Hj.
  destruct (o_vars o !! j) as [[k l]|] eqn:Hkl; [|done]. injection Hj as ->.
  unfold ds_var. rewrite Ho. simpl.
  rewrite (assoc_NoDup_lookup key l _ j Hnd Hkl). simpl.
  by eapply (Forall2_lookup_lr _ _ _ _ _ _ Hall Hkl Hv).
Qed.

(** The run of [extreme_value] behind the statement below. *)
Lemma extreme_value_run (cmp : fval → fval → bool) (h : heap) (dataset intermediate : nat)
    (a b : list fval) :
  (∀ v, cmp v v = false) →
  aligned h dataset intermediate →
  ds_var h dataset "ndvi" = Some a →
  ds_var h intermediate "ndvi" = Some b →
  (∀ key cur, ds_var h intermediate key = Some cur → length cur = length b) →
  ∃ o jn (items : list (string * (list fval * list fval))),
    datasets h !! intermediate = Some o
    ∧ NoDup (o_vars o).*1
    ∧ (o_vars o).*1 !! jn = Some "ndvi"%string
    ∧ items.*1 = (o_vars o).*1
    ∧ Forall (λ it, ds_var h intermediate it.1 = Some it.2.1
                    ∧ ds_var h dataset it.1 = Some it.2.2) items
    ∧ extreme_value cmp dataset (Some intermediate) h
      = (Ok (length (datasets h)),
         copy_heap h o
           (imap (λ i it, if decide (i ≤ jn)%nat
                          then pick_array cmp a b it.2.2 it.2.1 else it.2.1) items)).
Proof.
  intros Hirr [Hvalid Haligned] Ha Hb Hgrid.
  destruct (valid_ref_contents _ _ Hvalid) as (o & contents & Ho & Hnd & Hall).
  destruct (aligned_items _ _ _ _ _ Ho Hnd Hall Haligned) as (items & Hkeys & Hcur & Hitems).
  destruct (variable_index _ _ _ _ _ _ Ho Hall Hb) as (jn & Hjn & Hcn).
  assert (Forall (λ it, ds_var h intermediate it.1 = Some it.2.1) items) as Hint.
  { apply Forall_lookup. intros j it Hit.
    apply (variable_at_index h intermediate o contents j); try done.
    - by rewrite <- Hkeys, list_lookup_fmap, Hit.
    - by rewrite <- Hcur, list_lookup_fmap, Hit. }
  exists o, jn, items. do 4 (split; [done|]). split.
  { apply Forall_lookup. intros j it Hit. rewrite Forall_lookup in Hint, Hitems.
    split; [by eapply Hint | by eapply Hitems]. }
  destruct (Haligned _ _ Hb) as (a' & Ha' & Hla). rewrite Ha in Ha'. injection Ha' as <-.
  unfold extreme_value.
  rewrite (mbind_run _ _ _ _ _ (copy_deep_heap h o intermediate contents Ho Hall)).
  rewrite (mbind_run _ _ _ _ _ (ds_keys_run _ _ _ (copy_heap_object h o contents))).
  cbn [o_vars]. rewrite copied_vars_keys, <- Hkeys.
  assert (Forall (λ it, ds_var h dataset it.1 = Some it.2.2
                        ∧ length it.2.2 = length b ∧ length it.2.1 = length b) items)
    as Hfull.
  { apply Forall_lookup. intros j it Hit. rewrite Forall_lookup in Hint, Hitems.
    destruct (Hitems _ _ Hit) as [Hsrc Hlen]. split; [done|].
    pose proof (Hgrid _ _ (Hint _ _ Hit)). lia. }
  pose proof (extreme_loop cmp h o dataset a b jn items Hirr Hnd Ha Hjn Hla Hkeys
                ltac:(by rewrite Hcur) Hfull (length items) 0%nat eq_refl) as Hloop.
  rewrite Hcur in Hloop. simpl in Hloop.
  by rewrite (mbind_run _ _ _ _ _ Hloop).
Qed.

Lemma fltb_irrefl (v : fval) : fltb v v = false.
Proof. destruct v; try done. simpl. apply Qcltb_false, Qcle_refl. Qed.

Lemma extreme_value_correct (cmp : fval → fval → bool) (h : heap)
    (dataset intermediate : nat) (a b : list fval) :
  (∀ v, cmp v v = false) →
  aligned h dataset intermediate →
  ds_var h dataset "ndvi" = Some a →
  ds_var h intermediate "ndvi" = Some b →
  (∀ key cur, ds_var h intermediate key = Some cur → length cur = length b) →
  ∃ out h' o_int jn,
    extreme_value cmp dataset (Some intermediate) h = (Ok out, h')
    ∧ fresh_in h h' out
    ∧ datasets h !! intermediate = Some o_int
    ∧ (o_vars o_int).*1 !! jn = Some "ndvi"%string
    ∧ ∀ j key cur src,
        (o_vars o_int).*1 !! j = Some key →
        ds_var h intermediate key = Some cur →
        ds_var h dataset key = Some src →
        ∃ res,
          ds_var h' out key = Some res
          ∧ length res = length cur
          ∧ ((j ≤ jn)%nat →
             ∀ p x y s c,
               a !! p = Some x → b !! p = Some y → src !! p = Some s → cur !! p = Some c →
               res !! p = Some (pick_value cmp x y s c))
          ∧ ((jn < j)%nat → res = cur).
Proof.
  intros Hirr Haligned Ha Hb Hgrid.
  destruct (extreme_value_run cmp h dataset intermediate a b Hirr Haligned Ha Hb Hgrid)
    as (o & jn & items & Ho & Hnd & Hjn & Hkeys & Hitems & Hrun).
  destruct Haligned as [_ Haligned].
  do 2 eexists. exists o, jn. split; [exact Hrun|]. split; [apply copy_heap_fresh|].
  split; [done|]. split; [done|].
  intros j key cur src Hj Hcur Hsrc.
  rewrite (copy_heap_var h o Hnd _ j key Hj), list_lookup_imap.
  assert (∃ it, items !! j = Some it ∧ it.1 = key) as (it & Hit & Hkey).
  { rewrite <- Hkeys, list_lookup_fmap in Hj.
    destruct (items !! j) as [it|]; [|done]. exists it. split; [done|]. by injection Hj. }
  rewrite Hit. simpl. rewrite Forall_lookup in Hitems.
  destruct (Hitems _ _ Hit) as [Hcur' Hsrc']. rewrite Hkey in Hcur', Hsrc'.
  rewrite Hcur in Hcur'. rewrite Hsrc in Hsrc'.
  injection Hcur' as <-. injection Hsrc' as <-.
  pose proof (Hgrid _ _ Hcur) as Hlc.
  destruct (Haligned _ _ Hcur) as (src' & Hsrc'' & Hls).
  rewrite Hsrc in Hsrc''. injection Hsrc'' as <-.
  destruct (Haligned _ _ Hb) as (a' & Ha' & Hla). rewrite Ha in Ha'. injection Ha' as <-.
  eexists. split; [done|]. destruct (decide (j ≤ jn)%nat) as [Hle|Hgt].
  - split; [apply pick_array_length; lia|].
    split; [|lia]. intros _ p x y s c Hx Hy Hs Hc. by apply pick_array_lookup.
  - split; [done|]. split; [lia | done].
Qed.

(** X19.  [max_value] and [min_value] on two datasets of one grid that
    both carry 'ndvi'.  The result is a new dataset with the variables of
    [dataset_intermediate].  'ndvi' and every variable that precedes it in
    the intermediate's order of variables take [dataset]'s value at the
    pixels where [dataset]'s 'ndvi' is greater (for [min_value], smaller)
    than the intermediate's, and keep the intermediate's value elsewhere.
    Every variable that follows 'ndvi' is returned unchanged: by then the
    copy's 'ndvi' has been updated and the comparison holds nowhere. *)
Theorem max_min_value_correct (pick_max : bool) (h : heap) (dataset intermediate : nat)
    (a b : list fval) :
  aligned h dataset intermediate →
  ds_var h dataset "ndvi" = Some a →
  ds_var h intermediate "ndvi" = Some b →
  (∀ key cur, ds_var h intermediate key = Some cur → length cur = length b) →
  let reducer := if pick_max then max_value else min_value in
  let better := λ x y : fval, if pick_max then fltb y x else fltb x y in
  ∃ out h' o_int jn,
    reducer dataset (Some intermediate) h = (Ok out, h')
    ∧ fresh_in h h' out
    ∧ datasets h !! intermediate = Some o_int
    ∧ (o_vars o_int).*1 !! jn = Some "ndvi"%string
    ∧ ∀ j key cur src,
        (o_vars o_int).*1 !! j = Some key →
        ds_var h intermediate key = Some cur →
        ds_var h dataset key = Some src →
        ∃ res,
          ds_var h' out key = Some res
          ∧ length res = length cur
          ∧ ((j ≤ jn)%nat →
             ∀ p x y s c,
               a !! p = Some x → b !! p = Some y → src !! p = Some s → cur !! p = Some c →
               res !! p = Some (pick_value better x y s c))
          ∧ ((jn < j)%nat → res = cur).
Proof.
  intros Haligned Ha Hb Hgrid reducer better.
  destruct pick_max.
  - apply (extreme_value_correct (λ x y, fltb y x)); try done.
    intros v. apply fltb_irrefl.
  - apply (extreme_value_correct (λ x y, fltb x y)); try done.
    intros v. apply fltb_irrefl.
Qed.

Lemma example_ndvi_heap_aligned : aligned example_ndvi_heap 0%nat 1%nat.
Proof.
  split.
  - eexists. split; [reflexivity|]. split.
    + apply (bool_decide_unpack _). by vm_compute.
    + repeat constructor; by eexists.
  - intros key cur. unfold ds_var. simpl.
    repeat (case_decide as Hkey; simpl in Hkey;
            [subst key; simpl; intros [= <-]; eexists; split; reflexivity | clear Hkey]).
    done.
Defined.

Lemma example_ndvi_heap_grid (key : string) (cur : list fval) :
  ds_var example_ndvi_heap 1%nat key = Some cur → length cur = 2%nat.
Proof.
  unfold ds_var. simpl.
  repeat (case_decide as Hkey; simpl in Hkey;
          [subst key; simpl; by intros [= <-] | clear Hkey]).
  done.
Defined.

Lemma max_min_value_correct_witness :
  ∃ out h',
    max_value 0%nat (Some 1%nat) example_ndvi_heap = (Ok out, h')
    ∧ ds_var h' out "nir" = Some [flit 9 1; flit 10 1]
    ∧ ∃ red, ds_var h' out "red" = Some red
             ∧ red !! 0%nat = Some (pick_value (λ x y, fltb y x) (flit 3 4) (flit 1 2)
                                               (flit 1 1) (flit 7 1)).
Proof.
  destruct (max_min_value_correct true example_ndvi_heap 0%nat 1%nat
              [flit 3 4; flit 1 4] [flit 1 2; flit 1 2]
              example_ndvi_heap_aligned eq_refl eq_refl example_ndvi_heap_grid)
    as (out & h' & o_int & jn & Hrun & _ & Ho & Hjn & Hvars).
  injection Ho as <-.
  assert (jn = 1%nat) as -> by (destruct jn as [|[|[|jn]]]; by simplify_eq).
  exists out, h'. split; [exact Hrun|]. split.
  - destruct (Hvars 2%nat "nir"%string [flit 9 1; flit 10 1] [flit 5 1; flit 6 1]
                eq_refl eq_refl eq_refl) as (res & Hres & _ & _ & Hsame).
    rewrite Hres. f_equal. apply Hsame. lia.
  - destruct (Hvars 0%nat "red"%string [flit 7 1; flit 8 1] [flit 1 1; flit 2 1]
                eq_refl eq_refl eq_refl) as (res & Hres & _ & Hpick & _).
    exists res. split; [exact Hres|]. apply Hpick; [lia | reflexivity..].
Defined.

(** ** Reducers in sequence *)

Lemma copy_heap_preserved (h : heap) (o : dsobj) (bufs : list (list fval)) :
  preserved h (copy_heap h o bufs).
Proof. split; intros; simpl; by apply lookup_app_l_Some. Qed.

Lemma ds_var_preserved (h h' : heap) (r : nat) (key : string) (v : list fval) :
  preserved h h' → ds_var h r key = Some v → ds_var h' r key = Some v.
Proof.
  intros [Harr Hds] (o & l & Ho & Hl & Hv)%ds_var_inv.
  unfold ds_var. rewrite (Hds _ _ Ho). simpl. rewrite Hl. simpl. by apply Harr.
Qed.

Lemma valid_ref_preserved (h h' : heap) (r : nat) :
  preserved h h' → valid_ref h r → valid_ref h' r.
Proof.
  intros [Harr Hds] (o & Ho & Hnd & Hvars). exists o.
  split; [by apply Hds|]. split; [done|].
  eapply Forall_impl; [exact Hvars|]. intros kl [v Hv]. exists v. by apply Harr.
Qed.

Lemma copy_heap_valid (h : heap) (o : dsobj) (bufs : list (list fval)) :
  NoDup (o_vars o).*1 → length bufs = length (o_vars o) →
  valid_ref (copy_heap h o bufs) (length (datasets h)).
Proof.
  intros Hnd Hlen. eexists. split; [apply copy_heap_object|]. cbn [o_vars].
  split; [by rewrite copied_vars_keys|].
  apply Forall_lookup. intros j [k l] Hj.
  destruct (lookup_lt_is_Some_2 (o_vars o) j) as [kl Hkl].
  { apply lookup_lt_Some in Hj. unfold copied_vars in Hj.
    rewrite length_zip_with, length_fmap, length_seq in Hj. lia. }
  rewrite (copied_vars_lookup _ _ _ _ Hkl) in Hj. injection Hj as <- <-. simpl.
  rewrite lookup_app_r by lia. apply lookup_lt_is_Some_2.
  apply lookup_lt_Some in Hkl. lia.
Qed.

(** The run of [fill_nodata] behind the statements below. *)
Lemma fill_nodata_run (h : heap) (dataset intermediate : nat) :
  valid_ref h dataset →
  aligned h dataset intermediate →
  ∃ o (items : list (string * (list fval * list fval))),
    datasets h !! intermediate = Some o
    ∧ NoDup (o_vars o).*1
    ∧ items.*1 = (o_vars o).*1
    ∧ Forall (λ it, ds_var h intermediate it.1 = Some it.2.1
                    ∧ ds_var h dataset it.1 = Some it.2.2
                    ∧ length it.2.2 = length it.2.1) items
    ∧ fill_nodata dataset (Some intermediate) h
      = (Ok (length (datasets h)),
         copy_heap h o ((λ it, fill_array it.2.1 it.2.2) <$> items)).
Proof.
  intros Hvalid [Hi Haligned].
  destruct (valid_ref_contents _ _ Hi) as (o & contents & Ho & Hnd & Hall).
  destruct (aligned_items _ _ _ _ _ Ho Hnd Hall Haligned) as (items & Hkeys & Hcur & Hitems).
  exists o, items. do 3 (split; [done|]). split.
  { apply Forall_lookup. intros j it Hit. rewrite Forall_lookup in Hitems.
    destruct (Hitems _ _ Hit) as [Hsrc Hlen]. split; [|done].
    apply (variable_at_index h intermediate o contents j); try done.
    - by rewrite <- Hkeys, list_lookup_fmap, Hit.
    - by rewrite <- Hcur, list_lookup_fmap, Hit. }
  pose proof (fill_nodata_loop h dataset o items [] [] (valid_ref_lt _ _ Hvalid) Hnd
                ltac:(by rewrite Hkeys) eq_refl Hitems) as Hloop.
  cbn zeta in Hloop. rewrite Hcur, !app_nil_l in Hloop.
  unfold fill_nodata.
  rewrite (mbind_run _ _ _ _ _ (copy_deep_heap h o intermediate contents Ho Hall)).
  rewrite (mbind_run _ _ _ _ _ (ds_keys_run _ _ _ (copy_heap_object h o contents))).
  cbn [o_vars]. rewrite copied_vars_keys, <- Hkeys.
  unfold copy_heap. by rewrite (mbind_run _ _ _ _ _ Hloop).
Qed.

Lemma fill_value_again (c s : fval) : fill_value (fill_value c s) s = fill_value c s.
Proof.
  unfold fill_value. destruct (feqb c nodata) eqn:Hc; [|by rewrite Hc].
  by destruct (feqb s nodata).
Qed.

Lemma fill_array_again (c s : list fval) : fill_array (fill_array c s) s = fill_array c s.
Proof.
  unfold fill_array. revert s. induction c as [|vc c IH]; intros [|vs s]; try done.
  simpl. by rewrite IH, fill_value_again.
Qed.

(** X20.  Filling in sequence.  Start from a base mosaic, fill it with
    [fill_nodata] from a dataset [ds1] and fill the result from a dataset
    [ds2] (both aligned on the base's variables).  Both calls return, and
    in the final dataset every pixel of every variable holds the base's
    value unless that is -9999, else [ds1]'s value unless that is -9999,
    else [ds2]'s value.  Filling once more from the same dataset changes
    nothing. *)
Theorem fill_nodata_in_sequence (h : heap) (base ds1 ds2 : nat) :
  valid_ref h ds1 → valid_ref h ds2 →
  aligned h ds1 base → aligned h ds2 base →
  ∃ out1 h1 out2 h2,
    fill_nodata ds1 (Some base) h = (Ok out1, h1)
    ∧ fill_nodata ds2 (Some out1) h1 = (Ok out2, h2)
    ∧ ∀ key c s1 s2,
        ds_var h base key = Some c →
        ds_var h ds1 key = Some s1 →
        ds_var h ds2 key = Some s2 →
        ∃ res1 res2,
          ds_var h1 out1 key = Some res1
          ∧ ds_var h2 out2 key = Some res2
          ∧ length res2 = length c
          ∧ (∀ (p : nat) (vc v1 v2 : fval),
               c !! p = Some vc → s1 !! p = Some v1 → s2 !! p = Some v2 →
               res2 !! p = Some (fill_value (fill_value vc v1) v2))
          ∧ (s2 = s1 → res2 = res1).
Proof.
  intros Hv1 Hv2 Ha1 Ha2.
  destruct (fill_nodata_run h ds1 base Hv1 Ha1)
    as (o & items & Ho & Hnd & Hkeys & Hitems & Hrun1).
  set (bufs1 := (λ it : string * (list fval * list fval), fill_array it.2.1 it.2.2)
                  <$> items) in *.
  set (h1 := copy_heap h o bufs1) in *.
  set (out1 := length (datasets h)) in *.
  pose proof (copy_heap_preserved h o bufs1) as Hpres. fold h1 in Hpres.
  assert (length bufs1 = length (o_vars o)) as Hlen1.
  { unfold bufs1. by rewrite length_fmap, <- (length_fmap fst items), Hkeys, length_fmap. }
  assert (∀ j it, items !! j = Some it →
            ds_var h1 out1 it.1 = Some (fill_array it.2.1 it.2.2)) as Hout1.
  { intros j it Hit. unfold h1, out1.
    rewrite (copy_heap_var h o Hnd bufs1 j it.1)
      by (by rewrite <- Hkeys, list_lookup_fmap, Hit).
    unfold bufs1. by rewrite list_lookup_fmap, Hit. }
  assert (∀ key cur, ds_var h1 out1 key = Some cur →
            ∃ it, it ∈ items ∧ it.1 = key ∧ cur = fill_array it.2.1 it.2.2) as Hinv1.
  { intros key cur (o1 & l & Ho1 & Hl & Hcur)%ds_var_inv.
    unfold h1, out1 in Ho1. rewrite copy_heap_object in Ho1. injection Ho1 as <-.
    cbn [o_vars] in Hl. destruct (assoc_lookup _ _ _ Hl) as [j Hj].
    assert ((copied_vars (length (arrays h)) (o_vars o)).*1 !! j = Some key) as Hkey
      by (by rewrite list_lookup_fmap, Hj).
    rewrite copied_vars_keys, <- Hkeys, list_lookup_fmap in Hkey.
    destruct (items !! j) as [it|] eqn:Hit; [|done]. injection Hkey as Hkey.
    exists it. split; [by eapply list_elem_of_lookup_2|]. split; [done|].
    pose proof (Hout1 _ _ Hit) as Hval. rewrite Hkey in Hval.
    assert (ds_var h1 out1 key = Some cur) as Hcur'.
    { unfold ds_var, h1, out1. rewrite copy_heap_object. simpl. rewrite Hl. done. }
    congruence. }
  assert (aligned h1 ds2 out1) as Ha2'.
  { split; [by apply copy_heap_valid|].
    intros key cur (it & Hin & <- & ->)%Hinv1.
    rewrite Forall_forall in Hitems. destruct (Hitems _ Hin) as (Hc & Hs & Hl).
    destruct Ha2 as [_ Ha2]. destruct (Ha2 _ _ Hc) as (src & Hsrc & Hls).
    exists src. split; [by apply (ds_var_preserved h)|].
    unfold fill_array. rewrite length_zip_with. lia. }
  destruct (fill_nodata_run h1 ds2 out1 (valid_ref_preserved _ _ _ Hpres Hv2) Ha2')
    as (o1 & items2 & Ho1 & Hnd1 & Hkeys2 & Hitems2 & Hrun2).
  exists out1, h1. do 2 eexists. split; [exact Hrun1|]. split; [exact Hrun2|].
  intros key c s1 s2 Hc Hs1 Hs2.
  assert (ds_var h1 out1 key = Some (fill_array c s1)) as Hres1.
  { destruct Ha1 as [Hvb _].
    destruct (valid_ref_contents _ _ Hvb) as (o' & contents & Ho' & _ & Hall).
    rewrite Ho in Ho'. injection Ho' as <-.
    destruct (variable_index _ _ _ _ _ _ Ho Hall Hc) as (j & Hj & _).
    rewrite <- Hkeys, list_lookup_fmap in Hj.
    destruct (items !! j) as [it|] eqn:Hit; [|done]. injection Hj as Hkey.
    rewrite Forall_lookup in Hitems. destruct (Hitems _ _ Hit) as (Hc' & Hs' & _).
    rewrite Hkey in Hc', Hs'. rewrite <- Hkey, (Hout1 _ _ Hit). congruence. }
  assert (∃ j, (o_vars o1).*1 !! j = Some key
               ∧ ((λ it : string * (list fval * list fval), fill_array it.2.1 it.2.2)
                    <$> items2) !! j = Some (fill_array (fill_array c s1) s2))
    as (j & Hj & Hbuf).
  { assert (∃ j, items2.*1 !! j = Some key) as [j Hj].
    { rewrite Hkeys2. unfold h1, out1 in Ho1. rewrite copy_heap_object in Ho1.
      injection Ho1 as <-. cbn [o_vars]. rewrite copied_vars_keys.
      destruct Ha1 as [Hvb _].
      destruct (valid_ref_contents _ _ Hvb) as (o' & contents & Ho' & _ & Hall).
      rewrite Ho in Ho'. injection Ho' as <-.
      destruct (variable_index _ _ _ _ _ _ Ho Hall Hc) as (j & Hj & _). by exists j. }
    exists j. split; [by rewrite <- Hkeys2|].
    rewrite list_lookup_fmap in Hj. rewrite list_lookup_fmap.
    destruct (items2 !! j) as [it|] eqn:Hit; [|done]. injection Hj as Hkey. simpl.
    rewrite Forall_lookup in Hitems2. destruct (Hitems2 _ _ Hit) as (Hc' & Hs' & _).
    rewrite Hkey, Hres1 in Hc'. rewrite Hkey, (ds_var_preserved h h1 _ _ _ Hpres Hs2) in Hs'.
    congruence. }
  exists (fill_array c s1), (fill_array (fill_array c s1) s2).
  split; [done|]. split.
  { by rewrite (copy_heap_var h1 o1 Hnd1 _ j key Hj). }
  destruct Ha1 as [_ Ha1]. destruct (Ha1 _ _ Hc) as (s1' & Hs1' & Hl1).
  destruct Ha2 as [_ Ha2]. destruct (Ha2 _ _ Hc) as (s2' & Hs2' & Hl2).
  rewrite Hs1 in Hs1'. rewrite Hs2 in Hs2'. injection Hs1' as <-. injection Hs2' as <-.
  split; [unfold fill_array; rewrite !length_zip_with; lia|]. split.
  - intros p vc v1 v2 Hvc Hv1' Hv2'. unfold fill_array.
    by rewrite !lookup_zip_with, Hvc, Hv1', Hv2'.
  - intros ->. apply fill_array_again.
Qed.

Lemma fill_nodata_in_sequence_witness :
  ∃ out1 h1 out2 h2,
    fill_nodata 0%nat (Some 1%nat) example_heap = (Ok out1, h1)
    ∧ fill_nodata 0%nat (Some out1) h1 = (Ok out2, h2).
Proof.
  destruct (fill_nodata_in_sequence example_heap 1%nat 0%nat 0%nat
              (example_heap_valid 0%nat ltac:(lia)) (example_heap_valid 0%nat ltac:(lia))
              example_heap_aligned example_heap_aligned)
    as (out1 & h1 & out2 & h2 & Hrun1 & Hrun2 & _).
  exists out1, h1, out2, h2. split; [exact Hrun1 | exact Hrun2].
Defined.

(** X21.  Without an intermediate dataset the four reducers are one and
    the same operation: [fill_nodata], [max_value], [min_value] and
    [addition] each return a deep copy of [dataset], a new object on new
    buffers with the same value; no 'ndvi' and no totals are needed for
    that first call. *)
Theorem reducers_start_from_a_copy (h : heap) (dataset : nat) :
  valid_ref h dataset →
  ∃ out h',
    fill_nodata dataset None h = (Ok out, h')
    ∧ max_value dataset None h = (Ok out, h')
    ∧ min_value dataset None h = (Ok out, h')
    ∧ addition dataset None h = (Ok out, h')
    ∧ fresh_in h h' out
    ∧ ds_value h' out = ds_value h dataset
    ∧ is_Some (ds_value h dataset)
    ∧ ∀ key, ds_var h' out key = ds_var h dataset key.
Proof.
  intros Hvalid.
  destruct (valid_ref_contents _ _ Hvalid) as (o & contents & Ho & Hnd & Hall).
  pose proof (copy_deep_heap h o dataset contents Ho Hall) as Hcopy.
  do 2 eexists. do 4 (split; [exact Hcopy|]).
  split; [apply copy_heap_fresh|].
  unfold copy_heap. rewrite (ds_value_copy _ _ _ Hall), (ds_value_contents _ _ _ _ Ho Hall).
  split; [done|]. split; [by eexists|].
  intros key. fold (copy_heap h o contents).
  destruct (ds_var h dataset key) as [v|] eqn:Hv.
  - destruct (variable_index _ _ _ _ _ _ Ho Hall Hv) as (j & Hj & Hc).
    by rewrite (copy_heap_var h o Hnd contents j key Hj).
  - unfold ds_var in *. rewrite copy_heap_object. rewrite Ho in Hv. simpl in *.
    destruct (assoc key (o_vars o)) as [l|] eqn:Hl.
    + exfalso. destruct (assoc_lookup _ _ _ Hl) as [j Hj].
      destruct (Forall2_lookup_l _ _ _ _ _ Hall Hj) as (w & _ & Hw). simpl in *.
      congruence.
    + destruct (assoc key (copied_vars (length (arrays h)) (o_vars o))) as [l'|] eqn:Hl';
        [|done].
      exfalso. destruct (assoc_lookup _ _ _ Hl') as [j Hj].
      assert ((copied_vars (length (arrays h)) (o_vars o)).*1 !! j = Some key) as Hkey
        by (by rewrite list_lookup_fmap, Hj).
      rewrite copied_vars_keys, list_lookup_fmap in Hkey.
      destruct (o_vars o !! j) as [[k l]|] eqn:Hkl; [|done]. injection Hkey as ->.
      by rewrite (assoc_NoDup_lookup key l _ j Hnd Hkl) in Hl.
Qed.

Lemma reducers_start_from_a_copy_witness :
  ∃ out h',
    max_value 0%nat None example_heap = (Ok out, h')
    ∧ addition 0%nat None example_heap = (Ok out, h')
    ∧ ds_value h' out = ds_value example_heap 0%nat.
Proof.
  destruct (reducers_start_from_a_copy example_heap 0%nat
              (example_heap_valid 0%nat ltac:(lia)))
    as (out & h' & _ & Hmax & _ & Hadd & _ & Hvalue & _).
  exists out, h'. split; [exact Hmax|]. split; [exact Hadd | exact Hvalue].
Defined.

(** ** The query that [get_dataset_by_extent] sends *)

(** X22.  [get_dataset_by_extent] hands [product], [measurements],
    [output_crs], [resolution] and [dask_chunks] to the datacube as they
    are and builds the rest of the query from the arguments that are not
    None: no key occurs twice, 'product_type', 'platform', 'time' and
    'crs' are present exactly when given, with the given value, and
    'longitude' and 'latitude' are present only together, exactly when
    both are given; a lone extent is dropped from the query without an
    error. *)
Theorem query_extents_come_in_pairs
    (dc_load : string → option (list string) → option string → option extent →
               option (list (string * nat)) → list (string * qval) → result LoadedDataset)
    (product : string) (product_type platform : option string) (time : option (Z * Z))
    (longitude latitude : option extent) (measurements : option (list string))
    (output_crs : option string) (resolution : option extent) (crs : option string)
    (dask_chunks : option (list (string * nat))) :
  ∃ query,
    get_dataset_by_extent dc_load product product_type platform time longitude latitude
                          measurements output_crs resolution crs dask_chunks
    = dc_load product measurements output_crs resolution dask_chunks query
    ∧ NoDup query.*1
    ∧ assoc "product_type" query = QStr <$> product_type
    ∧ assoc "platform" query = QStr <$> platform
    ∧ assoc "time" query = QTime <$> time
    ∧ assoc "crs" query = QStr <$> crs
    ∧ assoc "longitude" query
      = match longitude, latitude with
        | Some lon, Some _ => Some (QExtent lon)
        | _, _ => None
        end
    ∧ assoc "latitude" query
      = match longitude, latitude with
        | Some _, Some lat => Some (QExtent lat)
        | _, _ => None
        end.
Proof.
  eexists. split; [reflexivity|].
  destruct product_type, platform, time, longitude, latitude, crs; simpl;
    (split; [apply (bool_decide_unpack _); by vm_compute | done]).
Qed.
